(** * minima: the repository synchronisation engine and the storing reader

    A shallow embedding of package [get] of minima:
    - the Syncer ([StoreRepo], [processMetadata], [processPrimary],
      [downloadStoreApply], [downloadStore], [checksumTypeMap]);
    - the storing reader of [storage.go] ([NewStoringReader],
      [storingReader.Read], [storingReader.Close]).

    Stateful Go code is written in a state monad over a world that holds
    the state of the collaborators (network, storage) and the chronological
    trace of what the code did: the lines it logged and the collaborator
    calls it made, each with its reply. *)

From Stdlib Require Import String Ascii List Arith Lia Bool.
From stdpp Require Import base option list strings gmap pretty.
Import ListNotations.

Local Open Scope string_scope.
Local Open Scope list_scope.

(** ** Go values shared by both files *)

(** A Go [error] value.  [ErrFileNotFound] is the sentinel the Syncer
    compares against with [==]; the other constructors are errors that are
    told apart from it and carry the text that their [Error()] method
    returns.  [HttpError] is the transport's status error with the status
    code it was raised for (spec, 4.2). *)
Inductive error : Type :=
| ErrFileNotFound
| HttpError (statusCode : nat) (msg : string)
| OtherError (msg : string).

(** [err.Error()].  The declaration of [ErrFileNotFound] is outside the
    files at hand; no statement below depends on its text. *)
Definition Error (e : error) : string :=
  match e with
  | ErrFileNotFound => "File not found"
  | HttpError _ msg => msg
  | OtherError msg => msg
  end.

(** [err == ErrFileNotFound] *)
Definition isErrFileNotFound (e : error) : bool :=
  match e with
  | ErrFileNotFound => true
  | _ => false
  end.

(** [strings.HasSuffix(s, suffix)]:
    [len(s) >= len(suffix) && s[len(s)-len(suffix):] == suffix]. *)
Definition HasSuffix (s suffix : string) : bool :=
  Nat.leb (String.length suffix) (String.length s)
  && String.eqb
       (substring (String.length s - String.length suffix)
                  (String.length suffix) s)
       suffix.

(** Rendering of [%v] for a Go [int]. *)
Definition fmt_int (n : nat) : string := pretty n.

(** The newline that ends most format strings of the Syncer. *)
Definition nl : string := String (ascii_of_nat 10) EmptyString.

Module Syncer.

(** ** Data decoded from the repository's XML documents *)

(** [XMLLocation] maps a <location> tag. *)
Record XMLLocation := { Href : string }.

(** [XMLData] maps a <data> tag in repodata/repomd.xml.  The Go fields
    [Type] and [Location] are [DataType] and [DataLocation] here. *)
Record XMLData := { DataType : string; DataLocation : XMLLocation }.

(** [XMLRepomd] maps a <repomd> tag in repodata/repomd.xml. *)
Record XMLRepomd := { Data : list XMLData }.

(** [XMLChecksum] maps a <checksum> tag of the primary manifest.  The Go
    fields [Type] and [Checksum] are [ChecksumKind] and [ChecksumValue]
    here. *)
Record XMLChecksum := { ChecksumKind : string; ChecksumValue : string }.

(** [XMLPackage] maps a <package> tag of the primary manifest. *)
Record XMLPackage := {
  Arch : string;
  Location : XMLLocation;
  Checksum : XMLChecksum
}.

(** [XMLMetaData] maps a <metadata> tag of the primary manifest. *)
Record XMLMetaData := { Packages : list XMLPackage }.

(** Modelled from the spec: the declaration of [ChecksumType] is not among
    the source files.  The spec (3) gives the enumeration
    {SHA1, SHA256, Unknown} and says that a name outside the table maps to
    Unknown; in the code that is the zero value a Go map lookup yields for
    a missing key. *)
Inductive ChecksumType : Type := SHA1 | SHA256 | Unknown.

Definition zeroChecksumType : ChecksumType := Unknown.

#[global] Instance ChecksumType_eq_dec : EqDecision ChecksumType.
Proof. solve_decision. Defined.

#[global] Instance error_eq_dec : EqDecision error.
Proof. solve_decision. Defined.

#[global] Instance XMLLocation_eq_dec : EqDecision XMLLocation.
Proof. solve_decision. Defined.

#[global] Instance XMLChecksum_eq_dec : EqDecision XMLChecksum.
Proof. solve_decision. Defined.

#[global] Instance XMLPackage_eq_dec : EqDecision XMLPackage.
Proof. solve_decision. Defined.

(** [var checksumTypeMap = map[string]ChecksumType{...}] *)
Definition checksumTypeMap : gmap string ChecksumType :=
  <["sha" := SHA1]> (<["sha1" := SHA1]> (<["sha256" := SHA256]> ∅)).

(** [checksumTypeMap[name]]: indexing a Go map yields the zero value of
    the value type when the key is missing. *)
Definition checksumTypeOf (name : string) : ChecksumType :=
  default zeroChecksumType (checksumTypeMap !! name).

Definition repomdPath : string := "repodata/repomd.xml".

(** [Syncer]: the URL of the repo and the architecture filter.  The
    [storage] field is the [Storage] instance in scope below; its state
    lives in the world. *)
Record Syncer := { Url : string; archs : gmap string bool }.

(** [NewSyncer] creates a new Syncer. *)
Definition NewSyncer (url : string) (archs : gmap string bool) : Syncer :=
  {| Url := url; archs := archs |}.

(** [r.archs[a]]: the zero value [false] for a missing key. *)
Definition archsIndex (r : Syncer) (a : string) : bool :=
  default false (archs r !! a).

(** ** The world: collaborators and trace *)

(** What the code did, in the order it did it.  Every collaborator call
    carries the reply it got. *)
Inductive Event : Type :=
| EvLog (line : string)
| EvGet (url : string) (reply : option error)
| EvStoringMapper (path checksum : string) (reply : option error)
| EvNop (reply : option error)
| EvDecodeRepomd (reply : option error)
| EvGzipNewReader (reply : option error)
| EvDecodePrimary (reply : option error)
| EvGzipClose
| EvChecksum (path : string) (t : ChecksumType) (reply : string * option error)
| EvRecycle (path : string) (reply : option error)
| EvCommit (reply : option error).

(** The [Storage] interface the Syncer calls: [StoringMapper], [Checksum],
    [Recycle], [Commit].  Its implementation is not among the source
    files; it is a parameter.  [W] is the state of everything outside the
    Syncer, [Reader] the type of the byte streams ([io.ReadCloser]).
    The method [Checksum] is [StorageChecksum] here, the name being
    taken by the field of [XMLPackage]; it only reads the state (spec,
    4.1) and returns Go's pair of a checksum and an error. *)
Class Storage (W Reader : Type) := {
  StoringMapper : string -> string -> Reader -> W -> (error + Reader) * W;
  StorageChecksum : string -> ChecksumType -> W -> string * option error;
  Recycle : string -> W -> option error * W;
  Commit : W -> option error * W
}.

(** The network and the decoders the Syncer runs its streams through:
    the HTTP GET of [DownloadApply], [util.Nop], [xml.Decoder.Decode] on
    a [XMLRepomd] and on a [XMLMetaData], [gzip.NewReader] and the gzip
    reader's [Close].  None is among the source files; all are
    parameters. *)
Class Transport (W Reader : Type) := {
  httpGet : string -> W -> (error + Reader) * W;
  utilNop : Reader -> W -> option error * W;
  xmlDecodeRepomd : Reader -> W -> (error + XMLRepomd) * W;
  gzipNewReader : Reader -> W -> (error + Reader) * W;
  xmlDecodePrimary : Reader -> W -> (error + XMLMetaData) * W;
  gzipClose : Reader -> W -> W
}.

Record World (W : Type) := mkWorld { ext : W; trace : list Event }.
Arguments mkWorld {W} _ _.
Arguments ext {W} _.
Arguments trace {W} _.

(** The state monad of the Syncer's code. *)
Definition M (W A : Type) : Type := World W -> A * World W.

Definition ret {W A} (a : A) : M W A := fun w => (a, w).

Definition bind {W A B} (m : M W A) (k : A -> M W B) : M W B :=
  fun w => let (a, w') := m w in k a w'.

Declare Scope sync_scope.
Delimit Scope sync_scope with sync.

Notation "'let*' x ':=' m 'in' k" := (bind m (fun x => k))
  (at level 10, x pattern, m at level 100, k at level 200) : sync_scope.
Notation "m ;;; k" := (bind m (fun _ => k))
  (at level 100, right associativity) : sync_scope.

Local Open Scope sync_scope.

(** *** Reading a trace *)

(** A collaborator call that the Syncer treats as fatal came back with an
    error.  (An error of the checksum query is not fatal.) *)
Definition failed (ev : Event) : bool :=
  match ev with
  | EvGet _ (Some _)
  | EvStoringMapper _ _ (Some _)
  | EvNop (Some _)
  | EvDecodeRepomd (Some _)
  | EvGzipNewReader (Some _)
  | EvDecodePrimary (Some _)
  | EvRecycle _ (Some _)
  | EvCommit (Some _) => true
  | _ => false
  end.

Definition noFail (T : list Event) : bool := forallb (fun ev => negb (failed ev)) T.

(** The trace ends with a failed call and holds no other. *)
Definition endsInFailure (T : list Event) : Prop :=
  exists T0 ev, T = T0 ++ [ev] /\ noFail T0 = true /\ failed ev = true.

(** How a run that returned [res] relates to the calls it made: no call
    failed when it returned nil; when it returned an error, the last thing
    it did was a call that failed, and that is the only one. *)
Definition stopsAtFailure (res : option error) (T : list Event) : Prop :=
  match res with
  | None => noFail T = true
  | Some _ => endsInFailure T
  end.

(** The URLs fetched, in order. *)
Definition getsOf (T : list Event) : list string :=
  flat_map (fun ev => match ev with EvGet url _ => [url] | _ => [] end) T.

(** The paths handed to [Recycle], in order. *)
Definition recyclesOf (T : list Event) : list string :=
  flat_map (fun ev => match ev with EvRecycle path _ => [path] | _ => [] end) T.

(** The number of calls of [Commit]. *)
Definition commitsOf (T : list Event) : nat :=
  length (List.filter (fun ev => match ev with EvCommit _ => true | _ => false end) T).

(** The checksum queries made, in order: the path and the algorithm. *)
Definition queriesOf (T : list Event) : list (string * ChecksumType) :=
  flat_map (fun ev => match ev with EvChecksum path t _ => [(path, t)] | _ => [] end) T.

(** The calls of [StoringMapper], in order: the path and the expected
    checksum handed to it. *)
Definition mappersOf (T : list Event) : list (string * string) :=
  flat_map (fun ev => match ev with
                      | EvStoringMapper path checksum _ => [(path, checksum)]
                      | _ => []
                      end) T.

Definition emit {W} (e : Event) : M W unit :=
  fun w => (tt, mkWorld (ext w) (trace w ++ [e])).

(** A collaborator call that may change the outside state. *)
Definition call {W A} (op : W -> A * W) (ev : A -> Event) : M W A :=
  fun w => let (a, x) := op (ext w) in (a, mkWorld x (trace w ++ [ev a])).

(** A collaborator call that only reads the outside state. *)
Definition query {W A} (op : W -> A) (ev : A -> Event) : M W A :=
  fun w => let a := op (ext w) in (a, mkWorld (ext w) (trace w ++ [ev a])).

(** [log.Printf] and [log.Println] *)
Definition logLine {W} (line : string) : M W unit := emit (EvLog line).

Definition errOf {A} (r : error + A) : option error :=
  match r with
  | inl e => Some e
  | inr _ => None
  end.

(** A computation that only appends events satisfying [P] to the trace. *)
Definition appendsOnly {W} (P : Event -> Prop) {A} (m : M W A) : Prop :=
  forall w, exists T, trace (snd (m w)) = trace w ++ T /\ Forall P T.

(** Events of the metadata stage: anything but a recycle or a commit. *)
Definition metaEvent (ev : Event) : Prop :=
  match ev with
  | EvRecycle _ _ | EvCommit _ => False
  | _ => True
  end.

(** A computation that moves the outside state along the relation [R]. *)
Definition stepsWithin {W} (R : W -> W -> Prop) {A} (m : M W A) : Prop :=
  forall w, R (ext w) (ext (snd (m w))).

Section Code.

Context {W Reader : Type} `{!Storage W Reader} `{!Transport W Reader}.

(** [util.ReaderConsumer]: a function that consumes a stream and returns
    an error.  The Go closures passed to [downloadStoreApply] assign the
    named results of the enclosing function; [S] is the type of those
    captured variables, passed in and out explicitly. *)
Definition ReaderConsumer (S : Type) : Type :=
  Reader -> S -> M W (S * option error).

(** [util.ReaderMapper] *)
Definition ReaderMapper : Type := Reader -> M W (error + Reader).

(** [util.Nop] as a consumer. *)
Definition Nop : ReaderConsumer unit :=
  fun reader s =>
    let* e := call (utilNop reader) EvNop in
    ret (s, e).

(** [r.storage.StoringMapper(path, checksum)] *)
Definition storingMapper (path checksum : string) : ReaderMapper :=
  fun reader =>
    call (StoringMapper path checksum reader)
         (fun r => EvStoringMapper path checksum (errOf r)).

(** Modelled from the spec: [util.Compose] is not among the source files.
    The mapper turns the stream into one that also feeds the store; a
    failure of the mapper is returned and the consumer never runs;
    otherwise the result is the consumer's (spec 4.2 and 7: errors are
    surfaced unmodified). *)
Definition Compose {S} (mapper : ReaderMapper) (f : ReaderConsumer S)
  : ReaderConsumer S :=
  fun reader s =>
    let* m := mapper reader in
    match m with
    | inl e => ret (s, Some e)
    | inr mapped => f mapped s
    end.

(** Modelled from the spec: [DownloadApply] is not among the source files.
    It issues an HTTP GET; a failed fetch is returned as the error and the
    consumer never runs; otherwise the consumer is applied to the body and
    its error is the result (spec 4.2 and 7). *)
Definition DownloadApply {S} (url : string) (f : ReaderConsumer S)
  : S -> M W (S * option error) :=
  fun s =>
    let* g := call (httpGet url) (fun r => EvGet url (errOf r)) in
    match g with
    | inl e => ret (s, Some e)
    | inr body => f body s
    end.

(** [downloadStoreApply] downloads a repo-relative path into a file, while
    applying a ReaderConsumer. *)
Definition downloadStoreApply {S} (r : Syncer) (path checksum : string)
    (f : ReaderConsumer S) : S -> M W (S * option error) :=
  fun s =>
    logLine ("Downloading " +:+ path +:+ "...") ;;;
    DownloadApply (Url r +:+ "/" +:+ path)
                  (Compose (storingMapper path checksum) f) s.

(** [downloadStore] downloads a repo-relative path into a file. *)
Definition downloadStore (r : Syncer) (path : string) : M W (option error) :=
  let* (_, e) := downloadStoreApply r path "" Nop tt in
  ret e.

(** The two result lists of [processPrimary], in the order of its named
    results: [packagesToDownload], [packagesToRecycle]. *)
Definition Lists : Type := list XMLPackage * list XMLPackage.

(** The condition of the [if] at the head of the loop body:
    [allArchs || pack.Arch == "noarch" || r.archs[pack.Arch]]. *)
Definition archAccepted (r : Syncer) (allArchs : bool) (pack : XMLPackage)
  : bool :=
  allArchs || String.eqb (Arch pack) "noarch" || archsIndex r (Arch pack).

(** The body of the [for _, pack := range primary.Packages] loop. *)
Definition classifyPackage (r : Syncer) (allArchs : bool)
    (pack : XMLPackage) (acc : Lists) : M W Lists :=
  let '(packagesToDownload, packagesToRecycle) := acc in
  let href := Href (Location pack) in
  if archAccepted r allArchs pack then
    let* (storageChecksum, err) :=
       query (StorageChecksum href (checksumTypeOf (ChecksumKind (Checksum pack))))
             (EvChecksum href (checksumTypeOf (ChecksumKind (Checksum pack)))) in
    match err with
    | Some e =>
        if isErrFileNotFound e then
          logLine ("...package '" +:+ href +:+ "' not found, will be downloaded" +:+ nl) ;;;
          ret (packagesToDownload ++ [pack], packagesToRecycle)
        else
          logLine ("Checksum evaluation of the package '" +:+ href
                   +:+ "' returned the following error:" +:+ nl) ;;;
          logLine ("Error message: " +:+ Error e +:+ nl) ;;;
          logLine ("...package skipped" +:+ nl) ;;;
          ret (packagesToDownload, packagesToRecycle)
    | None =>
        if negb (String.eqb (ChecksumValue (Checksum pack)) storageChecksum) then
          logLine ("...package '" +:+ href
                   +:+ "' has a checksum error, will be redownloaded" +:+ nl) ;;;
          logLine ("[repo vs local] = ['" +:+ ChecksumValue (Checksum pack)
                   +:+ "' VS '" +:+ storageChecksum +:+ "']" +:+ nl) ;;;
          ret (packagesToDownload ++ [pack], packagesToRecycle)
        else
          logLine ("...package '" +:+ href
                   +:+ "' is up-to-date already, will be recycled" +:+ nl) ;;;
          ret (packagesToDownload, packagesToRecycle ++ [pack])
    end
  else ret acc.

(** The whole loop over [primary.Packages]. *)
Fixpoint classifyPackages (r : Syncer) (allArchs : bool)
    (packs : list XMLPackage) (acc : Lists) : M W Lists :=
  match packs with
  | [] => ret acc
  | pack :: rest =>
      let* acc' := classifyPackage r allArchs pack acc in
      classifyPackages r allArchs rest acc'
  end.

(** The closure [processPrimary] passes to [downloadStoreApply].  The
    deferred [gzReader.Close()] runs when the closure returns, once the
    gzip reader exists. *)
Definition primaryConsumer (r : Syncer) : ReaderConsumer Lists :=
  fun reader acc =>
    let* z := call (gzipNewReader reader) (fun z => EvGzipNewReader (errOf z)) in
    match z with
    | inl e => ret (acc, Some e)
    | inr gzReader =>
        let* d := call (xmlDecodePrimary gzReader) (fun d => EvDecodePrimary (errOf d)) in
        match d with
        | inl e =>
            call (fun x => (tt, gzipClose gzReader x)) (fun _ => EvGzipClose) ;;;
            ret (acc, Some e)
        | inr primary =>
            let allArchs := Nat.eqb (size (archs r)) 0 in
            let* acc' := classifyPackages r allArchs (Packages primary) acc in
            call (fun x => (tt, gzipClose gzReader x)) (fun _ => EvGzipClose) ;;;
            ret (acc', None)
        end
    end.

(** [processPrimary] stores the primary XML metadata file and returns the
    packages to download and the packages to recycle. *)
Definition processPrimary (r : Syncer) (path : string)
  : M W (Lists * option error) :=
  downloadStoreApply r path "" (primaryConsumer r) ([], []).

(** The [for i := 0; i < len(data); i++] loop of [processMetadata]'s
    closure. *)
Fixpoint processData (r : Syncer) (data : list XMLData) (acc : Lists)
  : M W (Lists * option error) :=
  match data with
  | [] => ret (acc, None)
  | d :: rest =>
      let metadataPath := Href (DataLocation d) in
      let* (acc', err) :=
         (if String.eqb (DataType d) "primary"
          then processPrimary r metadataPath
          else (let* e := downloadStore r metadataPath in ret (acc, e))) in
      match err with
      | Some e => ret (acc', Some e)
      | None => processData r rest acc'
      end
  end.

(** The closure [processMetadata] passes to [downloadStoreApply]. *)
Definition repomdConsumer (r : Syncer) : ReaderConsumer Lists :=
  fun reader acc =>
    let* d := call (xmlDecodeRepomd reader) (fun d => EvDecodeRepomd (errOf d)) in
    match d with
    | inl e => ret (acc, Some e)
    | inr repomd => processData r (Data repomd) acc
    end.

(** The block that follows each of the two signature downloads:
    [if err != nil { if strings.HasSuffix(err.Error(), "404") {...; err = nil}
    else { return } }].  The result is the value of [err] after the block:
    [Some e] means the function returns [e]. *)
Definition ignore404 (err : option error) : M W (option error) :=
  match err with
  | Some e =>
      if HasSuffix (Error e) "404"
      then logLine "Got 404, ignoring..." ;;; ret None
      else ret (Some e)
  | None => ret None
  end.

(** [processMetadata] stores the repo metadata and returns the packages
    to download and to recycle. *)
Definition processMetadata (r : Syncer) : M W (Lists * option error) :=
  let* (acc, err) := downloadStoreApply r repomdPath "" (repomdConsumer r) ([], []) in
  match err with
  | Some e => ret (acc, Some e)
  | None =>
      let* err := downloadStore r (repomdPath +:+ ".asc") in
      let* err := ignore404 err in
      match err with
      | Some e => ret (acc, Some e)
      | None =>
          let* err := downloadStore r (repomdPath +:+ ".key") in
          let* err := ignore404 err in
          ret (acc, err)
      end
  end.

(** The URL [downloadStoreApply] fetches a package from. *)
Definition packageURL (r : Syncer) (pack : XMLPackage) : string :=
  Url r +:+ "/" +:+ Href (Location pack).

(** The first stage of [processMetadata]: the index is fetched, stored and
    decoded and its entries are processed. *)
Definition indexStage (r : Syncer) : M W (Lists * option error) :=
  downloadStoreApply r repomdPath "" (repomdConsumer r) ([], []).

(** The URL an index entry is fetched from. *)
Definition entryURL (r : Syncer) (d : XMLData) : string :=
  Url r +:+ "/" +:+ Href (DataLocation d).

(** The test of the loop of [processMetadata]'s closure on an entry. *)
Definition isPrimary (d : XMLData) : bool := String.eqb (DataType d) "primary".

(** What the loop of [processPrimary] asks the store about a record. *)
Definition queryOf (pack : XMLPackage) : string * ChecksumType :=
  (Href (Location pack), checksumTypeOf (ChecksumKind (Checksum pack))).

(** What [StoreRepo] hands to [StoringMapper] for a package. *)
Definition mapperArgs (pack : XMLPackage) : string * string :=
  (Href (Location pack), ChecksumValue (Checksum pack)).

(** One of the two signature fetches of [processMetadata] with the block
    that follows it. *)
Definition signatureStage (r : Syncer) (path : string) : M W (option error) :=
  let* err := downloadStore r path in
  ignore404 err.

(** [processMetadata] up to the point where the index is decoded: the
    download line, the GET, the storing mapper and the XML decoder.  The
    result is the error that ends the index stage there, or the decoded
    index. *)
Definition openIndex (r : Syncer) : M W (error + XMLRepomd) :=
  logLine ("Downloading " +:+ repomdPath +:+ "...") ;;;
  let* g := call (httpGet (Url r +:+ "/" +:+ repomdPath))
                 (fun g => EvGet (Url r +:+ "/" +:+ repomdPath) (errOf g)) in
  match g with
  | inl e => ret (inl e)
  | inr body =>
      let* m := storingMapper repomdPath "" body in
      match m with
      | inl e => ret (inl e)
      | inr reader =>
          call (xmlDecodeRepomd reader) (fun d => EvDecodeRepomd (errOf d))
      end
  end.

(** The entries of the index [processMetadata] decodes from world [w]:
    none when the index could not be fetched or decoded. *)
Definition decodedIndex (r : Syncer) (w : World W) : list XMLData :=
  match fst (openIndex r w) with
  | inr repomd => Data repomd
  | inl _ => []
  end.

(** The first loop of [StoreRepo]. *)
Fixpoint downloadPackages (r : Syncer) (packs : list XMLPackage)
  : M W (option error) :=
  match packs with
  | [] => ret None
  | pack :: rest =>
      let* (_, err) := downloadStoreApply r (Href (Location pack))
                     (ChecksumValue (Checksum pack)) Nop tt in
      match err with
      | Some e => ret (Some e)
      | None => downloadPackages r rest
      end
  end.

(** The second loop of [StoreRepo]. *)
Fixpoint recyclePackages (packs : list XMLPackage) : M W (option error) :=
  match packs with
  | [] => ret None
  | pack :: rest =>
      let* err := call (Recycle (Href (Location pack)))
                  (EvRecycle (Href (Location pack))) in
      match err with
      | Some e => ret (Some e)
      | None => recyclePackages rest
      end
  end.

(** [StoreRepo] stores an HTTP repo in a Storage. *)
Definition StoreRepo (r : Syncer) : M W (option error) :=
  let* ((packagesToDownload, packagesToRecycle), err) := processMetadata r in
  match err with
  | Some e => ret (Some e)
  | None =>
      logLine ("Downloading " +:+ fmt_int (length packagesToDownload)
               +:+ " packages..." +:+ nl) ;;;
      let* err := downloadPackages r packagesToDownload in
      match err with
      | Some e => ret (Some e)
      | None =>
          logLine ("Recycling " +:+ fmt_int (length packagesToRecycle)
                   +:+ " packages..." +:+ nl) ;;;
          let* err := recyclePackages packagesToRecycle in
          match err with
          | Some e => ret (Some e)
          | None =>
              logLine ("Committing changes..." +:+ nl) ;;;
              call Commit EvCommit
          end
      end
  end.

(** ** Reading the classification off the store's replies *)

(** The reply the loop gets for a record when the outside state is [x]. *)
Definition checksumReply (x : W) (pack : XMLPackage) : string * option error :=
  StorageChecksum (Href (Location pack))
                  (checksumTypeOf (ChecksumKind (Checksum pack))) x.

(** The architecture filter as [processPrimary] applies it. *)
Definition passesArchFilter (r : Syncer) (pack : XMLPackage) : bool :=
  archAccepted r (Nat.eqb (size (archs r)) 0) pack.

Inductive Decision : Type := DecDownload | DecRecycle | DecSkip | DecExcluded.

(** The branch of the loop body a record takes. *)
Definition decision (r : Syncer) (allArchs : bool) (x : W) (pack : XMLPackage)
  : Decision :=
  if archAccepted r allArchs pack then
    match checksumReply x pack with
    | (_, Some e) => if isErrFileNotFound e then DecDownload else DecSkip
    | (storageChecksum, None) =>
        if negb (String.eqb (ChecksumValue (Checksum pack)) storageChecksum)
        then DecDownload else DecRecycle
    end
  else DecExcluded.

Definition isDownload (r : Syncer) (allArchs : bool) (x : W) (pack : XMLPackage)
  : bool :=
  match decision r allArchs x pack with DecDownload => true | _ => false end.

Definition isRecycle (r : Syncer) (allArchs : bool) (x : W) (pack : XMLPackage)
  : bool :=
  match decision r allArchs x pack with DecRecycle => true | _ => false end.

(** What one turn of the loop adds to the trace. *)
Definition packEvents (r : Syncer) (allArchs : bool) (x : W) (pack : XMLPackage)
  : list Event :=
  trace (snd (classifyPackage r allArchs pack ([], []) (mkWorld x []))).

(** [processPrimary] up to the point where the manifest is decoded: the
    download line, the GET, the storing mapper, the gzip reader and the
    XML decoder.  The result is the error that ends [processPrimary]
    there, or the gzip reader and the decoded manifest. *)
Definition openPrimary (r : Syncer) (path : string)
  : M W (error + Reader * XMLMetaData) :=
  logLine ("Downloading " +:+ path +:+ "...") ;;;
  let* g := call (httpGet (Url r +:+ "/" +:+ path))
                 (fun g => EvGet (Url r +:+ "/" +:+ path) (errOf g)) in
  match g with
  | inl e => ret (inl e)
  | inr body =>
      let* m := storingMapper path "" body in
      match m with
      | inl e => ret (inl e)
      | inr reader =>
          let* z := call (gzipNewReader reader) (fun z => EvGzipNewReader (errOf z)) in
          match z with
          | inl e => ret (inl e)
          | inr gzReader =>
              let* d := call (xmlDecodePrimary gzReader)
                             (fun d => EvDecodePrimary (errOf d)) in
              match d with
              | inl e =>
                  call (fun x => (tt, gzipClose gzReader x)) (fun _ => EvGzipClose) ;;;
                  ret (inl e)
              | inr primary => ret (inr (gzReader, primary))
              end
          end
      end
  end.

(** The manifest [processPrimary] decodes from world [w]: the packages of
    the decoded document, none when the manifest could not be fetched or
    decoded. *)
Definition decodedPackages (r : Syncer) (path : string) (w : World W)
  : list XMLPackage :=
  match fst (openPrimary r path w) with
  | inr (_, primary) => Packages primary
  | inl _ => []
  end.

(** The outside state at the time the loop queries the store. *)
Definition classificationState (r : Syncer) (path : string) (w : World W) : W :=
  ext (snd (openPrimary r path w)).

End Code.

End Syncer.

(** ** A scripted world

    Collaborators whose replies are read off a fixed table.  The streams
    are named by the URL they were fetched from.  Used to run the Syncer
    on concrete inputs. *)
Module Scripted.
Import Syncer.

Record Script := {
  getError : string -> option error;
  mapperError : string -> option error;
  nopError : string -> option error;
  repomdDoc : error + XMLRepomd;
  gzipError : option error;
  primaryDoc : error + XMLMetaData;
  checksumOf : string -> ChecksumType -> string * option error;
  recycleError : string -> option error;
  commitError : option error
}.

Definition fromError {A} (e : option error) (a : A) : error + A :=
  match e with
  | Some err => inl err
  | None => inr a
  end.

#[global] Instance scriptedStorage : Storage Script string := {
  StoringMapper path _ reader s := (fromError (mapperError s path) reader, s);
  StorageChecksum path t s := checksumOf s path t;
  Recycle path s := (recycleError s path, s);
  Commit s := (commitError s, s)
}.

#[global] Instance scriptedTransport : Transport Script string := {
  httpGet url s := (fromError (getError s url) url, s);
  utilNop reader s := (nopError s reader, s);
  xmlDecodeRepomd _ s := (repomdDoc s, s);
  gzipNewReader reader s := (fromError (gzipError s) reader, s);
  xmlDecodePrimary _ s := (primaryDoc s, s);
  gzipClose _ s := s
}.

Definition start (s : Script) : World Script := mkWorld s [].

Definition noError : string -> option error := fun _ => None.

(** A repository whose index lists one primary manifest. *)
Definition onePrimary : XMLRepomd :=
  {| Data := [ {| DataType := "primary";
                  DataLocation := {| Href := "repodata/primary.xml.gz" |} |} ] |}.

Definition package (arch href kind value : string) : XMLPackage :=
  {| Arch := arch;
     Location := {| Href := href |};
     Checksum := {| ChecksumKind := kind; ChecksumValue := value |} |}.

(** The store has no file at all. *)
Definition emptyStore : string -> ChecksumType -> string * option error :=
  fun _ _ => ("", Some ErrFileNotFound).

(** The store answers every query with the same checksum, whatever the
    algorithm asked for. *)
Definition constantStore (value : string)
  : string -> ChecksumType -> string * option error :=
  fun _ _ => (value, None).

(** The store rejects every query with an error of its own. *)
Definition failingStore (e : error)
  : string -> ChecksumType -> string * option error :=
  fun _ _ => ("", Some e).

Definition script (packs : list XMLPackage)
    (sums : string -> ChecksumType -> string * option error)
    (gets : string -> option error) : Script :=
  {| getError := gets;
     mapperError := noError;
     nopError := noError;
     repomdDoc := inr onePrimary;
     gzipError := None;
     primaryDoc := inr {| Packages := packs |};
     checksumOf := sums;
     recycleError := noError;
     commitError := None |}.

Definition mirror (filter : gmap string bool) : Syncer :=
  {| Url := "http://mirror"; archs := filter |}.

Definition a_rpm : XMLPackage := package "x86_64" "pkgs/a-1.0.rpm" "sha256" "AAA".
Definition b_rpm : XMLPackage := package "noarch" "pkgs/b-1.0.rpm" "sha1" "BBB".
Definition c_rpm : XMLPackage := package "i386" "pkgs/c-1.0.rpm" "sha256" "CCC".
Definition m_rpm : XMLPackage := package "x86_64" "pkgs/m-1.0.rpm" "md5" "MMM".

(** A GET table: every URL answers, except the ones listed. *)
Definition getsExcept (failures : list (string * error)) : string -> option error :=
  fun url =>
    match List.find (fun f => String.eqb (fst f) url) failures with
    | Some f => Some (snd f)
    | None => None
    end.

Definition primaryPath : string := "repodata/primary.xml.gz".

Definition ascURL : string := "http://mirror/repodata/repomd.xml.asc".

(** A store that holds every file with checksum "AAA": a.rpm is up to
    date, the others are not. *)
Definition mixedRun : World Script :=
  start (script [a_rpm; b_rpm; c_rpm; m_rpm] (constantStore "AAA") noError).

Definition x86Only : Syncer := mirror {[ "x86_64" := true ]}.

Definition resetRun : World Script :=
  start (script [] emptyStore
           (getsExcept [(ascURL, OtherError "read tcp 10.0.0.7:41404")])).

Definition repomdURL : string := "http://mirror/repodata/repomd.xml".

Definition indexGone : error :=
  HttpError 404 ("unexpected status code from " +:+ repomdURL +:+ ": 404").

(** The remote has no index. *)
Definition noIndexRun : World Script :=
  start (script [] emptyStore (getsExcept [(repomdURL, indexGone)])).

(** An empty store and a remote that serves a.rpm and b.rpm. *)
Definition freshRun : World Script :=
  start (script [a_rpm; b_rpm] emptyStore noError).

(** Index entries: the file lists, and the primary manifest. *)
Definition filelistsEntry : XMLData :=
  {| DataType := "filelists";
     DataLocation := {| Href := "repodata/filelists.xml.gz" |} |}.

Definition primaryEntry : XMLData :=
  {| DataType := "primary"; DataLocation := {| Href := primaryPath |} |}.

(** An empty store and a manifest that lists a.rpm twice. *)
Definition repeatedRun : World Script :=
  start (script [a_rpm; b_rpm; a_rpm] emptyStore noError).

(** The store fails on every checksum query. *)
Definition brokenStoreRun : World Script :=
  start (script [a_rpm; b_rpm] (failingStore (OtherError "input/output error"))
           noError).


End Scripted.

(** ** A content store and a remote repository

    Modelled from the spec: the implementation of the [Storage] interface,
    [DownloadApply]'s transport and the decoders are not among the source
    files.  This is the Content Store of the spec (4.1) with the remote
    repository of (6):
    - the store keeps the committed generation and the generation being
      built; the storing stream persists the bytes that flow through it
      in the generation being built and does not enforce the expected
      checksum; [Checksum] reads the committed generation, fails with
      [ErrFileNotFound] when there is no file at the path and with an
      error of its own for an unsupported algorithm; [Recycle] carries a
      file of the committed generation over to the one being built;
      [Commit] promotes the generation being built;
    - the remote serves the bytes it has at a URL and answers 404 for any
      other URL (4.2);
    - the decoders are functions of the bytes of the document (4.3). *)
Module ContentStore.
Import Syncer.

Abbreviation bytes := (list Byte.byte).

(** The checksum algorithms and the document formats. *)
Class Codec := {
  hashOf : ChecksumType -> bytes -> string;
  parseRepomd : bytes -> error + XMLRepomd;
  gunzip : bytes -> error + bytes;
  parsePrimary : bytes -> error + XMLMetaData
}.

Record State := {
  remote : gmap string bytes;
  committed : gmap string bytes;
  staged : gmap string bytes
}.

(** A byte stream: the bytes it will deliver and the path under which the
    store keeps what flows through it, if any. *)
Record Stream := { sink : option string; content : bytes }.

Definition stage (path : string) (b : bytes) (s : State) : State :=
  {| remote := remote s;
     committed := committed s;
     staged := <[path := b]> (staged s) |}.

(** Reading a stream to its end leaves its bytes under its sink. *)
Definition persist (rd : Stream) (s : State) : State :=
  match sink rd with
  | Some path => stage path (content rd) s
  | None => s
  end.

Definition notFound404 (url : string) : error :=
  HttpError 404 ("unexpected status code from " +:+ url +:+ ": 404").

Definition unsupportedAlgorithm : error :=
  OtherError "unsupported checksum algorithm".

Definition recycleMissing (path : string) : error :=
  OtherError ("cannot recycle " +:+ path).

(** Two states with the same remote and the same committed generation. *)
Definition sameBase (x y : State) : Prop :=
  remote y = remote x /\ committed y = committed x.

Section WithCodec.

Context `{Codec}.

#[global] Instance storage : Storage State Stream := {
  StoringMapper path _ rd s := (inr {| sink := Some path; content := content rd |}, s);
  StorageChecksum path t s :=
    match committed s !! path with
    | None => ("", Some ErrFileNotFound)
    | Some b =>
        match t with
        | Unknown => ("", Some unsupportedAlgorithm)
        | _ => (hashOf t b, None)
        end
    end;
  Recycle path s :=
    match committed s !! path with
    | Some b => (None, stage path b s)
    | None => (Some (recycleMissing path), s)
    end;
  Commit s :=
    (None, {| remote := remote s; committed := staged s; staged := ∅ |})
}.

#[global] Instance transport : Transport State Stream := {
  httpGet url s :=
    match remote s !! url with
    | Some b => (inr {| sink := None; content := b |}, s)
    | None => (inl (notFound404 url), s)
    end;
  utilNop rd s := (None, persist rd s);
  xmlDecodeRepomd rd s := (parseRepomd (content rd), persist rd s);
  gzipNewReader rd s :=
    (match gunzip (content rd) with
     | inl e => inl e
     | inr raw => inr {| sink := None; content := raw |}
     end,
     persist rd s);
  xmlDecodePrimary rd s := (parsePrimary (content rd), persist rd s);
  gzipClose _ s := s
}.

(** What the remote serves as the manifest at [path], decoded. *)
Definition servedManifest (r : Syncer) (rem : gmap string bytes) (path : string)
  : error + Stream * XMLMetaData :=
  match rem !! (Url r +:+ "/" +:+ path) with
  | None => inl (notFound404 (Url r +:+ "/" +:+ path))
  | Some b =>
      match gunzip b with
      | inl e => inl e
      | inr raw =>
          match parsePrimary raw with
          | inl e => inl e
          | inr primary => inr ({| sink := None; content := raw |}, primary)
          end
      end
  end.

(** The two lists the loop of [processPrimary] makes of a manifest when
    the store is in state [s]. *)
Definition classify (r : Syncer) (s : State) (packs : list XMLPackage) : Lists :=
  (List.filter (isDownload r (Nat.eqb (size (archs r)) 0) s) packs,
   List.filter (isRecycle r (Nat.eqb (size (archs r)) 0) s) packs).

(** The entries of the index the remote serves. *)
Definition indexData (r : Syncer) (s : State) : list XMLData :=
  match remote s !! (Url r +:+ "/" +:+ repomdPath) with
  | Some b =>
      match parseRepomd b with
      | inr doc => Data doc
      | inl _ => []
      end
  | None => []
  end.

(** The entry whose manifest [processMetadata] returns the lists of: the
    last one of type "primary". *)
Definition lastPrimary (data : list XMLData) : option XMLData :=
  List.find (fun d => String.eqb (DataType d) "primary") (rev data).

(** The package manifest the remote serves. *)
Definition manifestOf (r : Syncer) (s : State) : list XMLPackage :=
  match lastPrimary (indexData r s) with
  | Some d => decodedPackages r (Href (DataLocation d)) (mkWorld s [])
  | None => []
  end.

(** The manifest agrees with what the remote serves: every record that
    passes the filter names a known checksum algorithm, and the bytes the
    remote has at the record's location, if any, have the record's
    checksum. *)
Definition manifestConsistent (r : Syncer) (s : State) : Prop :=
  forall pack,
    In pack (manifestOf r s) ->
    passesArchFilter r pack = true ->
    checksumTypeOf (ChecksumKind (Checksum pack)) <> Unknown /\
    forall b, remote s !! packageURL r pack = Some b ->
              hashOf (checksumTypeOf (ChecksumKind (Checksum pack))) b
              = ChecksumValue (Checksum pack).

(** The data model's invariant (spec, 3): a location names one record. *)
Definition locationsUnique (r : Syncer) (s : State) : Prop :=
  List.NoDup (map (fun p => Href (Location p))
                  (List.filter (passesArchFilter r) (manifestOf r s))).

End WithCodec.

(** *** A small instance to run the store on *)

(** A checksum by digit sum: SHA1 renders the sum of the bytes, SHA256 the
    number of bytes and their sum. *)
Definition byteSum (b : bytes) : nat :=
  fold_right (fun x acc => Byte.to_nat x + acc) 0 b.

Definition toyHash (t : ChecksumType) (b : bytes) : string :=
  match t with
  | SHA1 => pretty (byteSum b)
  | _ => pretty (length b) +:+ ":" +:+ pretty (byteSum b)
  end.

(** Every index document decodes to [index] and every manifest document
    to [manifest]; gzip is the identity. *)
Definition toyCodec (index : XMLRepomd) (manifest : XMLMetaData) : Codec :=
  {| hashOf := toyHash;
     parseRepomd := fun _ => inr index;
     gunzip := fun b => inr b;
     parsePrimary := fun _ => inr manifest |}.

(** *** Remotes and stores to run on *)

Import Scripted.

Definition served (package : bytes) : gmap string bytes :=
  <["http://mirror/repodata/repomd.xml" := [Byte.x01]]>
  (<["http://mirror/repodata/primary.xml.gz" := [Byte.x02]]>
  (<["http://mirror/pkgs/a-1.0.rpm" := package]> ∅)).

Definition fresh (rem : gmap string bytes) : World State :=
  mkWorld {| remote := rem; committed := ∅; staged := ∅ |} [].

(** The record for a.rpm with the checksum of the bytes 01 02. *)
Definition a_good : XMLPackage := package "x86_64" "pkgs/a-1.0.rpm" "sha256" "2:3".

(** The record for a.rpm with an algorithm outside the table. *)
Definition a_md5 : XMLPackage := package "x86_64" "pkgs/a-1.0.rpm" "md5" "2:3".

(** The record for a.rpm by its SHA1 checksum; the bytes 01 02 and the
    byte 03 both have it. *)
Definition a_sha1 : XMLPackage := package "x86_64" "pkgs/a-1.0.rpm" "sha1" "3".

(** A store that holds the byte 03 as a.rpm. *)
Definition stale (rem : gmap string bytes) : World State :=
  mkWorld {| remote := rem;
             committed := <["pkgs/a-1.0.rpm" := [Byte.x03]]> ∅;
             staged := ∅ |} [].

(** Two runs in a row from [w0] against manifest [manifest]: the result
    of the first run, the classification of the second, and the URLs the
    second run fetches. *)
Definition twice (manifest : list XMLPackage) (w0 : World State)
  : option error * (Lists * option error) * list string :=
  let codec := toyCodec onePrimary {| Packages := manifest |} in
  let '(res, w1) := StoreRepo (mirror ∅) w0 in
  (res,
   fst (processMetadata (mirror ∅) w1),
   getsOf (trace (snd (StoreRepo (mirror ∅) (mkWorld (ext w1) []))))).

Definition goodCodec : Codec := toyCodec onePrimary {| Packages := [a_good] |}.

Definition goodStart : World State := fresh (served [Byte.x01; Byte.x02]).

Definition afterFirstRun : World State :=
  snd (@StoreRepo _ _ (@storage goodCodec) (@transport goodCodec) (mirror ∅) goodStart).

End ContentStore.

(** ** The storing reader of storage.go *)
Module StoringReader.

Abbreviation bytes := (list Byte.byte).

(** [io.ReadCloser].  [Read n] stands for [Read(p)] with [len(p) = n]: it
    returns the bytes put in [p[:n']] and the error. *)
Class ReadCloser (R : Type) := {
  Read : nat -> R -> (bytes * option error) * R;
  Close : R -> option error * R
}.

(** *** The file system

    The files by path, the room left on the device and the paths that
    cannot be created. *)
Record Disk := {
  files : gmap string bytes;
  free : nat;
  denied : gset string
}.

Definition fileOf (name : string) (d : Disk) : bytes :=
  default [] (files d !! name).

Definition permissionDenied (name : string) : error :=
  OtherError ("open " +:+ name +:+ ": permission denied").

Definition noSpace (name : string) : error :=
  OtherError ("write " +:+ name +:+ ": no space left on device").

Definition ErrShortWrite : error := OtherError "short write".

(** [os.Create(name)]: creates or truncates the named file.  The file is
    named by its path. *)
Definition osCreate (name : string) (d : Disk) : (error + string) * Disk :=
  if decide (name ∈ denied d)
  then (inl (permissionDenied name), d)
  else (inr name,
        {| files := <[name := []]> (files d); free := free d; denied := denied d |}).

(** [file.Write(p)]: appends what fits on the device and reports an error
    when not all of [p] was written. *)
Definition fileWrite (name : string) (p : bytes) (d : Disk)
  : nat * option error * Disk :=
  let n := Nat.min (length p) (free d) in
  (n,
   if Nat.ltb n (length p) then Some (noSpace name) else None,
   {| files := <[name := fileOf name d ++ firstn n p]> (files d);
      free := free d - n;
      denied := denied d |}).

(** *** [bufio.Writer] *)

Definition defaultBufSize : nat := 4096.

(** [wr] is the file written to, [buf] the bytes [b.buf[:b.n]] not yet
    written, [werr] the sticky error [b.err]. *)
Record Writer := { wr : string; buf : bytes; werr : option error }.

(** [bufio.NewWriter(file)] *)
Definition NewWriter (file : string) : Writer :=
  {| wr := file; buf := []; werr := None |}.

(** [b.Available()] *)
Definition Available (b : Writer) : nat := defaultBufSize - length (buf b).

Definition isNil (e : option error) : bool :=
  match e with
  | None => true
  | Some _ => false
  end.

(** [b.Flush()] *)
Definition Flush (b : Writer) (d : Disk) : option error * Writer * Disk :=
  match werr b with
  | Some e => (Some e, b, d)
  | None =>
      if Nat.eqb (length (buf b)) 0 then (None, b, d)
      else
        let '(n, err, d') := fileWrite (wr b) (buf b) d in
        let err := if Nat.ltb n (length (buf b)) && isNil err
                   then Some ErrShortWrite else err in
        match err with
        | Some e =>
            (Some e, {| wr := wr b; buf := skipn n (buf b); werr := Some e |}, d')
        | None => (None, {| wr := wr b; buf := []; werr := None |}, d')
        end
  end.

(** The condition of the loop of [b.Write(p)]. *)
Definition writeMore (b : Writer) (p : bytes) : bool :=
  Nat.ltb (Available b) (length p) && isNil (werr b).

(** The loop of [b.Write(p)]:
    [for len(p) > b.Available() && b.err == nil].  With an empty buffer a
    large write goes to the file directly; otherwise the buffer is filled
    and flushed.  [nn] counts the bytes taken from [p]. *)
Fixpoint writeLoop (fuel : nat) (b : Writer) (p : bytes) (nn : nat) (d : Disk)
  : Writer * bytes * nat * Disk :=
  match fuel with
  | 0 => (b, p, nn, d)
  | S fuel' =>
      if writeMore b p then
        if Nat.eqb (length (buf b)) 0 then
          let '(n, err, d') := fileWrite (wr b) p d in
          writeLoop fuel' {| wr := wr b; buf := buf b; werr := err |}
                    (skipn n p) (nn + n) d'
        else
          let n := Nat.min (Available b) (length p) in
          let filled := {| wr := wr b; buf := buf b ++ firstn n p; werr := werr b |} in
          let '(_, b', d') := Flush filled d in
          writeLoop fuel' b' (skipn n p) (nn + n) d'
      else (b, p, nn, d)
  end.

(** [b.Write(p)]: the loop, then the rest of [p] is copied into the
    buffer.  The loop body runs at most twice; the fuel is more than
    that. *)
Definition Write (b : Writer) (p : bytes) (d : Disk)
  : nat * option error * Writer * Disk :=
  let '(b1, p1, nn, d1) := writeLoop (2 + length p) b p 0 d in
  match werr b1 with
  | Some e => (nn, Some e, b1, d1)
  | None =>
      let n := Nat.min (Available b1) (length p1) in
      (nn + n, None,
       {| wr := wr b1; buf := buf b1 ++ firstn n p1; werr := None |}, d1)
  end.

(** What has been written to the writer and not lost: the contents of
    its file followed by its buffer. *)
Definition contentOf (b : Writer) (d : Disk) : bytes :=
  fileOf (wr b) d ++ buf b.

(** No file disappears between [d] and [d']. *)
Definition keepsFiles (d d' : Disk) : Prop :=
  forall name, is_Some (files d !! name) -> is_Some (files d' !! name).

(** Between [d] and [d'] no file but [name] changed, and the same paths
    are denied. *)
Definition sameElsewhere (name : string) (d d' : Disk) : Prop :=
  denied d' = denied d /\
  forall other, other <> name -> files d' !! other = files d !! other.

(** *** The storing reader *)

(** [Storage] allows to store data in a local directory. *)
Record Storage := { directory : string }.

(** [NewStorage] returns a new Storage given a local directory. *)
Definition NewStorage (directory : string) : Storage :=
  {| directory := directory |}.

(** [storingReader] uses a TeeReader to copy data from a reader to a
    writer.  The [teeReader] field of the Go struct holds the same reader
    and the same writer; it is the pair of the two fields. *)
Record storingReader (R : Type) := { reader : R; writer : Writer }.
Arguments reader {R} _.
Arguments writer {R} _.

Section WithReader.

(** [path.Join], of Go's standard library. *)
Variable Join : string -> string -> string.

Context {R : Type} `{!ReadCloser R}.

(** [NewStoringReader] returns a reader that will also store any read
    data to filename. *)
Definition NewStoringReader (s : Storage) (filename : string) (rd : R) (d : Disk)
  : (error + storingReader R) * Disk :=
  match osCreate (Join (directory s) filename) d with
  | (inl err, d') => (inl err, d')
  | (inr file, d') =>
      let writer := NewWriter file in
      (inr {| reader := rd; writer := writer |}, d')
  end.

(** [io.TeeReader(r, w).Read(p)]: reads from [r] and writes what was read
    to [w]; a write error is returned with the number of bytes written. *)
Definition teeRead (n : nat) (rd : R) (w : Writer) (d : Disk)
  : (bytes * option error) * R * Writer * Disk :=
  let '((p, err), rd') := Read n rd in
  if Nat.ltb 0 (length p) then
    let '(nw, werr, w', d') := Write w p d in
    match werr with
    | Some e => ((firstn nw p, Some e), rd', w', d')
    | None => ((p, err), rd', w', d')
    end
  else ((p, err), rd', w, d).

(** [Read] delegates to the TeeReader implementation. *)
Definition storingReader_Read (n : nat) (t : storingReader R) (d : Disk)
  : (bytes * option error) * storingReader R * Disk :=
  let '(res, rd', w', d') := teeRead n (reader t) (writer t) d in
  (res, {| reader := rd'; writer := w' |}, d').

(** [Close] closes the internal reader and flushes the writer. *)
Definition storingReader_Close (t : storingReader R) (d : Disk)
  : option error * storingReader R * Disk :=
  let '(err, rd') := Close (reader t) in
  match err with
  | Some e => (Some e, {| reader := rd'; writer := writer t |}, d)
  | None =>
      let '(ferr, w', d') := Flush (writer t) d in
      (ferr, {| reader := rd'; writer := w' |}, d')
  end.

(** The storing reader is an [io.ReadCloser] itself; its state is the
    struct and the disk. *)
#[global] Instance storingReader_ReadCloser : ReadCloser (storingReader R * Disk) := {
  Read n s := let '(res, t', d') := storingReader_Read n (fst s) (snd s) in
              (res, (t', d'));
  Close s := let '(err, t', d') := storingReader_Close (fst s) (snd s) in
             (err, (t', d'))
}.

(** A sequence of [Read] calls with buffers of the given lengths: the
    results in order and the state they leave. *)
Fixpoint readMany (ns : list nat) (t : storingReader R) (d : Disk)
  : list (bytes * option error) * storingReader R * Disk :=
  match ns with
  | [] => ([], t, d)
  | n :: rest =>
      let '(res, t', d') := storingReader_Read n t d in
      let '(results, t'', d'') := readMany rest t' d' in
      (res :: results, t'', d'')
  end.

(** The bytes the calls delivered to the caller. *)
Definition delivered (results : list (bytes * option error)) : bytes :=
  concat (map fst results).

(** Every call returned a nil error. *)
Definition allSuccessful (results : list (bytes * option error)) : Prop :=
  Forall (fun res => snd res = None) results.

(** The state of a storing reader that writes to [path] after it has
    accepted the bytes [acc]: its writer is without error, and [acc] is
    what the file holds followed by what the writer still buffers. *)
Definition writtenThrough (path : string) (t : storingReader R) (d : Disk)
    (acc : bytes) : Prop :=
  wr (writer t) = path /\
  werr (writer t) = None /\
  contentOf (writer t) d = acc /\
  is_Some (files d !! path).

End WithReader.

(** *** A reader to run the storing reader on *)

Definition EOF : error := OtherError "EOF".

(** A stream that holds [pending] bytes, answers [Close] with
    [closeReply] and counts how often it was closed. *)
Record Feed := { pending : bytes; closeReply : option error; closes : nat }.

#[global] Instance Feed_ReadCloser : ReadCloser Feed := {
  Read n f :=
    match pending f with
    | [] => (([], Some EOF), f)
    | _ => ((firstn n (pending f), None),
            {| pending := skipn n (pending f);
               closeReply := closeReply f;
               closes := closes f |})
    end;
  Close f :=
    (closeReply f,
     {| pending := pending f; closeReply := closeReply f; closes := S (closes f) |})
}.

Definition slashJoin (dir name : string) : string := dir +:+ "/" +:+ name.

Definition emptyDisk (room : nat) : Disk :=
  {| files := ∅; free := room; denied := ∅ |}.

Definition abc : bytes := [Byte.x61; Byte.x62; Byte.x63].

Definition feed (data : bytes) (reply : option error) : Feed :=
  {| pending := data; closeReply := reply; closes := 0 |}.

(** The storing reader for a.rpm under /srv over the given stream, on a
    disk with room for [room] bytes. *)
Definition openedOn (room : nat) (f : Feed) : storingReader Feed * Disk :=
  match NewStoringReader slashJoin (NewStorage "/srv") "a.rpm" f (emptyDisk room) with
  | (inr t, d) => (t, d)
  | (inl _, d) => ({| reader := f; writer := NewWriter "" |}, d)
  end.

Definition opened (f : Feed) : storingReader Feed * Disk := openedOn 100 f.

Definition connectionReset : error := OtherError "connection reset by peer".

(** [n] bytes of payload. *)
Definition blob (n : nat) : bytes := repeat Byte.x61 n.

(** A disk that already holds b.rpm and an older a.rpm under /srv. *)
Definition usedDisk (room : nat) : Disk :=
  {| files := {[ "/srv/b.rpm" := abc; "/srv/a.rpm" := abc ]};
     free := room;
     denied := ∅ |}.

(** The storing reader for a.rpm under /srv over the given stream, on
    the given disk. *)
Definition openedOver (d : Disk) (f : Feed) : storingReader Feed * Disk :=
  match NewStoringReader slashJoin (NewStorage "/srv") "a.rpm" f d with
  | (inr t, d') => (t, d')
  | (inl _, d') => ({| reader := f; writer := NewWriter "" |}, d')
  end.

End StoringReader.
Module SyncerFacts.
Import Syncer.
Local Open Scope sync_scope.

(** ** Basic facts *)

Section Facts.

Context {W Reader : Type} `{!Storage W Reader} `{!Transport W Reader}.

Lemma classifyPackage_spec (r : Syncer) (allArchs : bool) (pack : XMLPackage)
    (dl rc : list XMLPackage) (w : World W) :
  classifyPackage r allArchs pack (dl, rc) w =
  ((dl ++ (if isDownload r allArchs (ext w) pack then [pack] else []),
    rc ++ (if isRecycle r allArchs (ext w) pack then [pack] else [])),
   mkWorld (ext w) (trace w ++ packEvents r allArchs (ext w) pack)).
Proof.
  unfold packEvents, isDownload, isRecycle, decision, classifyPackage, checksumReply.
  destruct w as [x t]; simpl.
  destruct (archAccepted r allArchs pack); simpl.
  - unfold bind, query, logLine, emit, ret; simpl.
    destruct (StorageChecksum _ _ x) as [sum [e|]]; simpl.
    + destruct (isErrFileNotFound e); simpl;
        rewrite ?app_nil_r, <- ?app_assoc; reflexivity.
    + destruct (String.eqb _ sum); simpl;
        rewrite ?app_nil_r, <- ?app_assoc; reflexivity.
  - unfold ret; simpl. rewrite !app_nil_r. reflexivity.
Qed.

Lemma classifyPackages_spec (r : Syncer) (allArchs : bool)
    (packs : list XMLPackage) :
  forall (dl rc : list XMLPackage) (w : World W),
    classifyPackages r allArchs packs (dl, rc) w =
    ((dl ++ List.filter (isDownload r allArchs (ext w)) packs,
      rc ++ List.filter (isRecycle r allArchs (ext w)) packs),
     mkWorld (ext w)
             (trace w ++ flat_map (packEvents r allArchs (ext w)) packs)).
Proof.
  induction packs as [|pack rest IH]; intros dl rc w; cbn [classifyPackages].
  - unfold ret. simpl. rewrite !app_nil_r. destruct w; reflexivity.
  - unfold bind. rewrite classifyPackage_spec, IH. simpl.
    rewrite <- !app_assoc.
    destruct (isDownload r allArchs (ext w) pack),
             (isRecycle r allArchs (ext w) pack); reflexivity.
Qed.

(** [processPrimary] is [openPrimary], then the loop, then the deferred
    close of the gzip reader. *)
Lemma processPrimary_open (r : Syncer) (path : string) (w : World W) :
  processPrimary r path w =
  match openPrimary r path w with
  | (inl e, w1) => ((([], []), Some e), w1)
  | (inr (gzReader, primary), w1) =>
      let allArchs := Nat.eqb (size (archs r)) 0 in
      ((List.filter (isDownload r allArchs (ext w1)) (Packages primary),
        List.filter (isRecycle r allArchs (ext w1)) (Packages primary),
        None),
       mkWorld (gzipClose gzReader (ext w1))
               (trace w1
                ++ flat_map (packEvents r allArchs (ext w1)) (Packages primary)
                ++ [EvGzipClose]))
  end.
Proof.
  unfold processPrimary, openPrimary, downloadStoreApply, DownloadApply,
    Compose, primaryConsumer, storingMapper.
  unfold bind, call, logLine, emit, ret; simpl.
  destruct (httpGet _ (ext w)) as [[e|body] x1]; simpl; [reflexivity|].
  destruct (StoringMapper path "" body x1) as [[e|reader] x2]; simpl; [reflexivity|].
  destruct (gzipNewReader reader x2) as [[e|gz] x3]; simpl; [reflexivity|].
  destruct (xmlDecodePrimary gz x3) as [[e|primary] x4]; simpl; [reflexivity|].
  pose proof (classifyPackages_spec r (Nat.eqb (size (archs r)) 0)
                (Packages primary) [] []) as Hc.
  unfold bind, ret in Hc. rewrite Hc. simpl.
  rewrite <- !app_assoc. reflexivity.
Qed.

End Facts.

Section Classification.

Context {W Reader : Type} `{!Storage W Reader} `{!Transport W Reader}.

(** The two lists [processPrimary] returns are the manifest filtered by
    the branch each record takes. *)
Lemma processPrimary_lists (r : Syncer) (path : string) (w : World W) :
  fst (fst (processPrimary r path w)) =
  (List.filter (isDownload r (Nat.eqb (size (archs r)) 0)
                           (classificationState r path w))
               (decodedPackages r path w),
   List.filter (isRecycle r (Nat.eqb (size (archs r)) 0)
                          (classificationState r path w))
               (decodedPackages r path w)).
Proof.
  rewrite processPrimary_open.
  unfold decodedPackages, classificationState.
  destruct (openPrimary r path w) as [[e|[gz primary]] w1]; reflexivity.
Qed.

Lemma decision_cases (r : Syncer) (allArchs : bool) (x : W) (pack : XMLPackage) :
  isDownload r allArchs x pack && isRecycle r allArchs x pack = false.
Proof.
  unfold isDownload, isRecycle.
  destruct (decision r allArchs x pack); reflexivity.
Qed.

Lemma filter_sublist {A} (f : A -> bool) (l : list A) :
  sublist (List.filter f l) l.
Proof.
  induction l as [|a l IH]; simpl.
  - constructor.
  - destruct (f a); [apply sublist_skip | apply sublist_cons]; exact IH.
Qed.

Lemma filter_disjoint_count {A} (dec : forall x y : A, {x = y} + {x <> y})
    (f g : A -> bool) (l : list A) (a : A) :
  (forall x, f x && g x = false) ->
  count_occ dec (List.filter f l) a + count_occ dec (List.filter g l) a
  <= count_occ dec l a.
Proof.
  intros Hfg. induction l as [|b l IH]; simpl; [lia|].
  specialize (Hfg b).
  destruct (f b), (g b); simpl in *; try discriminate;
    destruct (dec b a); lia.
Qed.

Lemma processPrimary_membership (r : Syncer) (path : string) (w : World W)
    (pack : XMLPackage) :
  In pack (decodedPackages r path w) ->
  let '((toDownload, toRecycle), _, _) := processPrimary r path w in
  (In pack toDownload <->
   isDownload r (Nat.eqb (size (archs r)) 0)
              (classificationState r path w) pack = true) /\
  (In pack toRecycle <->
   isRecycle r (Nat.eqb (size (archs r)) 0)
             (classificationState r path w) pack = true).
Proof.
  intros Hin.
  pose proof (processPrimary_lists r path w) as HL.
  destruct (processPrimary r path w) as [[[dl rc] err'] w']; simpl in HL.
  injection HL as -> ->.
  split; rewrite filter_In; tauto.
Qed.

Lemma decision_accepted (r : Syncer) (x : W) (pack : XMLPackage) :
  passesArchFilter r pack = true ->
  decision r (Nat.eqb (size (archs r)) 0) x pack =
  match checksumReply x pack with
  | (_, Some e) => if isErrFileNotFound e then DecDownload else DecSkip
  | (storageChecksum, None) =>
      if negb (String.eqb (ChecksumValue (Checksum pack)) storageChecksum)
      then DecDownload else DecRecycle
  end.
Proof.
  unfold passesArchFilter, decision. intros ->. reflexivity.
Qed.

Lemma decision_excluded (r : Syncer) (x : W) (pack : XMLPackage) :
  passesArchFilter r pack = false ->
  decision r (Nat.eqb (size (archs r)) 0) x pack = DecExcluded.
Proof.
  unfold passesArchFilter, decision. intros ->. reflexivity.
Qed.

End Classification.

(** ** [strings.HasSuffix] *)

Section HasSuffixFacts.

Lemma string_app_cons (c : ascii) (p q : string) :
  String c p +:+ q = String c (p +:+ q).
Proof. reflexivity. Qed.

Lemma string_app_nil (q : string) : "" +:+ q = q.
Proof. reflexivity. Qed.

Lemma string_app_assoc (p q t : string) : (p +:+ q) +:+ t = p +:+ (q +:+ t).
Proof.
  induction p as [|c p IH]; [reflexivity|].
  rewrite !string_app_cons, IH. reflexivity.
Qed.

Lemma string_length_app (p q : string) :
  String.length (p +:+ q) = String.length p + String.length q.
Proof.
  induction p as [|c p IH]; [reflexivity|].
  rewrite string_app_cons. simpl. rewrite IH. reflexivity.
Qed.

Lemma substring_whole (s : string) : substring 0 (String.length s) s = s.
Proof. induction s as [|c s IH]; simpl; [reflexivity | rewrite IH; reflexivity]. Qed.

Lemma substring_after (p q : string) :
  substring (String.length p) (String.length q) (p +:+ q) = q.
Proof.
  induction p as [|c p IH]; [apply substring_whole|].
  rewrite string_app_cons. simpl. exact IH.
Qed.

Lemma substring_split (s : string) :
  forall n, n <= String.length s ->
    s = substring 0 n s +:+ substring n (String.length s - n) s.
Proof.
  induction s as [|c s IH]; intros n Hn; simpl in *.
  - destruct n; [reflexivity | lia].
  - destruct n as [|n]; simpl.
    + rewrite substring_whole. reflexivity.
    + rewrite string_app_cons. f_equal. apply IH. lia.
Qed.

(** [HasSuffix s suffix] holds exactly when [s] ends with the characters
    of [suffix]. *)
Lemma HasSuffix_spec (s suffix : string) :
  HasSuffix s suffix = true <-> exists p, s = p +:+ suffix.
Proof.
  unfold HasSuffix. rewrite andb_true_iff, Nat.leb_le, String.eqb_eq. split.
  - intros [Hle Heq].
    exists (substring 0 (String.length s - String.length suffix) s).
    pose proof (substring_split s (String.length s - String.length suffix)
                  ltac:(lia)) as Hs.
    replace (String.length s - (String.length s - String.length suffix))
      with (String.length suffix) in Hs by lia.
    rewrite Heq in Hs. exact Hs.
  - intros [p ->]. rewrite string_length_app. split; [lia|].
    replace (String.length p + String.length suffix - String.length suffix)
      with (String.length p) by lia.
    apply substring_after.
Qed.

End HasSuffixFacts.

(** ** Classification by [processPrimary] *)

Section ClassificationTheorems.

Context {W Reader : Type} `{!Storage W Reader} `{!Transport W Reader}.

(** C1.  For every record of the decoded primary manifest that passes the
    architecture filter, [processPrimary] classifies by the store's reply
    to the checksum query: [ErrFileNotFound] puts the record in
    [packagesToDownload]; any other error puts it in neither list; a
    stored checksum different from the record's puts it in
    [packagesToDownload]; an equal one puts it in [packagesToRecycle]. *)
Theorem C1_processPrimary_classification
    (r : Syncer) (path : string) (w : World W) (pack : XMLPackage) :
  In pack (decodedPackages r path w) ->
  passesArchFilter r pack = true ->
  let '((toDownload, toRecycle), _, _) := processPrimary r path w in
  let '(storageChecksum, err) :=
    checksumReply (classificationState r path w) pack in
  (err = Some ErrFileNotFound ->
     In pack toDownload /\ ~ In pack toRecycle) /\
  (forall e, err = Some e -> e <> ErrFileNotFound ->
     ~ In pack toDownload /\ ~ In pack toRecycle) /\
  (err = None -> storageChecksum <> ChecksumValue (Checksum pack) ->
     In pack toDownload /\ ~ In pack toRecycle) /\
  (err = None -> storageChecksum = ChecksumValue (Checksum pack) ->
     In pack toRecycle /\ ~ In pack toDownload).
Proof.
  intros Hin Hpass.
  pose proof (processPrimary_membership r path w pack Hin) as HM.
  destruct (processPrimary r path w) as [[[dl rc] err'] w'].
  destruct HM as [HD HR].
  unfold isDownload in HD. unfold isRecycle in HR.
  rewrite (decision_accepted r _ pack Hpass) in HD, HR.
  destruct (checksumReply (classificationState r path w) pack) as [sum err].
  destruct err as [e|].
  - destruct e; simpl in HD, HR;
      repeat split; intros; try discriminate; try congruence;
      rewrite ?HD, ?HR; try reflexivity; try discriminate.
  - destruct (String.eqb_spec (ChecksumValue (Checksum pack)) sum);
      simpl in HD, HR;
      repeat split; intros; try discriminate; try congruence;
      rewrite ?HD, ?HR; try reflexivity; try discriminate.
Qed.

(** C9 (amended).  The two lists of [processPrimary] partition the
    classified records of the decoded manifest: each list is the
    manifest with some records left out, in document order; no record is
    in both; a record is in the two lists together at most as often as
    it is in the manifest, so that no record is twice in a list when the
    manifest lists no record twice; and only records of the manifest
    that pass the filter are listed. *)
Theorem C9_processPrimary_partition
    (r : Syncer) (path : string) (w : World W) :
  let '((toDownload, toRecycle), _, _) := processPrimary r path w in
  let packs := decodedPackages r path w in
  sublist toDownload packs /\
  sublist toRecycle packs /\
  (forall p, ~ (In p toDownload /\ In p toRecycle)) /\
  (forall p, count_occ XMLPackage_eq_dec toDownload p
             + count_occ XMLPackage_eq_dec toRecycle p
             <= count_occ XMLPackage_eq_dec packs p) /\
  (List.NoDup packs -> List.NoDup toDownload /\ List.NoDup toRecycle) /\
  (forall p, In p toDownload \/ In p toRecycle ->
             In p packs /\ passesArchFilter r p = true).
Proof.
  pose proof (processPrimary_lists r path w) as HL.
  destruct (processPrimary r path w) as [[[dl rc] err'] w']; simpl in HL.
  injection HL as -> ->. simpl.
  split; [apply filter_sublist|].
  split; [apply filter_sublist|].
  split.
  { intros p [Hd Hr]. apply filter_In in Hd, Hr.
    destruct Hd as [_ Hd], Hr as [_ Hr].
    pose proof (decision_cases r (Nat.eqb (size (archs r)) 0)
                  (classificationState r path w) p) as Hx.
    rewrite Hd, Hr in Hx. discriminate. }
  split.
  { intros p. apply filter_disjoint_count. intros x. apply decision_cases. }
  split.
  { intros Hnd. split; apply List.NoDup_filter; exact Hnd. }
  intros p Hp.
  assert (In p (decodedPackages r path w) /\
          decision r (Nat.eqb (size (archs r)) 0)
                   (classificationState r path w) p <> DecExcluded) as [Hin Hdec].
  { destruct Hp as [Hp|Hp]; apply filter_In in Hp; destruct Hp as [Hin Hp];
      (split; [exact Hin|]); unfold isDownload, isRecycle in Hp;
      intros Heq; rewrite Heq in Hp; discriminate. }
  split; [exact Hin|].
  unfold passesArchFilter. unfold decision in Hdec.
  destruct (archAccepted r (Nat.eqb (size (archs r)) 0) p); congruence.
Qed.

(** C4.  With an empty filter every record is accepted; a record of
    architecture "noarch" is accepted whatever the filter holds; an
    accepted record is one the store is queried for.  A record whose
    architecture is not "noarch" and is not a member of a non-empty
    filter is left out entirely: the loop body leaves the world as it
    was (no checksum query, no log line) and the record is in neither
    list.  (The hypothesis covers a key mapped to false as well as a
    missing key.) *)
Theorem C4_architecture_filter (r : Syncer) :
  (archs r = ∅ -> forall pack, passesArchFilter r pack = true) /\
  (forall pack, Arch pack = "noarch" -> passesArchFilter r pack = true) /\
  (forall pack x, passesArchFilter r pack = true ->
     exists rest,
       packEvents r (Nat.eqb (size (archs r)) 0) x pack =
       EvChecksum (Href (Location pack))
                  (checksumTypeOf (ChecksumKind (Checksum pack)))
                  (checksumReply x pack) :: rest) /\
  (forall pack,
     Arch pack <> "noarch" ->
     archs r <> ∅ ->
     archs r !! Arch pack <> Some true ->
     passesArchFilter r pack = false /\
     (forall acc (w : World W),
        classifyPackage r (Nat.eqb (size (archs r)) 0) pack acc w = (acc, w)) /\
     (forall path (w : World W),
        let '((toDownload, toRecycle), _, _) := processPrimary r path w in
        ~ In pack toDownload /\ ~ In pack toRecycle)).
Proof.
  split; [|split; [|split]].
  - intros Hempty pack. unfold passesArchFilter, archAccepted.
    rewrite Hempty, map_size_empty. reflexivity.
  - intros pack Hno. unfold passesArchFilter, archAccepted.
    rewrite Hno. simpl. rewrite orb_true_r. reflexivity.
  - intros pack x Hpass. unfold packEvents, classifyPackage.
    unfold passesArchFilter in Hpass. rewrite Hpass.
    unfold bind, query, checksumReply; simpl.
    destruct (StorageChecksum _ _ x) as [sum [e|]]; simpl.
    + destruct (isErrFileNotFound e); simpl; eexists; reflexivity.
    + destruct (negb _); simpl; eexists; reflexivity.
  - intros pack Hno Hne Hmem.
    assert (passesArchFilter r pack = false) as Hpass.
    { unfold passesArchFilter, archAccepted, archsIndex.
      assert (Nat.eqb (size (archs r)) 0 = false) as ->.
      { apply Nat.eqb_neq. intros Hs. apply Hne.
        apply map_size_empty_iff. exact Hs. }
      assert (String.eqb (Arch pack) "noarch" = false) as ->.
      { apply String.eqb_neq. exact Hno. }
      simpl. destruct (archs r !! Arch pack) as [[|]|]; simpl; congruence. }
    split; [exact Hpass|]. split.
    + intros [dl rc] w. unfold classifyPackage.
      unfold passesArchFilter in Hpass. rewrite Hpass. reflexivity.
    + intros path w.
      pose proof (processPrimary_lists r path w) as HL.
      destruct (processPrimary r path w) as [[[dl rc] err'] w']; simpl in HL.
      injection HL as -> ->.
      split; intros Hf; apply filter_In in Hf; destruct Hf as [_ Hf];
        unfold isDownload, isRecycle in Hf;
        rewrite (decision_excluded r _ pack Hpass) in Hf; discriminate.
Qed.

(** A name outside the table indexes to the zero value. *)
Lemma checksumTypeOf_other (kind : string) :
  kind <> "sha" -> kind <> "sha1" -> kind <> "sha256" ->
  checksumTypeOf kind = zeroChecksumType.
Proof.
  intros H1 H2 H3. unfold checksumTypeOf, checksumTypeMap.
  rewrite !lookup_insert_ne by congruence.
  rewrite lookup_empty. reflexivity.
Qed.

(** C3 (amended).  "sha" and "sha1" index to SHA1 and "sha256" to SHA256;
    any other name indexes to the zero value of [ChecksumType], and a
    record with such a name is classified by the store's reply to the
    query for that zero value like any other record: it is recycled
    exactly when the store reports a checksum equal to the record's, and
    downloaded exactly when the store reports [ErrFileNotFound] or a
    different checksum.  So it is not recycled whenever the store answers
    the query with an error. *)
Theorem C3_unknown_checksum_type
    (r : Syncer) (path : string) (w : World W) (pack : XMLPackage) :
  checksumTypeOf "sha" = SHA1 /\
  checksumTypeOf "sha1" = SHA1 /\
  checksumTypeOf "sha256" = SHA256 /\
  (ChecksumKind (Checksum pack) <> "sha" ->
   ChecksumKind (Checksum pack) <> "sha1" ->
   ChecksumKind (Checksum pack) <> "sha256" ->
   checksumTypeOf (ChecksumKind (Checksum pack)) = zeroChecksumType /\
   (In pack (decodedPackages r path w) ->
    passesArchFilter r pack = true ->
    let '((toDownload, toRecycle), _, _) := processPrimary r path w in
    let '(storageChecksum, err) :=
      StorageChecksum (Href (Location pack)) zeroChecksumType
                      (classificationState r path w) in
    (In pack toRecycle <->
       err = None /\ storageChecksum = ChecksumValue (Checksum pack)) /\
    (In pack toDownload <->
       err = Some ErrFileNotFound \/
       (err = None /\ storageChecksum <> ChecksumValue (Checksum pack))) /\
    (err <> None -> ~ In pack toRecycle))).
Proof.
  split; [reflexivity|]. split; [reflexivity|]. split; [reflexivity|].
  intros H1 H2 H3.
  pose proof (checksumTypeOf_other _ H1 H2 H3) as Hz.
  split; [exact Hz|].
  intros Hin Hpass.
  pose proof (processPrimary_membership r path w pack Hin) as HM.
  destruct (processPrimary r path w) as [[[dl rc] err'] w'].
  destruct HM as [HD HR].
  unfold isDownload in HD. unfold isRecycle in HR.
  rewrite (decision_accepted r _ pack Hpass) in HD, HR.
  unfold checksumReply in HD, HR. rewrite Hz in HD, HR.
  destruct (StorageChecksum (Href (Location pack)) zeroChecksumType
              (classificationState r path w)) as [sum err].
  rewrite HD, HR. clear HD HR.
  destruct err as [e|].
  - destruct e; simpl; intuition (try discriminate; try congruence).
  - destruct (String.eqb_spec (ChecksumValue (Checksum pack)) sum);
      simpl; intuition (try discriminate; try congruence).
Qed.

End ClassificationTheorems.

(** ** Traces of the stages of [StoreRepo] *)

Section TraceFacts.

Lemma getsOf_app (A B : list Event) : getsOf (A ++ B) = getsOf A ++ getsOf B.
Proof. unfold getsOf. apply flat_map_app. Qed.

Lemma recyclesOf_app (A B : list Event) :
  recyclesOf (A ++ B) = recyclesOf A ++ recyclesOf B.
Proof. unfold recyclesOf. apply flat_map_app. Qed.

Lemma commitsOf_app (A B : list Event) :
  commitsOf (A ++ B) = commitsOf A + commitsOf B.
Proof. unfold commitsOf. rewrite List.filter_app, length_app. reflexivity. Qed.

Lemma noFail_app (A B : list Event) :
  noFail (A ++ B) = noFail A && noFail B.
Proof. unfold noFail. apply forallb_app. Qed.

Lemma stopsAtFailure_app (res : option error) (A B : list Event) :
  noFail A = true -> stopsAtFailure res B -> stopsAtFailure res (A ++ B).
Proof.
  intros HA HB. destruct res as [e|]; simpl in *.
  - destruct HB as (T0 & ev & -> & H0 & Hev).
    exists (A ++ T0), ev. rewrite app_assoc. split; [reflexivity|].
    split; [|exact Hev]. rewrite noFail_app, HA, H0. reflexivity.
  - rewrite noFail_app, HA, HB. reflexivity.
Qed.

Lemma noFail_In (T : list Event) (ev : Event) :
  noFail T = true -> In ev T -> failed ev = false.
Proof.
  unfold noFail. rewrite forallb_forall. intros H Hin.
  specialize (H ev Hin). destruct (failed ev); [discriminate | reflexivity].
Qed.

(** After a failed call nothing more happens. *)
Lemma endsInFailure_last (T T1 T2 : list Event) (ev : Event) :
  endsInFailure T -> T = T1 ++ ev :: T2 -> failed ev = true -> T2 = [].
Proof.
  intros (T0 & ev0 & -> & H0 & Hev0) Heq Hev.
  destruct T2 as [|x T2] using rev_ind; [reflexivity|]. exfalso.
  clear IHT2.
  change (T0 ++ [ev0] = T1 ++ (ev :: T2) ++ [x]) in Heq.
  rewrite app_assoc in Heq. apply app_inj_tail in Heq. destruct Heq as [-> _].
  assert (failed ev = false) as Hf.
  { apply (noFail_In _ _ H0). apply in_or_app. right. left. reflexivity. }
  congruence.
Qed.

Lemma endsInFailure_noFail (T : list Event) :
  endsInFailure T -> noFail T = false.
Proof.
  intros (T0 & ev & -> & H0 & Hev). rewrite noFail_app, H0. simpl.
  rewrite Hev. reflexivity.
Qed.

Lemma stopsAtFailure_noFail (res : option error) (T : list Event) :
  stopsAtFailure res T -> (noFail T = true <-> res = None).
Proof.
  destruct res as [e|]; simpl; intros H.
  - apply endsInFailure_noFail in H. rewrite H. split; discriminate.
  - rewrite H. split; reflexivity.
Qed.

End TraceFacts.

Section StageFacts.

Context {W Reader : Type} `{!Storage W Reader} `{!Transport W Reader}.

(** One download with [util.Nop]: the line, the GET and what follows it. *)
Lemma download_trace (r : Syncer) (path checksum : string) (w : World W) :
  exists T,
    trace (snd (downloadStoreApply r path checksum Nop tt w)) = trace w ++ T /\
    getsOf T = [Url r +:+ "/" +:+ path] /\
    recyclesOf T = [] /\
    commitsOf T = 0 /\
    stopsAtFailure (snd (fst (downloadStoreApply r path checksum Nop tt w))) T.
Proof.
  unfold downloadStoreApply, DownloadApply, Compose, storingMapper, Nop.
  unfold bind, call, logLine, emit, ret; simpl.
  destruct (httpGet _ (ext w)) as [[e|body] x1]; simpl.
  { eexists. rewrite <- app_assoc. split; [reflexivity|]. simpl.
    repeat split. exists [EvLog ("Downloading " +:+ path +:+ "...")], (EvGet (Url r +:+ "/" +:+ path) (Some e)).
    repeat split. }
  destruct (StoringMapper path checksum body x1) as [[e|reader] x2]; simpl.
  { eexists. rewrite <- !app_assoc. split; [reflexivity|]. simpl.
    repeat split.
    exists [EvLog ("Downloading " +:+ path +:+ "...");
            EvGet (Url r +:+ "/" +:+ path) None],
           (EvStoringMapper path checksum (Some e)).
    repeat split. }
  destruct (utilNop reader x2) as [[e|] x3]; simpl.
  { eexists. rewrite <- !app_assoc. split; [reflexivity|]. simpl.
    repeat split.
    exists [EvLog ("Downloading " +:+ path +:+ "...");
            EvGet (Url r +:+ "/" +:+ path) None;
            EvStoringMapper path checksum None],
           (EvNop (Some e)).
    repeat split. }
  eexists. rewrite <- !app_assoc. split; [reflexivity|]. simpl.
  repeat split.
Qed.

(** The first loop of [StoreRepo]: packages are fetched in list order, up
    to and including the first that fails. *)
Lemma downloadPackages_trace (r : Syncer) (packs : list XMLPackage) :
  forall w : World W,
  exists T n,
    trace (snd (downloadPackages r packs w)) = trace w ++ T /\
    getsOf T = map (packageURL r) (firstn n packs) /\
    recyclesOf T = [] /\
    commitsOf T = 0 /\
    stopsAtFailure (fst (downloadPackages r packs w)) T /\
    (fst (downloadPackages r packs w) = None ->
     getsOf T = map (packageURL r) packs).
Proof.
  induction packs as [|pack rest IH]; intros w; cbn [downloadPackages].
  - exists [], 0. unfold ret; simpl. rewrite app_nil_r. repeat split.
  - unfold bind.
    destruct (download_trace r (Href (Location pack))
                (ChecksumValue (Checksum pack)) w)
      as (T1 & Ht & Hg & Hr & Hc & Hs).
    destruct (downloadStoreApply r (Href (Location pack))
                (ChecksumValue (Checksum pack)) Nop tt w)
      as [[[] err] w1]; simpl in *.
    destruct err as [e|]; simpl in *.
    + exists T1, 1. unfold ret; simpl.
      repeat split; try assumption; try discriminate.
    + destruct (IH w1) as (T2 & n & Ht2 & Hg2 & Hr2 & Hc2 & Hs2 & Hall).
      exists (T1 ++ T2), (S n).
      rewrite Ht2, Ht, <- app_assoc.
      rewrite getsOf_app, recyclesOf_app, commitsOf_app, Hg, Hg2, Hr, Hr2, Hc, Hc2.
      repeat split.
      * apply stopsAtFailure_app; assumption.
      * intros Hnone. rewrite <- (Hall Hnone), Hg2. reflexivity.
Qed.

(** The second loop of [StoreRepo]. *)
Lemma recyclePackages_trace (packs : list XMLPackage) :
  forall w : World W,
  exists T n,
    trace (snd (recyclePackages packs w)) = trace w ++ T /\
    getsOf T = [] /\
    recyclesOf T = map (fun p => Href (Location p)) (firstn n packs) /\
    commitsOf T = 0 /\
    stopsAtFailure (fst (recyclePackages packs w)) T /\
    (fst (recyclePackages packs w) = None ->
     recyclesOf T = map (fun p => Href (Location p)) packs).
Proof.
  induction packs as [|pack rest IH]; intros w; cbn [recyclePackages].
  - exists [], 0. unfold ret; simpl. rewrite app_nil_r. repeat split.
  - unfold bind, call.
    destruct (Recycle (Href (Location pack)) (ext w)) as [[e|] x1]; simpl.
    + exists [EvRecycle (Href (Location pack)) (Some e)], 1.
      repeat split; try discriminate.
      exists [], (EvRecycle (Href (Location pack)) (Some e)). repeat split.
    + destruct (IH (mkWorld x1 (trace w ++ [EvRecycle (Href (Location pack)) None])))
        as (T2 & n & Ht2 & Hg2 & Hr2 & Hc2 & Hs2 & Hall).
      exists (EvRecycle (Href (Location pack)) None :: T2), (S n).
      split; [rewrite Ht2; simpl; rewrite <- app_assoc; reflexivity|].
      split; [exact Hg2|].
      split; [change (recyclesOf (EvRecycle (Href (Location pack)) None :: T2))
                with (Href (Location pack) :: recyclesOf T2);
              rewrite Hr2; reflexivity|].
      split; [exact Hc2|].
      split.
      * apply (stopsAtFailure_app _ [EvRecycle (Href (Location pack)) None] T2);
          [reflexivity | assumption].
      * intros Hnone.
        change (recyclesOf (EvRecycle (Href (Location pack)) None :: T2))
          with (Href (Location pack) :: recyclesOf T2).
        rewrite (Hall Hnone). reflexivity.
Qed.

End StageFacts.

(** ** What [processMetadata] can do *)

Section AppendsOnly.

Context {W : Type}.

Lemma appendsOnly_ret (P : Event -> Prop) {A} (a : A) : appendsOnly (W := W) P (ret a).
Proof. intros w. exists []. simpl. rewrite app_nil_r. split; constructor. Qed.

Lemma appendsOnly_bind (P : Event -> Prop) {A B} (m : M W A) (k : A -> M W B) :
  appendsOnly (W := W) P m -> (forall a, appendsOnly (W := W) P (k a)) -> appendsOnly (W := W) P (bind m k).
Proof.
  intros Hm Hk w. unfold bind.
  destruct (Hm w) as (T1 & Ht1 & HP1).
  destruct (m w) as [a w1]; simpl in *.
  destruct (Hk a w1) as (T2 & Ht2 & HP2).
  exists (T1 ++ T2). rewrite Ht2, Ht1, app_assoc. split; [reflexivity|].
  apply Forall_app; split; assumption.
Qed.

Lemma appendsOnly_call (P : Event -> Prop) {A} (op : W -> A * W) (ev : A -> Event) :
  (forall a, P (ev a)) -> appendsOnly (W := W) P (call op ev).
Proof.
  intros HP w. unfold call. destruct (op (ext w)) as [a x]; simpl.
  exists [ev a]. split; [reflexivity|]. constructor; [apply HP | constructor].
Qed.

Lemma appendsOnly_query (P : Event -> Prop) {A} (op : W -> A) (ev : A -> Event) :
  (forall a, P (ev a)) -> appendsOnly (W := W) P (query op ev).
Proof.
  intros HP w. unfold query; simpl.
  exists [ev (op (ext w))]. split; [reflexivity|].
  constructor; [apply HP | constructor].
Qed.

Lemma appendsOnly_logLine (P : Event -> Prop) (line : string) :
  P (EvLog line) -> appendsOnly (W := W) P (logLine line).
Proof.
  intros HP w. unfold logLine, emit; simpl.
  exists [EvLog line]. split; [reflexivity|]. constructor; [exact HP | constructor].
Qed.

End AppendsOnly.

Lemma metaEvents_quiet (T : list Event) :
  Forall metaEvent T -> recyclesOf T = [] /\ commitsOf T = 0.
Proof.
  induction 1 as [|ev T Hev _ [IHr IHc]]; [split; reflexivity|].
  destruct ev; simpl in Hev; try contradiction; split; assumption.
Qed.

Ltac meta_step :=
  first
    [ apply appendsOnly_ret
    | apply appendsOnly_logLine; exact I
    | apply appendsOnly_call; intros; exact I
    | apply appendsOnly_query; intros; exact I
    | apply appendsOnly_bind; [|intros] ].

Ltac meta_auto :=
  repeat first
    [ meta_step
    | match goal with
      | |- appendsOnly _ (match ?x with _ => _ end) => destruct x
      | |- appendsOnly _ (let '(_, _) := ?x in _) => destruct x
      | |- appendsOnly _ (if ?b then _ else _) => destruct b
      end ].

Section MetaFacts.

Context {W Reader : Type} `{!Storage W Reader} `{!Transport W Reader}.

Lemma downloadStore_meta (r : Syncer) (path : string) :
  appendsOnly metaEvent (downloadStore r path).
Proof.
  unfold downloadStore, downloadStoreApply, DownloadApply, Compose,
    storingMapper, Nop.
  meta_auto.
Qed.

Lemma classifyPackages_meta (r : Syncer) (allArchs : bool)
    (packs : list XMLPackage) :
  forall acc, appendsOnly metaEvent (classifyPackages r allArchs packs acc).
Proof.
  induction packs as [|pack rest IH]; intros acc; cbn [classifyPackages].
  - apply appendsOnly_ret.
  - apply appendsOnly_bind; [|intros; apply IH].
    unfold classifyPackage. meta_auto.
Qed.

Lemma processPrimary_meta (r : Syncer) (path : string) :
  appendsOnly metaEvent (processPrimary r path).
Proof.
  unfold processPrimary, downloadStoreApply, DownloadApply, Compose,
    storingMapper, primaryConsumer.
  repeat first [ apply classifyPackages_meta | meta_step
               | match goal with
                 | |- appendsOnly _ (match ?x with _ => _ end) => destruct x
                 end ].
Qed.

Lemma processData_meta (r : Syncer) (data : list XMLData) :
  forall acc, appendsOnly metaEvent (processData r data acc).
Proof.
  induction data as [|d rest IH]; intros acc; cbn [processData].
  - apply appendsOnly_ret.
  - apply appendsOnly_bind.
    + destruct (String.eqb (DataType d) "primary").
      * apply processPrimary_meta.
      * apply appendsOnly_bind; [apply downloadStore_meta|].
        intros; apply appendsOnly_ret.
    + intros [acc' [e|]]; [apply appendsOnly_ret | apply IH].
Qed.

Lemma ignore404_meta (err : option error) :
  appendsOnly (W := W) metaEvent (ignore404 err).
Proof. unfold ignore404. meta_auto. Qed.

(** [processMetadata] recycles nothing and commits nothing. *)
Lemma processMetadata_meta (r : Syncer) :
  appendsOnly metaEvent (processMetadata r).
Proof.
  unfold processMetadata, downloadStoreApply, DownloadApply, Compose,
    storingMapper, repomdConsumer.
  repeat first [ apply processData_meta | apply downloadStore_meta
               | apply ignore404_meta | meta_step
               | match goal with
                 | |- appendsOnly _ (match ?x with _ => _ end) => destruct x
                 | |- appendsOnly _ (let '(_, _) := ?x in _) => destruct x
                 end ].
Qed.

(** [StoreRepo], step by step. *)
Lemma StoreRepo_run (r : Syncer) (w : World W) :
  StoreRepo r w =
  let '((toDownload, toRecycle), err0, w1) := processMetadata r w in
  match err0 with
  | Some e => (Some e, w1)
  | None =>
      let w2 := mkWorld (ext w1)
                  (trace w1 ++ [EvLog ("Downloading " +:+ fmt_int (length toDownload)
                                       +:+ " packages..." +:+ nl)]) in
      let '(errD, w3) := downloadPackages r toDownload w2 in
      match errD with
      | Some e => (Some e, w3)
      | None =>
          let w4 := mkWorld (ext w3)
                      (trace w3 ++ [EvLog ("Recycling " +:+ fmt_int (length toRecycle)
                                           +:+ " packages..." +:+ nl)]) in
          let '(errR, w5) := recyclePackages toRecycle w4 in
          match errR with
          | Some e => (Some e, w5)
          | None =>
              let '(errC, x) := Commit (ext w5) in
              (errC, mkWorld x (trace w5 ++ [EvLog ("Committing changes..." +:+ nl);
                                             EvCommit errC]))
          end
      end
  end.
Proof.
  unfold StoreRepo, bind.
  destruct (processMetadata r w) as [[[dl rc] [e|]] w1]; [reflexivity|].
  unfold logLine, emit, call, ret; simpl.
  destruct (downloadPackages r dl _) as [[e|] w3]; [reflexivity|].
  destruct (recyclePackages rc _) as [[e|] w5]; [reflexivity|]. simpl.
  destruct (Commit (ext w5)) as [errC x]. rewrite <- app_assoc. reflexivity.
Qed.

End MetaFacts.

Section StagesTheorem.

Context {W Reader : Type} `{!Storage W Reader} `{!Transport W Reader}.

(** C6.  [StoreRepo] runs its stages strictly in order and stops at the
    first failure.  The trace of a run is the trace of the classification
    ([processMetadata], which recycles and commits nothing) followed by
    the download stage [Td], the recycle stage [Tr] and the commit stage
    [Tc].  [Td] fetches an initial segment of [packagesToDownload] in list
    order, [Tr] recycles an initial segment of [packagesToRecycle] in list
    order.  When classification fails nothing follows.  A failed call is
    the last thing the run does and its error is the result: after a
    failed download there is no recycle stage and no commit stage, after
    a failed recycle no commit stage.  [Commit] is called at most once,
    and it is called exactly when classification and every download and
    every recycle succeeded; then every package to download has been
    fetched and every package to recycle has been recycled. *)
Theorem C6_StoreRepo_stages (r : Syncer) (w : World W) :
  let '((toDownload, toRecycle), err0, w1) := processMetadata r w in
  let '(res, w') := StoreRepo r w in
  exists T0 Td Tr Tc,
    trace w1 = trace w ++ T0 /\
    trace w' = trace w ++ T0 ++ Td ++ Tr ++ Tc /\
    (recyclesOf T0 = [] /\ commitsOf T0 = 0) /\
    ((exists n, getsOf Td = map (packageURL r) (firstn n toDownload)) /\
     recyclesOf Td = [] /\ commitsOf Td = 0) /\
    (getsOf Tr = [] /\
     (exists m, recyclesOf Tr
                = map (fun p => Href (Location p)) (firstn m toRecycle)) /\
     commitsOf Tr = 0) /\
    (getsOf Tc = [] /\ recyclesOf Tc = [] /\ commitsOf Tc <= 1) /\
    (err0 <> None -> res = err0 /\ Td ++ Tr ++ Tc = []) /\
    (err0 = None -> stopsAtFailure res (Td ++ Tr ++ Tc)) /\
    (noFail Td = false -> Tr = [] /\ Tc = []) /\
    (noFail Tr = false -> Tc = []) /\
    (Tr <> [] ->
     noFail Td = true /\ getsOf Td = map (packageURL r) toDownload) /\
    (commitsOf Tc = 1 <-> err0 = None /\ noFail (Td ++ Tr) = true) /\
    (commitsOf Tc = 1 ->
     getsOf Td = map (packageURL r) toDownload /\
     recyclesOf Tr = map (fun p => Href (Location p)) toRecycle).
Proof.
  rewrite StoreRepo_run. cbv zeta.
  destruct (processMetadata_meta r w) as (T0 & Ht0 & HP0).
  destruct (metaEvents_quiet _ HP0) as [Hr0 Hc0].
  destruct (processMetadata r w) as [[[dl rc] err0] w1]; simpl in Ht0.
  destruct err0 as [e0|].
  { exists T0, [], [], []. simpl. rewrite app_nil_r.
    repeat split; try assumption; try reflexivity; try discriminate;
      try (exists 0; reflexivity); try lia.
    all: try (intros [Hf _]; discriminate).
    all: try (intros Hf; exfalso; apply Hf; reflexivity).
    all: try (unfold commitsOf; simpl; lia).
    all: congruence. }
  set (lineD := EvLog ("Downloading " +:+ fmt_int (length dl) +:+ " packages..." +:+ nl)).
  set (w2 := mkWorld (ext w1) (trace w1 ++ [lineD])).
  destruct (downloadPackages_trace r dl w2)
    as (Td & n & Htd & Hgd & Hrd & Hcd & Hsd & Halld).
  destruct (downloadPackages r dl w2) as [errD w3]; simpl in Htd, Hsd, Halld.
  assert (stopsAtFailure errD (lineD :: Td)) as HsD.
  { apply (stopsAtFailure_app errD [lineD] Td); [reflexivity | exact Hsd]. }
  destruct errD as [eD|].
  { exists T0, (lineD :: Td), [], []. simpl. rewrite app_nil_r.
    pose proof (endsInFailure_noFail _ HsD) as HnfD.
    split; [exact Ht0|].
    split; [rewrite Htd; unfold w2; simpl; rewrite Ht0, <- !app_assoc; reflexivity|].
    split; [split; assumption|].
    split; [split; [exists n; exact Hgd | split; assumption]|].
    split; [repeat split; exists 0; reflexivity|].
    split; [repeat split; unfold commitsOf; simpl; lia|].
    split; [intros Hf; congruence|].
    split; [intros _; exact HsD|].
    split; [intros _; split; reflexivity|].
    split; [discriminate|].
    split; [intros Hf; exfalso; apply Hf; reflexivity|].
    split; [|discriminate].
    split; [discriminate|]. intros [_ Hf]. simpl in HnfD. congruence. }
  set (lineR := EvLog ("Recycling " +:+ fmt_int (length rc) +:+ " packages..." +:+ nl)).
  set (w4 := mkWorld (ext w3) (trace w3 ++ [lineR])).
  destruct (recyclePackages_trace rc w4)
    as (Tr & m & Htr & Hgr & Hrr & Hcr & Hsr & Hallr).
  destruct (recyclePackages rc w4) as [errR w5]; simpl in Htr, Hsr, Hallr.
  assert (stopsAtFailure errR (lineR :: Tr)) as HsR.
  { apply (stopsAtFailure_app errR [lineR] Tr); [reflexivity | exact Hsr]. }
  assert (noFail (lineD :: Td) = true) as HokD by exact HsD.
  specialize (Halld eq_refl).
  destruct errR as [eR|].
  { exists T0, (lineD :: Td), (lineR :: Tr), []. rewrite app_nil_r.
    pose proof (endsInFailure_noFail _ HsR) as HnfR.
    split; [exact Ht0|].
    split; [rewrite Htr; unfold w4; simpl; rewrite Htd; unfold w2; simpl;
            rewrite Ht0, <- !app_assoc; reflexivity|].
    split; [split; assumption|].
    split; [split; [exists n; exact Hgd | split; assumption]|].
    split; [split; [exact Hgr | split; [exists m; exact Hrr | exact Hcr]]|].
    split; [repeat split; unfold commitsOf; simpl; lia|].
    split; [intros Hf; congruence|].
    split; [intros _; apply stopsAtFailure_app; assumption|].
    split; [intros Hf; congruence|].
    split; [intros _; reflexivity|].
    split; [intros _; split; [exact HokD | exact Halld]|].
    split; [|discriminate].
    split; [discriminate|]. intros [_ Hf].
    rewrite noFail_app, HokD, HnfR in Hf. discriminate. }
  assert (noFail (lineR :: Tr) = true) as HokR by exact HsR.
  specialize (Hallr eq_refl).
  destruct (Commit (ext w5)) as [errC x].
  set (lineC := EvLog ("Committing changes..." +:+ nl)).
  exists T0, (lineD :: Td), (lineR :: Tr), [lineC; EvCommit errC].
  split; [exact Ht0|].
  split; [simpl; rewrite Htr; unfold w4; simpl; rewrite Htd; unfold w2; simpl;
          rewrite Ht0, <- !app_assoc; reflexivity|].
  split; [split; assumption|].
  split; [split; [exists n; exact Hgd | split; assumption]|].
  split; [split; [exact Hgr | split; [exists m; exact Hrr | exact Hcr]]|].
  split; [repeat split; unfold commitsOf; simpl; lia|].
  split; [intros Hf; congruence|].
  split.
  { intros _. apply stopsAtFailure_app; [exact HokD|].
    apply stopsAtFailure_app; [exact HokR|].
    destruct errC as [eC|]; simpl; [|reflexivity].
    exists [lineC], (EvCommit (Some eC)). repeat split. }
  split; [intros Hf; congruence|].
  split; [intros Hf; congruence|].
  split; [intros _; split; [exact HokD | exact Halld]|].
  split.
  { split; [intros _|reflexivity]. split; [reflexivity|].
    rewrite noFail_app, HokD, HokR. reflexivity. }
  intros _. split; [exact Halld | exact Hallr].
Qed.

End StagesTheorem.

Section SignatureTheorems.

Context {W Reader : Type} `{!Storage W Reader} `{!Transport W Reader}.

(** [processMetadata] is the index stage followed by the two signature
    stages. *)
Lemma processMetadata_stages (r : Syncer) (w : World W) :
  processMetadata r w =
  (let* (acc, err) := indexStage r in
   match err with
   | Some e => ret (acc, Some e)
   | None =>
       let* err := signatureStage r (repomdPath +:+ ".asc") in
       match err with
       | Some e => ret (acc, Some e)
       | None =>
           let* err := signatureStage r (repomdPath +:+ ".key") in
           ret (acc, err)
       end
   end) w.
Proof.
  unfold processMetadata, indexStage, signatureStage, bind.
  destruct (downloadStoreApply r repomdPath "" (repomdConsumer r) ([], []) w)
    as [[acc [e|]] w1]; [reflexivity|].
  destruct (downloadStore r (repomdPath +:+ ".asc") w1) as [errA wA].
  destruct (ignore404 errA wA) as [[e|] wA']; [reflexivity|].
  destruct (downloadStore r (repomdPath +:+ ".key") wA') as [errK wK].
  reflexivity.
Qed.

(** A failed classification is the result of [StoreRepo]. *)
Lemma StoreRepo_fatal (r : Syncer) (w w1 : World W) (acc : Lists) (e : error) :
  processMetadata r w = ((acc, Some e), w1) -> StoreRepo r w = (Some e, w1).
Proof.
  intros Hm. rewrite StoreRepo_run, Hm. destruct acc. reflexivity.
Qed.

Lemma downloadStore_gets (r : Syncer) (path : string) (w : World W) :
  exists T,
    trace (snd (downloadStore r path w)) = trace w ++ T /\
    getsOf T = [Url r +:+ "/" +:+ path].
Proof.
  destruct (download_trace r path "" w) as (T & Ht & Hg & _).
  exists T. split; [|exact Hg].
  unfold downloadStore, bind.
  destruct (downloadStoreApply r path "" Nop tt w) as [[[] e] w1]. exact Ht.
Qed.

(** C5 (amended).  After the index stage [processMetadata] fetches
    repodata/repomd.xml.asc and then repodata/repomd.xml.key.  An error
    of either fetch whose message ends in "404" is swallowed (a line is
    logged and the run goes on); an error whose message does not end in
    "404" is returned at once and is the result of [StoreRepo].  Any
    error of the index stage is returned at once and is the result of
    [StoreRepo], whatever its message; in particular a failed GET of
    repodata/repomd.xml ends the run right after the GET. *)
Theorem C5_signature_files (r : Syncer) (w : World W) :
  (forall e x,
     httpGet (Url r +:+ "/" +:+ repomdPath) (ext w) = (inl e, x) ->
     StoreRepo r w =
     (Some e,
      mkWorld x (trace w ++ [EvLog ("Downloading " +:+ repomdPath +:+ "...");
                             EvGet (Url r +:+ "/" +:+ repomdPath) (Some e)]))) /\
  let ascURL := Url r +:+ "/" +:+ repomdPath +:+ ".asc" in
  let keyURL := Url r +:+ "/" +:+ repomdPath +:+ ".key" in
  let '((acc, err0), w1) := indexStage r w in
  let fatal e wF :=
    processMetadata r w = ((acc, Some e), wF) /\ StoreRepo r w = (Some e, wF) in
  let swallowed wS :=
    mkWorld (ext wS) (trace wS ++ [EvLog "Got 404, ignoring..."]) in
  let keyStage w2 :=
    let '(errK, wK) := downloadStore r (repomdPath +:+ ".key") w2 in
    (exists TK, trace wK = trace w2 ++ TK /\ getsOf TK = [keyURL]) /\
    match errK with
    | Some e =>
        if HasSuffix (Error e) "404"
        then processMetadata r w = ((acc, None), swallowed wK)
        else fatal e wK
    | None => processMetadata r w = ((acc, None), wK)
    end in
  match err0 with
  | Some e => fatal e w1
  | None =>
      let '(errA, wA) := downloadStore r (repomdPath +:+ ".asc") w1 in
      (exists TA, trace wA = trace w1 ++ TA /\ getsOf TA = [ascURL]) /\
      match errA with
      | Some e =>
          if HasSuffix (Error e) "404" then keyStage (swallowed wA) else fatal e wA
      | None => keyStage wA
      end
  end.
Proof.
  split.
  { intros e x Hget. apply (StoreRepo_fatal r w _ ([], [])).
    unfold processMetadata, downloadStoreApply, DownloadApply.
    unfold bind, call, logLine, emit, ret; simpl.
    rewrite Hget. simpl. rewrite <- app_assoc. reflexivity. }
  cbv zeta.
  pose proof (processMetadata_stages r w) as HM. unfold bind at 1 in HM.
  destruct (indexStage r w) as [[acc [e0|]] w1].
  { unfold ret in HM. split; [exact HM|]. apply (StoreRepo_fatal _ _ _ _ _ HM). }
  unfold bind at 1 in HM. unfold signatureStage at 1 in HM. unfold bind at 1 in HM.
  pose proof (downloadStore_gets r (repomdPath +:+ ".asc") w1) as HgA.
  destruct (downloadStore r (repomdPath +:+ ".asc") w1) as [errA wA].
  split; [exact HgA|].
  assert (forall w2,
            processMetadata r w =
            (let* err := signatureStage r (repomdPath +:+ ".key") in ret (acc, err)) w2 ->
            let '(errK, wK) := downloadStore r (repomdPath +:+ ".key") w2 in
            (exists TK, trace wK = trace w2 ++ TK /\
                        getsOf TK = [Url r +:+ "/" +:+ repomdPath +:+ ".key"]) /\
            match errK with
            | Some e =>
                if HasSuffix (Error e) "404"
                then processMetadata r w =
                     ((acc, None),
                      mkWorld (ext wK) (trace wK ++ [EvLog "Got 404, ignoring..."]))
                else processMetadata r w = ((acc, Some e), wK) /\
                     StoreRepo r w = (Some e, wK)
            | None => processMetadata r w = ((acc, None), wK)
            end) as Hkey.
  { intros w2 HM2. unfold signatureStage, bind in HM2.
    pose proof (downloadStore_gets r (repomdPath +:+ ".key") w2) as HgK.
    destruct (downloadStore r (repomdPath +:+ ".key") w2) as [errK wK].
    split; [exact HgK|].
    destruct errK as [e|]; simpl in HM2.
    - destruct (HasSuffix (Error e) "404"); simpl in HM2.
      + exact HM2.
      + split; [exact HM2|]. apply (StoreRepo_fatal _ _ _ _ _ HM2).
    - exact HM2. }
  destruct errA as [e|]; simpl in HM.
  - destruct (HasSuffix (Error e) "404"); simpl in HM.
    + apply Hkey. exact HM.
    + unfold ret in HM. split; [exact HM|]. apply (StoreRepo_fatal _ _ _ _ _ HM).
  - apply Hkey. exact HM.
Qed.

(** C10.  Whether an error of a signature fetch is tolerated depends on
    the text of its message alone: the stage swallows the error exactly
    when the message ends with the characters "404", and returns it
    exactly when it does not.  Two errors with the same message are
    treated alike whatever their cause: a failure that is not a 404
    response but whose text ends in "404" is swallowed, and the status
    error of a 404 response whose text does not end in "404" is returned.
    [processMetadata] uses the stage for repodata/repomd.xml.asc and for
    repodata/repomd.xml.key. *)
Theorem C10_tolerance_by_message
    (r : Syncer) (path : string) (w w1 : World W) (e : error) :
  downloadStore r path w = (Some e, w1) ->
  (fst (signatureStage r path w) = None <-> exists p, Error e = p +:+ "404") /\
  (signatureStage r path w = (Some e, w1) <-> ~ exists p, Error e = p +:+ "404") /\
  (forall (e' : error) (w0 : World W),
     Error e' = Error e ->
     (fst (ignore404 (Some e') w0) = None <-> fst (ignore404 (Some e) w0) = None)) /\
  (forall (msg : string) (code : nat) (w0 : World W),
     (exists p, msg = p +:+ "404") ->
     fst (ignore404 (Some (OtherError msg)) w0) = None /\
     fst (ignore404 (Some (HttpError code msg)) w0) = None) /\
  (forall (msg : string) (w0 : World W),
     ~ (exists p, msg = p +:+ "404") ->
     ignore404 (Some (HttpError 404 msg)) w0 = (Some (HttpError 404 msg), w0)) /\
  (forall w0 : World W,
     processMetadata r w0 =
     (let* (acc, err) := indexStage r in
      match err with
      | Some e => ret (acc, Some e)
      | None =>
          let* err := signatureStage r (repomdPath +:+ ".asc") in
          match err with
          | Some e => ret (acc, Some e)
          | None =>
              let* err := signatureStage r (repomdPath +:+ ".key") in
              ret (acc, err)
          end
      end) w0).
Proof.
  intros Hd.
  assert (forall (e0 : error) (w0 : World W),
            fst (ignore404 (Some e0) w0) = None <-> HasSuffix (Error e0) "404" = true)
    as Hsw.
  { intros e0 w0. unfold ignore404.
    destruct (HasSuffix (Error e0) "404"); simpl; split; congruence. }
  split; [|split; [|split; [|split; [|split]]]].
  - unfold signatureStage, bind. rewrite Hd, Hsw. apply HasSuffix_spec.
  - unfold signatureStage, bind. rewrite Hd. rewrite <- HasSuffix_spec.
    unfold ignore404. destruct (HasSuffix (Error e) "404"); simpl.
    + split; [intros Hf; inversion Hf | intros Hf; exfalso; apply Hf; reflexivity].
    + split; [intros _; discriminate | reflexivity].
  - intros e' w0 Hmsg. rewrite !Hsw, Hmsg. reflexivity.
  - intros msg code w0 Hends. rewrite !Hsw. simpl.
    split; apply HasSuffix_spec; exact Hends.
  - intros msg w0 Hends. unfold ignore404. simpl.
    destruct (HasSuffix msg "404") eqn:Hs; [|reflexivity].
    exfalso. apply Hends. apply HasSuffix_spec. exact Hs.
  - apply processMetadata_stages.
Qed.

End SignatureTheorems.
End SyncerFacts.

(** ** The content store: two runs in a row *)

Module ContentStoreFacts.
Import Syncer ContentStore.
Local Open Scope sync_scope.

(** Computations that keep a relation on the outside state. *)
Section StepsWithin.

Context {W : Type} (R : W -> W -> Prop)
        (R_refl : forall x, R x x)
        (R_trans : forall x y z, R x y -> R y z -> R x z).

Lemma stepsWithin_ret {A} (a : A) : stepsWithin R (ret a).
Proof. intros w. apply R_refl. Qed.

Lemma stepsWithin_bind {A B} (m : M W A) (k : A -> M W B) :
  stepsWithin R m -> (forall a, stepsWithin R (k a)) -> stepsWithin R (bind m k).
Proof.
  intros Hm Hk w. unfold bind. specialize (Hm w).
  destruct (m w) as [a w1]; simpl in *.
  apply (R_trans _ _ _ Hm). apply Hk.
Qed.

Lemma stepsWithin_call {A} (op : W -> A * W) (ev : A -> Event) :
  (forall x, R x (snd (op x))) -> stepsWithin R (call op ev).
Proof.
  intros Hop w. unfold call. specialize (Hop (ext w)).
  destruct (op (ext w)) as [a x]. exact Hop.
Qed.

Lemma stepsWithin_query {A} (op : W -> A) (ev : A -> Event) :
  stepsWithin R (query op ev).
Proof. intros w. apply R_refl. Qed.

Lemma stepsWithin_logLine (line : string) : stepsWithin R (logLine line).
Proof. intros w. apply R_refl. Qed.

End StepsWithin.

Section Facts.

Context `{Codec}.

Lemma sameBase_refl (x : State) : sameBase x x.
Proof. split; reflexivity. Qed.

Lemma sameBase_trans (x y z : State) : sameBase x y -> sameBase y z -> sameBase x z.
Proof. intros [H1 H2] [H3 H4]. split; congruence. Qed.

Lemma sameBase_stage (path : string) (b : bytes) (s : State) :
  sameBase s (stage path b s).
Proof. split; reflexivity. Qed.

Lemma sameBase_persist (rd : Stream) (s : State) : sameBase s (persist rd s).
Proof. unfold persist. destruct (sink rd); [apply sameBase_stage | apply sameBase_refl]. Qed.

Ltac base_step :=
  first
    [ apply stepsWithin_ret; exact sameBase_refl
    | apply stepsWithin_logLine; exact sameBase_refl
    | apply stepsWithin_query; exact sameBase_refl
    | apply stepsWithin_bind; [exact sameBase_trans | | intros] ].

Ltac base_call :=
  apply stepsWithin_call; intros; simpl;
  repeat match goal with
         | |- context [match ?x with _ => _ end] => destruct x
         end;
  simpl; first [apply sameBase_refl | apply sameBase_persist | apply sameBase_stage].

Ltac base_auto :=
  repeat first
    [ base_step
    | base_call
    | match goal with
      | |- stepsWithin _ (match ?x with _ => _ end) => destruct x
      | |- stepsWithin _ (let '(_, _) := ?x in _) => destruct x
      | |- stepsWithin _ (if ?b then _ else _) => destruct b
      end ].

Lemma downloadStoreApply_Nop_base (r : Syncer) (path checksum : string) :
  stepsWithin sameBase (downloadStoreApply r path checksum Nop tt).
Proof.
  unfold downloadStoreApply, DownloadApply, Compose, storingMapper, Nop.
  base_auto.
Qed.

Lemma downloadStore_base (r : Syncer) (path : string) :
  stepsWithin sameBase (downloadStore r path).
Proof.
  unfold downloadStore.
  apply stepsWithin_bind; [exact sameBase_trans | apply downloadStoreApply_Nop_base|].
  intros [[] e]. apply stepsWithin_ret. exact sameBase_refl.
Qed.

Lemma classifyPackages_base (r : Syncer) (allArchs : bool)
    (packs : list XMLPackage) (acc : Lists) :
  stepsWithin sameBase (classifyPackages r allArchs packs acc).
Proof.
  intros w. destruct acc as [dl rc].
  rewrite SyncerFacts.classifyPackages_spec. simpl. apply sameBase_refl.
Qed.

Lemma openPrimary_base (r : Syncer) (path : string) :
  stepsWithin sameBase (openPrimary r path).
Proof. unfold openPrimary, storingMapper. base_auto. Qed.

Lemma processPrimary_base (r : Syncer) (path : string) :
  stepsWithin sameBase (processPrimary r path).
Proof.
  intros w. rewrite SyncerFacts.processPrimary_open.
  pose proof (openPrimary_base r path w) as Ho.
  destruct (openPrimary r path w) as [[e|[gz primary]] w1]; simpl in *; exact Ho.
Qed.

Lemma processData_base (r : Syncer) (data : list XMLData) :
  forall acc, stepsWithin sameBase (processData r data acc).
Proof.
  induction data as [|d rest IH]; intros acc; cbn [processData].
  - apply stepsWithin_ret. exact sameBase_refl.
  - apply stepsWithin_bind; [exact sameBase_trans | |].
    + destruct (String.eqb (DataType d) "primary").
      * apply processPrimary_base.
      * apply stepsWithin_bind; [exact sameBase_trans | apply downloadStore_base|].
        intros; apply stepsWithin_ret; exact sameBase_refl.
    + intros [acc' [e|]]; [apply stepsWithin_ret; exact sameBase_refl | apply IH].
Qed.

Lemma ignore404_base (err : option error) :
  stepsWithin sameBase (ignore404 err).
Proof. unfold ignore404. base_auto. Qed.

Lemma indexStage_base (r : Syncer) : stepsWithin sameBase (indexStage r).
Proof.
  unfold indexStage, downloadStoreApply, DownloadApply, Compose,
    storingMapper, repomdConsumer.
  repeat first [ apply processData_base | base_step | base_call
               | match goal with
                 | |- stepsWithin _ (match ?x with _ => _ end) => destruct x
                 end ].
Qed.

Lemma signatureStage_base (r : Syncer) (path : string) :
  stepsWithin sameBase (signatureStage r path).
Proof.
  unfold signatureStage.
  apply stepsWithin_bind; [exact sameBase_trans | apply downloadStore_base|].
  intros; apply ignore404_base.
Qed.

Lemma processMetadata_base (r : Syncer) : stepsWithin sameBase (processMetadata r).
Proof.
  intros w. rewrite SyncerFacts.processMetadata_stages. revert w.
  apply stepsWithin_bind; [exact sameBase_trans | apply indexStage_base|].
  intros [acc [e|]]; [apply stepsWithin_ret; exact sameBase_refl|].
  apply stepsWithin_bind; [exact sameBase_trans | apply signatureStage_base|].
  intros [e|]; [apply stepsWithin_ret; exact sameBase_refl|].
  apply stepsWithin_bind; [exact sameBase_trans | apply signatureStage_base|].
  intros; apply stepsWithin_ret; exact sameBase_refl.
Qed.

(** *** What a run reads off the remote and the committed generation *)

Lemma openPrimary_served (r : Syncer) (path : string) (w : World State) :
  fst (openPrimary r path w) = servedManifest r (remote (ext w)) path.
Proof.
  unfold openPrimary, servedManifest, storingMapper.
  unfold bind, call, logLine, emit, ret; simpl.
  destruct (remote (ext w) !! (Url r +:+ "/" +:+ path)) as [b|]; simpl; [|reflexivity].
  destruct (gunzip b) as [e|raw]; simpl; [reflexivity|].
  destruct (parsePrimary raw) as [e|primary]; reflexivity.
Qed.

Lemma decodedPackages_served (r : Syncer) (path : string) (w : World State) :
  decodedPackages r path w =
  match servedManifest r (remote (ext w)) path with
  | inr (_, primary) => Packages primary
  | inl _ => []
  end.
Proof. unfold decodedPackages. rewrite openPrimary_served. reflexivity. Qed.

Lemma decodedPackages_remote (r : Syncer) (path : string) (w w' : World State) :
  remote (ext w') = remote (ext w) ->
  decodedPackages r path w' = decodedPackages r path w.
Proof. intros Hr. rewrite !decodedPackages_served, Hr. reflexivity. Qed.

Lemma decision_base (r : Syncer) (allArchs : bool) (x y : State) (pack : XMLPackage) :
  committed y = committed x ->
  decision r allArchs y pack = decision r allArchs x pack.
Proof.
  intros Hc. unfold decision, checksumReply; simpl. rewrite Hc. reflexivity.
Qed.

Lemma classify_base (r : Syncer) (x y : State) (packs : list XMLPackage) :
  committed y = committed x -> classify r y packs = classify r x packs.
Proof.
  intros Hc. unfold classify. f_equal; apply List.filter_ext; intros p;
    unfold isDownload, isRecycle; rewrite (decision_base _ _ x y p Hc); reflexivity.
Qed.

Lemma processPrimary_CS (r : Syncer) (path : string) (w : World State) :
  fst (processPrimary r path w) =
  (classify r (ext w) (decodedPackages r path w),
   errOf (servedManifest r (remote (ext w)) path)).
Proof.
  rewrite SyncerFacts.processPrimary_open.
  pose proof (openPrimary_base r path w) as [_ Hc].
  unfold decodedPackages. rewrite <- openPrimary_served.
  destruct (openPrimary r path w) as [[e|[gz primary]] w1]; simpl in *; [reflexivity|].
  rewrite <- (classify_base r (ext w) (ext w1) _ Hc). reflexivity.
Qed.

Lemma downloadStore_CS (r : Syncer) (path : string) (w : World State) :
  fst (downloadStore r path w) =
  match remote (ext w) !! (Url r +:+ "/" +:+ path) with
  | Some _ => None
  | None => Some (notFound404 (Url r +:+ "/" +:+ path))
  end.
Proof.
  unfold downloadStore, downloadStoreApply, DownloadApply, Compose, storingMapper, Nop.
  unfold bind, call, logLine, emit, ret; simpl.
  destruct (remote (ext w) !! (Url r +:+ "/" +:+ path)); reflexivity.
Qed.

Lemma find_append {A} (f : A -> bool) (l1 l2 : list A) :
  List.find f (l1 ++ l2) =
  match List.find f l1 with
  | Some x => Some x
  | None => List.find f l2
  end.
Proof.
  induction l1 as [|a l1 IH]; simpl; [reflexivity|].
  destruct (f a); [reflexivity | exact IH].
Qed.

Lemma lastPrimary_cons (d : XMLData) (rest : list XMLData) :
  lastPrimary (d :: rest) =
  match lastPrimary rest with
  | Some x => Some x
  | None => if String.eqb (DataType d) "primary" then Some d else None
  end.
Proof.
  unfold lastPrimary. simpl. rewrite find_append.
  destruct (List.find _ (rev rest)); [reflexivity|]. simpl.
  destruct (String.eqb (DataType d) "primary"); reflexivity.
Qed.

(** The lists of a successful pass over the index entries are those of
    the last primary manifest. *)
Lemma processData_ok (r : Syncer) (data : list XMLData) :
  forall (acc acc' : Lists) (w w' : World State),
    processData r data acc w = ((acc', None), w') ->
    acc' = match lastPrimary data with
           | Some d => classify r (ext w)
                         (decodedPackages r (Href (DataLocation d)) w)
           | None => acc
           end.
Proof.
  induction data as [|d rest IH]; intros acc acc' w w' Hrun.
  - cbn in Hrun. unfold ret in Hrun. injection Hrun as <- _. reflexivity.
  - rewrite lastPrimary_cons. cbn [processData] in Hrun. unfold bind in Hrun.
    destruct (String.eqb (DataType d) "primary") eqn:Hp.
    + pose proof (processPrimary_CS r (Href (DataLocation d)) w) as HP.
      pose proof (processPrimary_base r (Href (DataLocation d)) w) as [Hr Hc].
      destruct (processPrimary r (Href (DataLocation d)) w) as [[acc1 [e|]] w1];
        simpl in *; [discriminate|].
      apply IH in Hrun. rewrite Hrun.
      destruct (lastPrimary rest) as [d'|].
      * rewrite (classify_base _ _ _ _ Hc).
        rewrite (decodedPackages_remote _ _ _ _ Hr). reflexivity.
      * injection HP as -> _. reflexivity.
    + unfold bind, ret in Hrun.
      pose proof (downloadStore_base r (Href (DataLocation d)) w) as [Hr Hc].
      destruct (downloadStore r (Href (DataLocation d)) w) as [[e|] w1];
        simpl in *; [discriminate|].
      apply IH in Hrun. rewrite Hrun.
      destruct (lastPrimary rest) as [d'|]; [|reflexivity].
      rewrite (classify_base _ _ _ _ Hc).
      rewrite (decodedPackages_remote _ _ _ _ Hr). reflexivity.
Qed.

(** Whether the pass over the index entries fails depends on the remote
    alone. *)
Lemma processData_err (r : Syncer) (data : list XMLData) :
  forall (acc acc2 : Lists) (w w2 : World State),
    remote (ext w2) = remote (ext w) ->
    snd (fst (processData r data acc2 w2)) = snd (fst (processData r data acc w)).
Proof.
  induction data as [|d rest IH]; intros acc acc2 w w2 Hrem; [reflexivity|].
  cbn [processData]. unfold bind.
  destruct (String.eqb (DataType d) "primary") eqn:Hp.
  - pose proof (processPrimary_CS r (Href (DataLocation d)) w) as HP.
    pose proof (processPrimary_CS r (Href (DataLocation d)) w2) as HP2.
    pose proof (processPrimary_base r (Href (DataLocation d)) w) as [Hr Hc].
    pose proof (processPrimary_base r (Href (DataLocation d)) w2) as [Hr2 Hc2].
    rewrite Hrem in HP2.
    destruct (processPrimary r (Href (DataLocation d)) w) as [[acc1 e1] w1].
    destruct (processPrimary r (Href (DataLocation d)) w2) as [[acc1' e2] w1'].
    simpl in *. injection HP as _ ->. injection HP2 as _ ->.
    destruct (errOf _) as [e|]; [reflexivity|].
    apply IH. congruence.
  - unfold bind, ret.
    pose proof (downloadStore_CS r (Href (DataLocation d)) w) as HP.
    pose proof (downloadStore_CS r (Href (DataLocation d)) w2) as HP2.
    pose proof (downloadStore_base r (Href (DataLocation d)) w) as [Hr Hc].
    pose proof (downloadStore_base r (Href (DataLocation d)) w2) as [Hr2 Hc2].
    rewrite Hrem in HP2.
    destruct (downloadStore r (Href (DataLocation d)) w) as [e1 w1].
    destruct (downloadStore r (Href (DataLocation d)) w2) as [e2 w1'].
    simpl in *. subst e1 e2.
    destruct (remote (ext w) !! _); [|reflexivity].
    apply IH. congruence.
Qed.

Lemma classify_nil (r : Syncer) (s : State) : classify r s [] = ([], []).
Proof. reflexivity. Qed.

(** The index stage, run. *)
Lemma indexStage_run (r : Syncer) (w : World State) :
  indexStage r w =
  match remote (ext w) !! (Url r +:+ "/" +:+ repomdPath) with
  | None =>
      ((([], []), Some (notFound404 (Url r +:+ "/" +:+ repomdPath))),
       mkWorld (ext w)
         (trace w ++ [EvLog ("Downloading " +:+ repomdPath +:+ "...");
                      EvGet (Url r +:+ "/" +:+ repomdPath)
                            (Some (notFound404 (Url r +:+ "/" +:+ repomdPath)))]))
  | Some b =>
      let w1 :=
        mkWorld (stage repomdPath b (ext w))
          (trace w ++ [EvLog ("Downloading " +:+ repomdPath +:+ "...");
                       EvGet (Url r +:+ "/" +:+ repomdPath) None;
                       EvStoringMapper repomdPath "" None;
                       EvDecodeRepomd (errOf (parseRepomd b))]) in
      match parseRepomd b with
      | inl e => ((([], []), Some e), w1)
      | inr doc => processData r (Data doc) ([], []) w1
      end
  end.
Proof.
  unfold indexStage, downloadStoreApply, DownloadApply, Compose, storingMapper,
    repomdConsumer.
  unfold bind, call, logLine, emit, ret; simpl.
  destruct (remote (ext w) !! (Url r +:+ "/" +:+ repomdPath)) as [b|]; simpl.
  - rewrite <- !app_assoc. simpl. destruct (parseRepomd b); reflexivity.
  - rewrite <- !app_assoc. reflexivity.
Qed.

Lemma indexStage_ok (r : Syncer) (w w1 : World State) (acc : Lists) :
  indexStage r w = ((acc, None), w1) ->
  acc = classify r (ext w) (manifestOf r (ext w)).
Proof.
  rewrite indexStage_run. unfold manifestOf, indexData.
  destruct (remote (ext w) !! (Url r +:+ "/" +:+ repomdPath)) as [b|];
    [|discriminate].
  cbv zeta. destruct (parseRepomd b) as [e|doc]; [discriminate|].
  intros Hrun. apply processData_ok in Hrun. rewrite Hrun. simpl.
  destruct (lastPrimary (Data doc)) as [d|]; [|reflexivity].
  f_equal. apply decodedPackages_remote. reflexivity.
Qed.

Lemma indexStage_err (r : Syncer) (w w2 : World State) :
  remote (ext w2) = remote (ext w) ->
  snd (fst (indexStage r w2)) = snd (fst (indexStage r w)).
Proof.
  intros Hrem. rewrite !indexStage_run, Hrem.
  destruct (remote (ext w) !! (Url r +:+ "/" +:+ repomdPath)) as [b|];
    [|reflexivity].
  cbv zeta. destruct (parseRepomd b) as [e|doc]; [reflexivity|].
  apply processData_err. simpl. exact Hrem.
Qed.

(** A missing signature file is a 404 whose message ends in "404": the
    signature stages never fail against this remote. *)
Lemma signatureStage_CS (r : Syncer) (path : string) (w : World State) :
  fst (signatureStage r path w) = None.
Proof.
  unfold signatureStage, bind.
  pose proof (downloadStore_CS r path w) as Hd.
  destruct (downloadStore r path w) as [err w1]; simpl in Hd. subst err.
  destruct (remote (ext w) !! (Url r +:+ "/" +:+ path)); [reflexivity|].
  unfold ignore404.
  assert (HasSuffix (Error (notFound404 (Url r +:+ "/" +:+ path))) "404" = true)
    as ->.
  { apply SyncerFacts.HasSuffix_spec. simpl.
    exists ("unexpected status code from " +:+ (Url r +:+ "/" +:+ path) +:+ ": ").
    rewrite !SyncerFacts.string_app_assoc. reflexivity. }
  reflexivity.
Qed.

Lemma processMetadata_CS (r : Syncer) (w : World State) :
  fst (processMetadata r w) = fst (indexStage r w).
Proof.
  rewrite SyncerFacts.processMetadata_stages. unfold bind at 1.
  destruct (indexStage r w) as [[acc [e|]] w1]; [reflexivity|].
  unfold bind at 1.
  pose proof (signatureStage_CS r (repomdPath +:+ ".asc") w1) as HA.
  destruct (signatureStage r (repomdPath +:+ ".asc") w1) as [errA wA].
  simpl in HA. subst errA. unfold bind.
  pose proof (signatureStage_CS r (repomdPath +:+ ".key") wA) as HK.
  destruct (signatureStage r (repomdPath +:+ ".key") wA) as [errK wK].
  simpl in HK. subst errK. reflexivity.
Qed.

(** *** What the package stages leave in the generation being built *)

Lemma download_CS (r : Syncer) (path checksum : string) (w w' : World State) :
  downloadStoreApply r path checksum Nop tt w = ((tt, None), w') ->
  exists b, remote (ext w) !! (Url r +:+ "/" +:+ path) = Some b /\
            ext w' = stage path b (ext w).
Proof.
  unfold downloadStoreApply, DownloadApply, Compose, storingMapper, Nop.
  unfold bind, call, logLine, emit, ret; simpl.
  destruct (remote (ext w) !! (Url r +:+ "/" +:+ path)) as [b|]; simpl;
    [|discriminate].
  intros Hrun. injection Hrun as <-. exists b. split; reflexivity.
Qed.

Lemma downloadPackages_CS (r : Syncer) (packs : list XMLPackage) :
  forall w w' : World State,
    downloadPackages r packs w = (None, w') ->
    sameBase (ext w) (ext w') /\
    (forall path, ~ In path (map (fun p => Href (Location p)) packs) ->
                  staged (ext w') !! path = staged (ext w) !! path) /\
    (List.NoDup (map (fun p => Href (Location p)) packs) ->
     forall p, In p packs ->
       exists b, remote (ext w) !! packageURL r p = Some b /\
                 staged (ext w') !! Href (Location p) = Some b).
Proof.
  induction packs as [|pack rest IH]; intros w w' Hrun.
  - cbn in Hrun. unfold ret in Hrun. injection Hrun as <-.
    split; [apply sameBase_refl|]. split; [reflexivity|]. intros _ p [].
  - cbn [downloadPackages] in Hrun. unfold bind in Hrun.
    destruct (downloadStoreApply r (Href (Location pack))
                (ChecksumValue (Checksum pack)) Nop tt w)
      as [[[] [e|]] w1] eqn:Hone; [discriminate|].
    apply download_CS in Hone. destruct Hone as (b & Hb & Hw1).
    apply IH in Hrun. destruct Hrun as (Hbase & Hout & Hin).
    assert (sameBase (ext w) (ext w1)) as Hb1.
    { rewrite Hw1. apply sameBase_stage. }
    split; [exact (sameBase_trans _ _ _ Hb1 Hbase)|]. split.
    + intros path Hnot. simpl in Hnot.
      rewrite Hout by tauto. rewrite Hw1. simpl.
      apply lookup_insert_ne. tauto.
    + intros Hnd p Hp. simpl in Hnd. inversion Hnd as [|x l Hnotin Hnd']; subst.
      destruct Hp as [<-|Hp].
      * exists b. split; [exact Hb|].
        rewrite Hout by exact Hnotin. rewrite Hw1. simpl.
        apply lookup_insert_eq.
      * destruct (Hin Hnd' p Hp) as (b' & Hb' & Hs').
        exists b'. split; [|exact Hs'].
        destruct Hb1 as [Hrem _]. unfold packageURL in *. rewrite <- Hrem. exact Hb'.
Qed.

Lemma recyclePackages_CS (packs : list XMLPackage) :
  forall w w' : World State,
    recyclePackages packs w = (None, w') ->
    sameBase (ext w) (ext w') /\
    (forall path, ~ In path (map (fun p => Href (Location p)) packs) ->
                  staged (ext w') !! path = staged (ext w) !! path) /\
    (forall p, In p packs ->
       exists b, committed (ext w) !! Href (Location p) = Some b /\
                 staged (ext w') !! Href (Location p) = Some b).
Proof.
  induction packs as [|pack rest IH]; intros w w' Hrun.
  - cbn in Hrun. unfold ret in Hrun. injection Hrun as <-.
    split; [apply sameBase_refl|]. split; [reflexivity|]. intros p [].
  - cbn [recyclePackages] in Hrun. unfold bind, call in Hrun. simpl in Hrun.
    destruct (committed (ext w) !! Href (Location pack)) as [b|] eqn:Hb;
      simpl in Hrun; [|discriminate].
    apply IH in Hrun. simpl in Hrun. destruct Hrun as ([Hrem Hcom] & Hout & Hin).
    simpl in Hrem, Hcom.
    split; [split; assumption|]. split.
    + intros path Hnot. simpl in Hnot.
      rewrite Hout by tauto. simpl. apply lookup_insert_ne. tauto.
    + intros p [<-|Hp].
      * exists b. split; [exact Hb|].
        destruct (in_dec string_dec (Href (Location pack))
                    (map (fun p => Href (Location p)) rest)) as [Hyes|Hno].
        -- apply in_map_iff in Hyes. destruct Hyes as (q & Hq & Hqin).
           destruct (Hin q Hqin) as (b' & Hb' & Hs').
           rewrite Hq in Hb', Hs'. simpl in Hb'. rewrite Hb in Hb'.
           injection Hb' as <-. exact Hs'.
        -- rewrite Hout by exact Hno. simpl. apply lookup_insert_eq.
      * destruct (Hin p Hp) as (b' & Hb' & Hs'). exists b'. split; assumption.
Qed.

Lemma recyclePackages_CS_ok (packs : list XMLPackage) :
  forall w : World State,
    (forall p, In p packs -> is_Some (committed (ext w) !! Href (Location p))) ->
    fst (recyclePackages packs w) = None.
Proof.
  induction packs as [|pack rest IH]; intros w Hall; [reflexivity|].
  cbn [recyclePackages]. unfold bind, call. simpl.
  destruct (Hall pack (or_introl eq_refl)) as [b Hb]. rewrite Hb. simpl.
  apply IH. simpl. intros p Hp. apply Hall. right. exact Hp.
Qed.

(** *** The branch a record takes against this store *)

Lemma decision_CS (r : Syncer) (s : State) (pack : XMLPackage) :
  decision r (Nat.eqb (size (archs r)) 0) s pack =
  if passesArchFilter r pack then
    match committed s !! Href (Location pack) with
    | None => DecDownload
    | Some b =>
        match checksumTypeOf (ChecksumKind (Checksum pack)) with
        | Unknown => DecSkip
        | t =>
            if negb (String.eqb (ChecksumValue (Checksum pack)) (hashOf t b))
            then DecDownload else DecRecycle
        end
    end
  else DecExcluded.
Proof.
  unfold decision, passesArchFilter, checksumReply; simpl.
  destruct (archAccepted r _ pack); [|reflexivity].
  destruct (committed s !! Href (Location pack)) as [b|]; [|reflexivity].
  destruct (checksumTypeOf (ChecksumKind (Checksum pack))); reflexivity.
Qed.

Lemma manifestOf_remote (r : Syncer) (s s' : State) :
  remote s' = remote s -> manifestOf r s' = manifestOf r s.
Proof.
  intros Hrem. unfold manifestOf, indexData. rewrite Hrem.
  destruct (lastPrimary _) as [d|]; [|reflexivity].
  apply decodedPackages_remote. simpl. exact Hrem.
Qed.

Lemma NoDup_map_injective {A B} (g : A -> B) (l : list A) (x y : A) :
  List.NoDup (map g l) -> In x l -> In y l -> g x = g y -> x = y.
Proof.
  induction l as [|a l IH]; intros Hnd Hx Hy Hg; [destruct Hx|].
  simpl in Hnd. inversion Hnd as [|b m Hnotin Hnd']; subst.
  destruct Hx as [<-|Hx], Hy as [<-|Hy]; try reflexivity.
  - exfalso. apply Hnotin. rewrite Hg. apply in_map. exact Hy.
  - exfalso. apply Hnotin. rewrite <- Hg. apply in_map. exact Hx.
  - apply IH; assumption.
Qed.

Lemma NoDup_map_filter {A B} (g : A -> B) (f : A -> bool) (l : list A) :
  List.NoDup (map g l) -> List.NoDup (map g (List.filter f l)).
Proof.
  induction l as [|a l IH]; intros Hnd; simpl; [constructor|].
  simpl in Hnd. inversion Hnd as [|b m Hnotin Hnd']; subst.
  destruct (f a); simpl; [|apply IH; exact Hnd'].
  constructor; [|apply IH; exact Hnd'].
  intros Hin. apply Hnotin. apply in_map_iff in Hin.
  destruct Hin as (x & Hx & Hxin). apply filter_In in Hxin.
  rewrite <- Hx. apply in_map. tauto.
Qed.

Lemma filter_filter_implies {A} (f g : A -> bool) (l : list A) :
  (forall a, f a = true -> g a = true) ->
  List.filter f l = List.filter f (List.filter g l).
Proof.
  intros Himp. induction l as [|a l IH]; simpl; [reflexivity|].
  destruct (f a) eqn:Hf.
  - rewrite (Himp a Hf). simpl. rewrite Hf, IH. reflexivity.
  - destruct (g a); simpl; [rewrite Hf|]; exact IH.
Qed.

Lemma filter_none {A} (f : A -> bool) (l : list A) :
  (forall a, In a l -> f a = false) -> List.filter f l = [].
Proof.
  induction l as [|a l IH]; intros Hall; simpl; [reflexivity|].
  rewrite (Hall a (or_introl eq_refl)). apply IH.
  intros b Hb. apply Hall. right. exact Hb.
Qed.

End Facts.

End ContentStoreFacts.

Module Idempotence.
Import Syncer ContentStore ContentStoreFacts.
Local Open Scope sync_scope.

Section TwoRuns.

Context `{Codec}.

(** A successful run leaves every record that passes the filter in the
    committed generation, with the bytes of the manifest's checksum. *)
Lemma StoreRepo_commits_manifest (r : Syncer) (w0 w1 : World State) :
  StoreRepo r w0 = (None, w1) ->
  locationsUnique r (ext w0) ->
  manifestConsistent r (ext w0) ->
  remote (ext w1) = remote (ext w0) /\
  forall p,
    In p (manifestOf r (ext w0)) ->
    passesArchFilter r p = true ->
    exists b,
      committed (ext w1) !! Href (Location p) = Some b /\
      hashOf (checksumTypeOf (ChecksumKind (Checksum p))) b
      = ChecksumValue (Checksum p).
Proof.
  intros Hrun Huniq Hcons. rewrite SyncerFacts.StoreRepo_run in Hrun.
  pose proof (processMetadata_CS r w0) as HMfst.
  pose proof (processMetadata_base r w0) as [HMrem HMcom].
  destruct (processMetadata r w0) as [[[dl rc] [e0|]] wm]; [discriminate|].
  simpl in HMfst, HMrem, HMcom. cbv zeta in Hrun.
  destruct (downloadPackages r dl _) as [[eD|] w3] eqn:HD; [discriminate|].
  destruct (recyclePackages rc _) as [[eR|] w5] eqn:HR; [discriminate|].
  simpl in Hrun. injection Hrun as <-. simpl.
  apply downloadPackages_CS in HD. simpl in HD.
  destruct HD as ([HDrem HDcom] & HDout & HDin).
  apply recyclePackages_CS in HR. simpl in HR.
  destruct HR as ([HRrem HRcom] & HRout & HRin).
  split; [congruence|].
  destruct (indexStage r w0) as [[acc e] wi] eqn:HI. simpl in HMfst.
  injection HMfst as <- <-.
  apply indexStage_ok in HI. unfold classify in HI. injection HI as Hdl Hrc.
  set (M := manifestOf r (ext w0)) in *.
  set (all := Nat.eqb (size (archs r)) 0) in *.
  assert (forall q, In q dl -> In q (List.filter (passesArchFilter r) M)) as Hdl_acc.
  { intros q Hq. rewrite Hdl in Hq. apply filter_In in Hq. destruct Hq as [Hin Hd].
    apply filter_In. split; [exact Hin|].
    unfold isDownload in Hd. rewrite decision_CS in Hd.
    destruct (passesArchFilter r q); [reflexivity | discriminate]. }
  assert (forall q, In q rc -> In q (List.filter (passesArchFilter r) M)) as Hrc_acc.
  { intros q Hq. rewrite Hrc in Hq. apply filter_In in Hq. destruct Hq as [Hin Hd].
    apply filter_In. split; [exact Hin|].
    unfold isRecycle in Hd. rewrite decision_CS in Hd.
    destruct (passesArchFilter r q); [reflexivity | discriminate]. }
  assert (List.NoDup (map (fun p => Href (Location p)) dl)) as Hnd_dl.
  { rewrite Hdl.
    rewrite (filter_filter_implies (isDownload r all (ext w0)) (passesArchFilter r)).
    - apply NoDup_map_filter. exact Huniq.
    - intros a Ha. unfold isDownload in Ha. rewrite decision_CS in Ha.
      destruct (passesArchFilter r a); [reflexivity | discriminate]. }
  intros p Hp Hpass.
  destruct (Hcons p Hp Hpass) as [Hknown Hhash].
  assert (In p (List.filter (passesArchFilter r) M)) as Hp_acc.
  { apply filter_In. split; assumption. }
  pose proof (decision_CS r (ext w0) p) as Hdec. rewrite Hpass in Hdec.
  fold all in Hdec.
  destruct (decision r all (ext w0) p) eqn:Hd.
  - (* downloaded by the first run *)
    assert (In p dl) as Hin_dl.
    { rewrite Hdl. apply filter_In. split; [exact Hp|].
      unfold isDownload. rewrite Hd. reflexivity. }
    destruct (HDin Hnd_dl p Hin_dl) as (b & Hb & Hs).
    exists b. split.
    + rewrite HRout; [exact Hs|].
      intros Hin. apply in_map_iff in Hin. destruct Hin as (q & Hq & Hq_rc).
      assert (q = p) as ->.
      { apply (NoDup_map_injective (fun p => Href (Location p))
                 (List.filter (passesArchFilter r) M)); auto. }
      rewrite Hrc in Hq_rc. apply filter_In in Hq_rc. destruct Hq_rc as [_ Hq_rc].
      unfold isRecycle in Hq_rc. rewrite Hd in Hq_rc. discriminate.
    + apply Hhash. rewrite <- HMrem. exact Hb.
  - (* recycled by the first run *)
    assert (In p rc) as Hin_rc.
    { rewrite Hrc. apply filter_In. split; [exact Hp|].
      unfold isRecycle. rewrite Hd. reflexivity. }
    destruct (HRin p Hin_rc) as (b & Hb & Hs).
    exists b. split; [exact Hs|].
    rewrite HDcom, HMcom in Hb. rewrite Hb in Hdec.
    destruct (checksumTypeOf (ChecksumKind (Checksum p))); try discriminate;
      match type of Hdec with
      | context [String.eqb ?x ?y] => destruct (String.eqb_spec x y)
      end; simpl in Hdec; try discriminate; congruence.
  - (* skipped: only for an unknown algorithm *)
    exfalso.
    destruct (committed (ext w0) !! Href (Location p)); [|discriminate].
    destruct (checksumTypeOf (ChecksumKind (Checksum p))); try congruence;
      destruct (negb _); discriminate.
  - exfalso.
    destruct (committed (ext w0) !! Href (Location p)); [|discriminate].
    destruct (checksumTypeOf (ChecksumKind (Checksum p))); try discriminate;
      destruct (negb _); discriminate.
Qed.

(** C2 (amended).  When a run of [StoreRepo] against the content store
    succeeds, and the manifest the remote serves gives the records that
    pass the filter distinct locations, known checksum algorithms and the
    checksums of the bytes the remote serves, a second run against the
    unchanged remote classifies every record that passes the filter as
    recycle and none as download; it succeeds and fetches nothing once
    its classification is done. *)
Theorem C2_second_run_recycles (r : Syncer) (w0 w1 : World State) :
  StoreRepo r w0 = (None, w1) ->
  locationsUnique r (ext w0) ->
  manifestConsistent r (ext w0) ->
  let '((toDownload, toRecycle), err, w2) := processMetadata r w1 in
  let '(res, w3) := StoreRepo r w1 in
  remote (ext w1) = remote (ext w0) /\
  err = None /\
  toDownload = [] /\
  toRecycle = List.filter (passesArchFilter r) (manifestOf r (ext w0)) /\
  res = None /\
  exists T, trace w3 = trace w2 ++ T /\ getsOf T = [].
Proof.
  intros Hrun Huniq Hcons.
  destruct (StoreRepo_commits_manifest r w0 w1 Hrun Huniq Hcons) as [Hrem Hfiles].
  (* the first run's metadata stage succeeded *)
  assert (snd (fst (indexStage r w0)) = None) as Hidx0.
  { rewrite SyncerFacts.StoreRepo_run in Hrun.
    pose proof (processMetadata_CS r w0) as HMfst.
    destruct (processMetadata r w0) as [[[dl rc] [e0|]] wm]; [discriminate|].
    simpl in HMfst. rewrite <- HMfst. reflexivity. }
  pose proof (indexStage_err r w0 w1 Hrem) as Herr. rewrite Hidx0 in Herr.
  pose proof (processMetadata_CS r w1) as HM1.
  pose proof (processMetadata_base r w1) as [HMrem HMcom].
  rewrite SyncerFacts.StoreRepo_run.
  destruct (processMetadata r w1) as [[[dl2 rc2] err2] w2]. simpl in HM1, HMrem, HMcom.
  destruct (indexStage r w1) as [[acc e] wi] eqn:HI. simpl in HM1, Herr.
  injection HM1 as <- <-. subst err2.
  apply indexStage_ok in HI. rewrite (manifestOf_remote r _ _ Hrem) in HI.
  set (M := manifestOf r (ext w0)) in *.
  assert (forall p, In p M ->
            decision r (Nat.eqb (size (archs r)) 0) (ext w1) p =
            if passesArchFilter r p then DecRecycle else DecExcluded) as Hdec.
  { intros p Hp. rewrite decision_CS.
    destruct (passesArchFilter r p) eqn:Hpass; [|reflexivity].
    destruct (Hfiles p Hp Hpass) as (b & Hb & Hh). rewrite Hb.
    destruct (Hcons p Hp Hpass) as [Hknown _].
    destruct (checksumTypeOf (ChecksumKind (Checksum p))); try congruence;
      rewrite Hh, String.eqb_refl; reflexivity. }
  unfold classify in HI. injection HI as Hdl Hrc.
  assert (dl2 = []) as Hdl2.
  { rewrite Hdl. apply filter_none. intros p Hp.
    unfold isDownload. rewrite (Hdec p Hp).
    destruct (passesArchFilter r p); reflexivity. }
  assert (rc2 = List.filter (passesArchFilter r) M) as Hrc2.
  { rewrite Hrc. apply List.filter_ext_in. intros p Hp.
    unfold isRecycle. rewrite (Hdec p Hp).
    destruct (passesArchFilter r p); reflexivity. }
  clear Hdl. subst dl2. cbv zeta. cbn [downloadPackages]. unfold ret.
  cbv beta iota zeta.
  match goal with
  | |- context [recyclePackages rc2 ?w4] =>
      pose proof (recyclePackages_CS_ok rc2 w4) as Hok;
      destruct (SyncerFacts.recyclePackages_trace rc2 w4)
        as (Tr & m & Htr & Hgr & _);
      destruct (recyclePackages rc2 w4) as [errR w5]
  end.
  simpl in Hok, Htr.
  rewrite Hok.
  - simpl. split; [exact Hrem|]. split; [reflexivity|].
    split; [reflexivity|]. split; [exact Hrc2|]. split; [reflexivity|].
    eexists. rewrite Htr. simpl. rewrite <- !app_assoc. split; [reflexivity|].
    rewrite !SyncerFacts.getsOf_app, Hgr. reflexivity.
  - intros p Hp. rewrite Hrc2 in Hp. apply filter_In in Hp. destruct Hp as [Hp Hpass].
    destruct (Hfiles p Hp Hpass) as (b & Hb & _).
    exists b. rewrite HMcom. exact Hb.
Qed.

End TwoRuns.

End Idempotence.

(** ** More on the Syncer: what its loops fetch, ask and return *)

Module SyncerExtras.
Import Syncer SyncerFacts.
Local Open Scope sync_scope.

Section TraceLists.

Lemma queriesOf_app (A B : list Event) : queriesOf (A ++ B) = queriesOf A ++ queriesOf B.
Proof. unfold queriesOf. apply flat_map_app. Qed.

Lemma mappersOf_app (A B : list Event) : mappersOf (A ++ B) = mappersOf A ++ mappersOf B.
Proof. unfold mappersOf. apply flat_map_app. Qed.

Lemma commitsOf_none (T : list Event) (reply : option error) :
  commitsOf T = 0 -> ~ In (EvCommit reply) T.
Proof.
  induction T as [|ev T IH]; intros Hc Hin; [destruct Hin|].
  destruct Hin as [->|Hin].
  - unfold commitsOf in Hc. simpl in Hc. discriminate.
  - apply IH; [|exact Hin].
    unfold commitsOf in *. simpl in Hc. destruct ev; simpl in Hc; try exact Hc.
    discriminate.
Qed.

Lemma metaEvents_no_commit (T : list Event) (reply : option error) :
  Forall metaEvent T -> ~ In (EvCommit reply) T.
Proof.
  intros HP. apply commitsOf_none. apply (metaEvents_quiet T HP).
Qed.

Lemma no_commit_app (A B : list Event) (reply : option error) :
  ~ In (EvCommit reply) A -> ~ In (EvCommit reply) B ->
  ~ In (EvCommit reply) (A ++ B).
Proof. intros HA HB Hin. apply in_app_or in Hin. tauto. Qed.

Lemma no_commit_log (line : string) (reply : option error) :
  ~ In (EvCommit reply) [EvLog line].
Proof. intros [Hin|[]]. discriminate. Qed.

End TraceLists.

Section Loops.

Context {W Reader : Type} `{!Storage W Reader} `{!Transport W Reader}.

(** What [openPrimary] adds to the trace: one GET, no query. *)
Lemma openPrimary_trace (r : Syncer) (path : string) (w : World W) :
  exists T,
    trace (snd (openPrimary r path w)) = trace w ++ T /\
    getsOf T = [Url r +:+ "/" +:+ path] /\
    queriesOf T = [].
Proof.
  unfold openPrimary, storingMapper.
  unfold bind, call, logLine, emit, ret; simpl.
  destruct (httpGet _ (ext w)) as [[e|body] x1]; simpl.
  { eexists. rewrite <- app_assoc. split; [reflexivity|]. split; reflexivity. }
  destruct (StoringMapper path "" body x1) as [[e|reader] x2]; simpl.
  { eexists. rewrite <- !app_assoc. split; [reflexivity|]. split; reflexivity. }
  destruct (gzipNewReader reader x2) as [[e|gz] x3]; simpl.
  { eexists. rewrite <- !app_assoc. split; [reflexivity|]. split; reflexivity. }
  destruct (xmlDecodePrimary gz x3) as [[e|primary] x4]; simpl.
  { eexists. rewrite <- !app_assoc. split; [reflexivity|]. split; reflexivity. }
  eexists. rewrite <- !app_assoc. split; [reflexivity|]. split; reflexivity.
Qed.

(** What one turn of the loop of [processPrimary] adds: no GET, and the
    query for the record when the record passes the filter. *)
Lemma packEvents_lists (r : Syncer) (x : W) (pack : XMLPackage) :
  getsOf (packEvents r (Nat.eqb (size (archs r)) 0) x pack) = [] /\
  queriesOf (packEvents r (Nat.eqb (size (archs r)) 0) x pack) =
  if passesArchFilter r pack then [queryOf pack] else [].
Proof.
  unfold packEvents, classifyPackage, passesArchFilter, queryOf.
  destruct (archAccepted r _ pack); [|split; reflexivity].
  unfold bind, query, logLine, emit, ret; simpl.
  destruct (StorageChecksum _ _ x) as [sum [e|]]; simpl.
  - destruct (isErrFileNotFound e); split; reflexivity.
  - destruct (negb _); split; reflexivity.
Qed.

Lemma loopEvents_lists (r : Syncer) (x : W) (packs : list XMLPackage) :
  getsOf (flat_map (packEvents r (Nat.eqb (size (archs r)) 0) x) packs) = [] /\
  queriesOf (flat_map (packEvents r (Nat.eqb (size (archs r)) 0) x) packs) =
  map queryOf (List.filter (passesArchFilter r) packs).
Proof.
  induction packs as [|pack rest [IHg IHq]]; [split; reflexivity|].
  destruct (packEvents_lists r x pack) as [Hg Hq].
  simpl. rewrite getsOf_app, queriesOf_app, Hg, Hq, IHg, IHq.
  split; [reflexivity|].
  destruct (passesArchFilter r pack); reflexivity.
Qed.

(** What [processPrimary] adds to the trace. *)
Lemma processPrimary_trace (r : Syncer) (path : string) (w : World W) :
  exists T,
    trace (snd (processPrimary r path w)) = trace w ++ T /\
    getsOf T = [Url r +:+ "/" +:+ path] /\
    queriesOf T =
    map queryOf (List.filter (passesArchFilter r) (decodedPackages r path w)).
Proof.
  rewrite processPrimary_open. unfold decodedPackages.
  destruct (openPrimary_trace r path w) as (T1 & Ht & Hg & Hq).
  destruct (openPrimary r path w) as [[e|[gz primary]] w1]; simpl in *.
  - exists T1. repeat split; assumption.
  - destruct (loopEvents_lists r (ext w1) (Packages primary)) as [Hlg Hlq].
    eexists. rewrite Ht, <- app_assoc. split; [reflexivity|].
    rewrite !getsOf_app, !queriesOf_app, Hg, Hq, Hlg, Hlq. simpl.
    rewrite app_nil_r. split; reflexivity.
Qed.

(** X1.  [processPrimary] fails only when the fetch, the storing mapper,
    the gzip reader or the XML decoder fails: its error is the one that
    ended [openPrimary], and it is nil whenever the manifest was decoded,
    whatever the store answered to the checksum queries. *)
Theorem X1_checksum_errors_are_not_fatal
    (r : Syncer) (path : string) (w : World W) :
  let '(_, err, _) := processPrimary r path w in
  err = match fst (openPrimary r path w) with
        | inl e => Some e
        | inr _ => None
        end.
Proof.
  rewrite processPrimary_open.
  destruct (openPrimary r path w) as [[e|[gz primary]] w1]; reflexivity.
Qed.

(** X2.  The loop of [processPrimary] asks the store for a checksum once
    for every record that passes the architecture filter, in the order of
    the manifest, with the record's location and the algorithm its
    checksum type indexes to; it asks nothing about a record that does
    not pass. *)
Theorem X2_one_query_per_accepted_record
    (r : Syncer) (path : string) (w : World W) :
  exists T,
    trace (snd (processPrimary r path w)) = trace w ++ T /\
    queriesOf T =
    map queryOf (List.filter (passesArchFilter r) (decodedPackages r path w)).
Proof.
  destruct (processPrimary_trace r path w) as (T & Ht & _ & Hq).
  exists T. split; assumption.
Qed.

(** X3.  When the store answers no query about the manifest with an error
    other than [ErrFileNotFound], no record that passes the filter is
    dropped: each is in [packagesToDownload] or in [packagesToRecycle],
    and the two lists together are as long as the list of the records
    that pass. *)
Theorem X3_no_record_dropped_without_error
    (r : Syncer) (path : string) (w : World W) :
  (forall pack e,
     In pack (decodedPackages r path w) ->
     passesArchFilter r pack = true ->
     snd (checksumReply (classificationState r path w) pack) = Some e ->
     e = ErrFileNotFound) ->
  let '((toDownload, toRecycle), _, _) := processPrimary r path w in
  (forall pack,
     In pack (decodedPackages r path w) ->
     passesArchFilter r pack = true ->
     In pack toDownload \/ In pack toRecycle) /\
  length toDownload + length toRecycle
  = length (List.filter (passesArchFilter r) (decodedPackages r path w)).
Proof.
  intros Hhealthy.
  pose proof (processPrimary_lists r path w) as HL.
  destruct (processPrimary r path w) as [[[dl rc] err] w']; simpl in HL.
  injection HL as -> ->.
  set (packs := decodedPackages r path w) in *.
  set (st := classificationState r path w) in *.
  set (all := Nat.eqb (size (archs r)) 0) in *.
  assert (forall pack, In pack packs ->
            passesArchFilter r pack =
            isDownload r all st pack || isRecycle r all st pack) as Hsplit.
  { intros pack Hin. unfold isDownload, isRecycle.
    destruct (passesArchFilter r pack) eqn:Hpass.
    - unfold all. rewrite (decision_accepted r st pack Hpass).
      specialize (Hhealthy pack).
      destruct (checksumReply st pack) as [sum [e|]]; simpl in *.
      + rewrite (Hhealthy e Hin Hpass eq_refl). reflexivity.
      + destruct (negb _); reflexivity.
    - unfold all. rewrite (decision_excluded r st pack Hpass). reflexivity. }
  split.
  - intros pack Hin Hpass. rewrite !filter_In.
    rewrite (Hsplit pack Hin) in Hpass. apply orb_true_iff in Hpass. tauto.
  - clear Hhealthy. clearbody packs.
    induction packs as [|pack rest IH]; [reflexivity|].
    assert (forall p, In p rest ->
              passesArchFilter r p = isDownload r all st p || isRecycle r all st p)
      as Hrest by (intros p Hp; apply Hsplit; right; exact Hp).
    specialize (IH Hrest).
    pose proof (Hsplit pack (or_introl eq_refl)) as Hhead.
    pose proof (decision_cases r all st pack) as Hdisj.
    simpl. rewrite Hhead.
    destruct (isDownload r all st pack), (isRecycle r all st pack);
      simpl in *; try discriminate; rewrite ?length_app; simpl; lia.
Qed.

(** One download with [util.Nop]: one GET, no query, and the storing
    mapper gets the path and the checksum it was called with. *)
Lemma download_lists (r : Syncer) (path checksum : string) (w : World W) :
  exists T,
    trace (snd (downloadStoreApply r path checksum Nop tt w)) = trace w ++ T /\
    getsOf T = [Url r +:+ "/" +:+ path] /\
    queriesOf T = [] /\
    (mappersOf T = [] \/ mappersOf T = [(path, checksum)]) /\
    (snd (fst (downloadStoreApply r path checksum Nop tt w)) = None ->
     mappersOf T = [(path, checksum)]).
Proof.
  unfold downloadStoreApply, DownloadApply, Compose, storingMapper, Nop.
  unfold bind, call, logLine, emit, ret; simpl.
  destruct (httpGet _ (ext w)) as [[e|body] x1]; simpl.
  { eexists. rewrite <- app_assoc. split; [reflexivity|]. simpl.
    repeat split; [left; reflexivity | discriminate]. }
  destruct (StoringMapper path checksum body x1) as [[e|reader] x2]; simpl.
  { eexists. rewrite <- !app_assoc. split; [reflexivity|]. simpl.
    repeat split; right; reflexivity. }
  destruct (utilNop reader x2) as [e x3]; simpl.
  eexists. rewrite <- !app_assoc. split; [reflexivity|]. simpl.
  repeat split; right; reflexivity.
Qed.

Lemma downloadStore_lists (r : Syncer) (path : string) (w : World W) :
  exists T,
    trace (snd (downloadStore r path w)) = trace w ++ T /\
    getsOf T = [Url r +:+ "/" +:+ path] /\
    queriesOf T = [].
Proof.
  destruct (download_lists r path "" w) as (T & Ht & Hg & Hq & _).
  exists T. unfold downloadStore, bind.
  destruct (downloadStoreApply r path "" Nop tt w) as [[[] e] w1].
  repeat split; assumption.
Qed.

(** What the loop over the index entries fetches. *)
Lemma processData_gets
    (r : Syncer) (data : list XMLData) (acc : Lists) (w : World W) :
  let '(_, err, w') := processData r data acc w in
  exists T n,
    trace w' = trace w ++ T /\
    n <= length data /\
    getsOf T = map (entryURL r) (firstn n data) /\
    (err = None -> n = length data) /\
    (err <> None -> 1 <= n).
Proof.
  revert acc w. induction data as [|d rest IH]; intros acc w.
  - cbn. exists [], 0. rewrite app_nil_r. repeat split; [lia | congruence].
  - cbn [processData]. unfold bind, ret.
    assert (forall acc1 err1 w1 T1,
              trace w1 = trace w ++ T1 ->
              getsOf T1 = [entryURL r d] ->
              let '(_, err, w') :=
                match err1 with
                | Some e => (acc1, Some e, w1)
                | None => processData r rest acc1 w1
                end in
              exists T n,
                trace w' = trace w ++ T /\
                n <= length (d :: rest) /\
                getsOf T = map (entryURL r) (firstn n (d :: rest)) /\
                (err = None -> n = length (d :: rest)) /\
                (err <> None -> 1 <= n)) as Hstep.
    { intros acc1 [e|] w1 T1 Ht1 Hg1.
      - exists T1, 1. simpl.
        repeat split; try assumption; try discriminate; lia.
      - specialize (IH acc1 w1).
        destruct (processData r rest acc1 w1) as [[acc2 err] w2].
        destruct IH as (T2 & n & Ht2 & Hn & Hg2 & Hok & Herr).
        exists (T1 ++ T2), (S n).
        rewrite Ht2, Ht1, <- app_assoc, getsOf_app, Hg1, Hg2. simpl.
        repeat split; try lia. intros He. rewrite (Hok He). reflexivity. }
    destruct (String.eqb (DataType d) "primary").
    + destruct (processPrimary_trace r (Href (DataLocation d)) w) as (T1 & Ht1 & Hg1 & _).
      destruct (processPrimary r (Href (DataLocation d)) w) as [[acc1 err1] w1].
      specialize (Hstep acc1 err1 w1 T1 Ht1 Hg1).
      destruct err1; exact Hstep.
    + destruct (downloadStore_lists r (Href (DataLocation d)) w) as (T1 & Ht1 & Hg1 & _).
      destruct (downloadStore r (Href (DataLocation d)) w) as [err1 w1].
      specialize (Hstep acc err1 w1 T1 Ht1 Hg1).
      destruct err1; exact Hstep.
Qed.

(** The lists and the queries of an entry that is not primary. *)
Lemma processData_no_primary (r : Syncer) (data : list XMLData) :
  (forall d, In d data -> isPrimary d = false) ->
  forall (acc : Lists) (w : World W),
    fst (fst (processData r data acc w)) = acc /\
    exists T,
      trace (snd (processData r data acc w)) = trace w ++ T /\ queriesOf T = [].
Proof.
  induction data as [|d rest IH]; intros Hnone acc w.
  - cbn. split; [reflexivity|]. exists []. rewrite app_nil_r. split; reflexivity.
  - cbn [processData]. unfold bind.
    pose proof (Hnone d (or_introl eq_refl)) as Hd. unfold isPrimary in Hd.
    rewrite Hd. unfold bind, ret.
    destruct (downloadStore_lists r (Href (DataLocation d)) w) as (T1 & Ht1 & _ & Hq1).
    destruct (downloadStore r (Href (DataLocation d)) w) as [[e|] w1]; simpl in *.
    + split; [reflexivity|]. exists T1. split; assumption.
    + destruct (IH (fun d' Hin => Hnone d' (or_intror Hin)) acc w1)
        as (Hacc & T2 & Ht2 & Hq2).
      split; [exact Hacc|]. exists (T1 ++ T2).
      rewrite Ht2, Ht1, <- app_assoc, queriesOf_app, Hq1, Hq2.
      split; reflexivity.
Qed.

(** X5.  When no entry of the index is of type "primary", the loop over
    the entries returns the two lists as it got them (empty, in
    [processMetadata]), whether it succeeds or fails, and never asks the
    store for a checksum. *)
Theorem X5_index_without_primary
    (r : Syncer) (data : list XMLData) (acc : Lists) (w : World W) :
  (forall d, In d data -> isPrimary d = false) ->
  let '(lists, _, w') := processData r data acc w in
  lists = acc /\
  exists T, trace w' = trace w ++ T /\ queriesOf T = [].
Proof.
  intros Hnone.
  pose proof (processData_no_primary r data Hnone acc w) as Hrun.
  destruct (processData r data acc w) as [[lists err] w']. exact Hrun.
Qed.

(** The loop over two runs of entries is the loop over the first, then,
    unless that failed, the loop over the second. *)
Lemma processData_app (r : Syncer) (data1 data2 : list XMLData) :
  forall (acc : Lists) (w : World W),
    processData r (data1 ++ data2) acc w =
    let '(acc1, err1, w1) := processData r data1 acc w in
    match err1 with
    | Some e => (acc1, Some e, w1)
    | None => processData r data2 acc1 w1
    end.
Proof.
  induction data1 as [|d rest IH]; intros acc w.
  { cbn. destruct (processData r data2 acc w) as [[acc1 err1] w1]. reflexivity. }
  cbn [app processData]. unfold bind, ret.
  destruct (String.eqb (DataType d) "primary").
  - destruct (processPrimary r (Href (DataLocation d)) w) as [[acc1 [e|]] w1];
      [reflexivity | apply IH].
  - destruct (downloadStore r (Href (DataLocation d)) w) as [[e|] w1];
      [reflexivity | apply IH].
Qed.



(** X6.  The lists the loop over the index entries returns are those of
    the last entry of type "primary": when the entries before it were
    processed without error, the lists are what [processPrimary] returns
    for it, whatever lists an earlier primary entry had produced and
    whatever happens to the entries after it. *)
Theorem X6_last_primary_entry_decides
    (r : Syncer) (data1 data2 : list XMLData) (d : XMLData)
    (acc : Lists) (w : World W) :
  isPrimary d = true ->
  (forall d', In d' data2 -> isPrimary d' = false) ->
  let '(_, err1, w1) := processData r data1 acc w in
  err1 = None ->
  fst (fst (processData r (data1 ++ d :: data2) acc w))
  = fst (fst (processPrimary r (Href (DataLocation d)) w1)).
Proof.
  intros Hd Hnone. rewrite processData_app.
  destruct (processData r data1 acc w) as [[acc1 err1] w1].
  intros ->. cbn [processData]. unfold bind.
  unfold isPrimary in Hd. rewrite Hd.
  destruct (processPrimary r (Href (DataLocation d)) w1) as [[accP [e|]] wP];
    [reflexivity|].
  simpl. apply (processData_no_primary r data2 Hnone).
Qed.

(** The first loop of [StoreRepo] and the storing mapper. *)
Lemma downloadPackages_mappers (r : Syncer) (packs : list XMLPackage) :
  forall w : World W,
  exists T n,
    trace (snd (downloadPackages r packs w)) = trace w ++ T /\
    mappersOf T = map mapperArgs (firstn n packs) /\
    (fst (downloadPackages r packs w) = None ->
     mappersOf T = map mapperArgs packs).
Proof.
  induction packs as [|pack rest IH]; intros w; cbn [downloadPackages].
  - exists [], 0. unfold ret; simpl. rewrite app_nil_r. repeat split.
  - unfold bind.
    destruct (download_lists r (Href (Location pack))
                (ChecksumValue (Checksum pack)) w)
      as (T1 & Ht & _ & _ & Hm & Hok).
    destruct (downloadStoreApply r (Href (Location pack))
                (ChecksumValue (Checksum pack)) Nop tt w)
      as [[[] err] w1]; simpl in *.
    destruct err as [e|]; simpl in *.
    + unfold ret; simpl. destruct Hm as [Hm|Hm].
      * exists T1, 0. rewrite Hm. repeat split; [assumption | discriminate].
      * exists T1, 1. rewrite Hm. repeat split; [assumption | discriminate].
    + destruct (IH w1) as (T2 & n & Ht2 & Hm2 & Hall).
      exists (T1 ++ T2), (S n).
      rewrite Ht2, Ht, <- app_assoc, mappersOf_app, (Hok eq_refl), Hm2.
      repeat split. intros Hnone. rewrite <- (Hall Hnone), Hm2. reflexivity.
Qed.

(** X7.  [StoreRepo] reports success only when it has called [Commit]
    and [Commit] succeeded.  It calls [Commit] at most once; when it
    does, that call is the last thing it does and the reply is its
    result. *)
Theorem X7_success_means_committed (r : Syncer) (w : World W) :
  let '(res, w') := StoreRepo r w in
  exists T,
    trace w' = trace w ++ T /\
    commitsOf T <= 1 /\
    (forall reply, In (EvCommit reply) T ->
       res = reply /\ exists T', T = T' ++ [EvCommit reply]) /\
    (res = None -> In (EvCommit None) T).
Proof.
  rewrite StoreRepo_run.
  destruct (processMetadata_meta r w) as (T0 & Ht0 & HP0).
  destruct (metaEvents_quiet _ HP0) as [_ Hc0].
  destruct (processMetadata r w) as [[[dl rc] [e0|]] w1]; simpl in Ht0.
  { exists T0. split; [exact Ht0|]. split; [lia|]. split.
    - intros reply Hin. exfalso. exact (metaEvents_no_commit _ _ HP0 Hin).
    - discriminate. }
  cbv zeta.
  match goal with
  | |- context [downloadPackages r dl ?w2] =>
      destruct (downloadPackages_trace r dl w2) as (Td & n & Htd & _ & _ & Hcd & _);
      destruct (downloadPackages r dl w2) as [errD w3]
  end.
  simpl in Htd.
  destruct errD as [eD|].
  { eexists. rewrite Htd, Ht0, <- !app_assoc. split; [reflexivity|].
    rewrite !commitsOf_app, Hc0, Hcd. split; [unfold commitsOf; simpl; lia|]. split.
    - intros reply Hin. exfalso. revert Hin.
      apply no_commit_app; [exact (metaEvents_no_commit _ _ HP0)|].
      apply no_commit_app; [apply no_commit_log | exact (commitsOf_none _ _ Hcd)].
    - discriminate. }
  match goal with
  | |- context [recyclePackages rc ?w4] =>
      destruct (recyclePackages_trace rc w4) as (Tr & m & Htr & _ & _ & Hcr & _);
      destruct (recyclePackages rc w4) as [errR w5]
  end.
  simpl in Htr.
  assert (forall reply,
            ~ In (EvCommit reply)
                (T0 ++ [EvLog ("Downloading " +:+ fmt_int (length dl)
                               +:+ " packages..." +:+ nl)] ++ Td
                    ++ [EvLog ("Recycling " +:+ fmt_int (length rc)
                               +:+ " packages..." +:+ nl)] ++ Tr)) as Hnone.
  { intros reply.
    apply no_commit_app; [exact (metaEvents_no_commit _ _ HP0)|].
    apply no_commit_app; [apply no_commit_log|].
    apply no_commit_app; [exact (commitsOf_none _ _ Hcd)|].
    apply no_commit_app; [apply no_commit_log | exact (commitsOf_none _ _ Hcr)]. }
  destruct errR as [eR|].
  { eexists. rewrite Htr. simpl. rewrite Htd. simpl. rewrite Ht0, <- !app_assoc.
    split; [reflexivity|].
    rewrite !commitsOf_app, Hc0, Hcd, Hcr.
    split; [unfold commitsOf; simpl; lia|]. split.
    - intros reply Hin. exfalso. exact (Hnone reply Hin).
    - discriminate. }
  destruct (Commit (ext w5)) as [errC x].
  eexists. simpl. rewrite Htr. simpl. rewrite Htd. simpl. rewrite Ht0, <- !app_assoc.
  split; [reflexivity|].
  rewrite !commitsOf_app, Hc0, Hcd, Hcr.
  split; [unfold commitsOf; simpl; lia|]. split.
  - intros reply Hin.
    assert (In (EvCommit reply)
              ((T0 ++ [EvLog ("Downloading " +:+ fmt_int (length dl)
                              +:+ " packages..." +:+ nl)] ++ Td
                   ++ [EvLog ("Recycling " +:+ fmt_int (length rc)
                              +:+ " packages..." +:+ nl)] ++ Tr)
               ++ [EvLog ("Committing changes..." +:+ nl); EvCommit errC])) as Hin'.
    { rewrite <- !app_assoc. exact Hin. }
    apply in_app_or in Hin'. destruct Hin' as [Hin'|Hin'];
      [exfalso; exact (Hnone reply Hin')|].
    destruct Hin' as [Hin'|[Hin'|[]]]; [discriminate|].
    injection Hin' as <-. split; [reflexivity|].
    exists (T0 ++ [EvLog ("Downloading " +:+ fmt_int (length dl)
                          +:+ " packages..." +:+ nl)] ++ Td
               ++ [EvLog ("Recycling " +:+ fmt_int (length rc)
                          +:+ " packages..." +:+ nl)] ++ Tr
               ++ [EvLog ("Committing changes..." +:+ nl)]).
    rewrite <- !app_assoc. reflexivity.
  - intros ->. apply in_or_app. right. simpl. right.
    apply in_or_app. right. simpl. right.
    apply in_or_app. right. simpl. right. left. reflexivity.
Qed.

(** X8.  The download loop of [StoreRepo] hands each package's location
    together with the checksum of its manifest record to
    [StoringMapper], in list order: the calls of the storing mapper are
    those for an initial segment of the packages, and for all of them
    when the loop returns nil. *)
Theorem X8_downloads_carry_the_manifest_checksum
    (r : Syncer) (packs : list XMLPackage) (w : World W) :
  let '(err, w') := downloadPackages r packs w in
  exists T n,
    trace w' = trace w ++ T /\
    mappersOf T = map mapperArgs (firstn n packs) /\
    (err = None -> mappersOf T = map mapperArgs packs).
Proof.
  pose proof (downloadPackages_mappers r packs w) as Hm.
  destruct (downloadPackages r packs w) as [err w']. exact Hm.
Qed.

(** The index stage is [openIndex], then the loop over the entries. *)
Lemma indexStage_open (r : Syncer) (w : World W) :
  indexStage r w =
  match openIndex r w with
  | (inl e, w1) => (([], []), Some e, w1)
  | (inr repomd, w1) => processData r (Data repomd) ([], []) w1
  end.
Proof.
  unfold indexStage, openIndex, downloadStoreApply, DownloadApply, Compose,
    repomdConsumer, storingMapper.
  unfold bind, call, logLine, emit, ret; simpl.
  destruct (httpGet _ (ext w)) as [[e|body] x1]; simpl; [reflexivity|].
  destruct (StoringMapper repomdPath "" body x1) as [[e|reader] x2]; simpl;
    [reflexivity|].
  destruct (xmlDecodeRepomd reader x2) as [[e|repomd] x3]; reflexivity.
Qed.

Lemma openIndex_trace (r : Syncer) (w : World W) :
  exists T,
    trace (snd (openIndex r w)) = trace w ++ T /\
    getsOf T = [Url r +:+ "/" +:+ repomdPath].
Proof.
  unfold openIndex, storingMapper.
  unfold bind, call, logLine, emit, ret; simpl.
  destruct (httpGet _ (ext w)) as [[e|body] x1]; simpl.
  { eexists. rewrite <- app_assoc. split; reflexivity. }
  destruct (StoringMapper repomdPath "" body x1) as [[e|reader] x2]; simpl.
  { eexists. rewrite <- !app_assoc. split; reflexivity. }
  destruct (xmlDecodeRepomd reader x2) as [d x3]; simpl.
  eexists. rewrite <- !app_assoc. split; reflexivity.
Qed.

Lemma signatureStage_gets (r : Syncer) (path : string) (w : World W) :
  exists T,
    trace (snd (signatureStage r path w)) = trace w ++ T /\
    getsOf T = [Url r +:+ "/" +:+ path].
Proof.
  unfold signatureStage, bind.
  destruct (downloadStore_lists r path w) as (T & Ht & Hg & _).
  destruct (downloadStore r path w) as [[e|] w1]; simpl in *.
  - unfold logLine, emit, bind, ret. destruct (HasSuffix (Error e) "404"); simpl.
    + exists (T ++ [EvLog "Got 404, ignoring..."]).
      rewrite Ht, <- app_assoc, getsOf_app, Hg. split; reflexivity.
    + exists T. split; assumption.
  - exists T. split; assumption.
Qed.

(** What a successful [processMetadata] fetches. *)
Lemma processMetadata_gets (r : Syncer) (w : World W) :
  let '(_, err, w') := processMetadata r w in
  err = None ->
  exists T,
    trace w' = trace w ++ T /\
    getsOf T =
    [Url r +:+ "/" +:+ repomdPath]
    ++ map (entryURL r) (decodedIndex r w)
    ++ [Url r +:+ "/" +:+ repomdPath +:+ ".asc";
        Url r +:+ "/" +:+ repomdPath +:+ ".key"].
Proof.
  rewrite processMetadata_stages. unfold bind.
  rewrite indexStage_open. unfold decodedIndex.
  destruct (openIndex_trace r w) as (T1 & Ht1 & Hg1).
  destruct (openIndex r w) as [[e|repomd] w1]; simpl in Ht1; [discriminate|].
  pose proof (processData_gets r (Data repomd) ([], []) w1) as Hloop.
  destruct (processData r (Data repomd) ([], []) w1) as [[acc [e|]] w2];
    [discriminate|].
  destruct Hloop as (T2 & n & Ht2 & _ & Hg2 & Hall & _).
  rewrite (Hall eq_refl), firstn_all in Hg2.
  destruct (signatureStage_gets r (repomdPath +:+ ".asc") w2) as (T3 & Ht3 & Hg3).
  destruct (signatureStage r (repomdPath +:+ ".asc") w2) as [[e|] w3];
    [discriminate|].
  destruct (signatureStage_gets r (repomdPath +:+ ".key") w3) as (T4 & Ht4 & Hg4).
  destruct (signatureStage r (repomdPath +:+ ".key") w3) as [errK w4].
  simpl in *. intros _.
  exists (T1 ++ T2 ++ T3 ++ T4).
  rewrite Ht4, Ht3, Ht2, Ht1, <- !app_assoc. split; [reflexivity|].
  rewrite !getsOf_app, Hg1, Hg2, Hg3, Hg4. reflexivity.
Qed.

(** X9.  A run of [StoreRepo] that returns nil has fetched, in this
    order and nothing else: repodata/repomd.xml, the location of every
    entry of the decoded index, repodata/repomd.xml.asc,
    repodata/repomd.xml.key, and the location of every package classified
    for download; and it has recycled exactly the packages classified
    for recycling, in order. *)
Theorem X9_what_a_successful_sync_fetches (r : Syncer) (w : World W) :
  let '((toDownload, toRecycle), _, _) := processMetadata r w in
  let '(res, w') := StoreRepo r w in
  res = None ->
  exists T,
    trace w' = trace w ++ T /\
    getsOf T =
    [Url r +:+ "/" +:+ repomdPath]
    ++ map (entryURL r) (decodedIndex r w)
    ++ [Url r +:+ "/" +:+ repomdPath +:+ ".asc";
        Url r +:+ "/" +:+ repomdPath +:+ ".key"]
    ++ map (packageURL r) toDownload /\
    recyclesOf T = map (fun p => Href (Location p)) toRecycle.
Proof.
  rewrite StoreRepo_run.
  pose proof (processMetadata_gets r w) as Hmeta.
  destruct (processMetadata_meta r w) as (T0' & Ht0' & HP0).
  destruct (metaEvents_quiet _ HP0) as [Hr0 _].
  destruct (processMetadata r w) as [[[dl rc] [e0|]] w1]; simpl in *;
    [discriminate|].
  destruct (Hmeta eq_refl) as (T0 & Ht0 & Hg0).
  assert (T0' = T0) as -> by (apply (app_inv_head (trace w)); congruence).
  match goal with
  | |- context [downloadPackages r dl ?w2] =>
      destruct (downloadPackages_trace r dl w2)
        as (Td & n & Htd & _ & Hrd & _ & _ & Halld);
      destruct (downloadPackages r dl w2) as [[eD|] w3]
  end; [discriminate|].
  simpl in Htd, Halld.
  match goal with
  | |- context [recyclePackages rc ?w4] =>
      destruct (recyclePackages_trace rc w4)
        as (Tr & m & Htr & Hgr & _ & _ & _ & Hallr);
      destruct (recyclePackages rc w4) as [[eR|] w5]
  end; [discriminate|].
  simpl in Htr, Hallr.
  destruct (Commit (ext w5)) as [errC x]. simpl. intros ->.
  eexists. rewrite Htr. simpl. rewrite Htd. simpl. rewrite Ht0, <- !app_assoc.
  split; [reflexivity|].
  rewrite !getsOf_app, !recyclesOf_app, Hg0, Hr0, (Halld eq_refl), Hrd, Hgr,
    (Hallr eq_refl).
  simpl. rewrite !app_nil_r, <- !app_assoc. split; reflexivity.
Qed.

End Loops.

End SyncerExtras.

(** ** The storing reader writes through *)

Module StoringReaderFacts.
Import StoringReader.

Section WriterFacts.

Lemma keepsFiles_refl (d : Disk) : keepsFiles d d.
Proof. intros name Hn. exact Hn. Qed.

Lemma keepsFiles_trans (d1 d2 d3 : Disk) :
  keepsFiles d1 d2 -> keepsFiles d2 d3 -> keepsFiles d1 d3.
Proof. intros H12 H23 name Hn. apply H23, H12, Hn. Qed.

Lemma fileWrite_spec (name : string) (p : bytes) (d d' : Disk)
    (n : nat) (err : option error) :
  fileWrite name p d = (n, err, d') ->
  fileOf name d' = fileOf name d ++ firstn n p /\
  (err = None -> n = length p) /\
  keepsFiles d d'.
Proof.
  unfold fileWrite. intros Hw. injection Hw as <- <- <-.
  split; [|split].
  - unfold fileOf at 1. simpl. rewrite lookup_insert_eq. reflexivity.
  - destruct (Nat.ltb_spec (Nat.min (length p) (free d)) (length p));
      [discriminate | intros _; lia].
  - intros name' Hn. simpl.
    destruct (decide (name = name')) as [->|Hne].
    + rewrite lookup_insert_eq. eexists; reflexivity.
    + rewrite lookup_insert_ne by exact Hne. exact Hn.
Qed.

(** A flush keeps the file of the writer, and when the writer is without
    error afterwards nothing written to it was lost. *)
Lemma Flush_spec (b b' : Writer) (d d' : Disk) (res : option error) :
  Flush b d = (res, b', d') ->
  wr b' = wr b /\
  keepsFiles d d' /\
  (res = None -> werr b' = None /\ buf b' = []) /\
  (werr b' = None -> werr b = None /\ contentOf b' d' = contentOf b d).
Proof.
  unfold Flush. destruct (werr b) as [e|] eqn:He.
  { intros Hf. injection Hf as <- <- <-.
    split; [reflexivity|]. split; [apply keepsFiles_refl|].
    split; [discriminate|]. rewrite ?He. discriminate. }
  destruct (Nat.eqb_spec (length (buf b)) 0) as [Hz|Hnz].
  { intros Hf. injection Hf as <- <- <-.
    split; [reflexivity|]. split; [apply keepsFiles_refl|].
    split; [intros _; split; [first [exact He | reflexivity]
                             | apply length_zero_iff_nil; exact Hz]|].
    intros _. split; [first [exact He | reflexivity] | reflexivity]. }
  destruct (fileWrite (wr b) (buf b) d) as [[n err] d1] eqn:Hw.
  apply fileWrite_spec in Hw. destruct Hw as (Hfile & Hall & Hkeep).
  destruct err as [e|]; simpl.
  - rewrite andb_false_r. intros Hf. injection Hf as <- <- <-. simpl.
    split; [reflexivity|]. split; [exact Hkeep|].
    split; discriminate.
  - specialize (Hall eq_refl). subst n.
    rewrite Nat.ltb_irrefl. simpl. intros Hf. injection Hf as <- <- <-. simpl.
    split; [reflexivity|]. split; [exact Hkeep|].
    split; [intros _; split; reflexivity|]. intros _. split; [reflexivity|].
    unfold contentOf. simpl. rewrite Hfile, firstn_all, app_nil_r. reflexivity.
Qed.

(** A flush that leaves the writer without error leaves its buffer empty. *)
Lemma Flush_clean (b b' : Writer) (d d' : Disk) (res : option error) :
  Flush b d = (res, b', d') -> werr b' = None -> buf b <> [] -> buf b' = [].
Proof.
  unfold Flush. destruct (werr b) as [e|] eqn:He.
  { intros Hf. injection Hf as <- <- <-. rewrite ?He. discriminate. }
  destruct (Nat.eqb_spec (length (buf b)) 0) as [Hz|Hnz].
  { intros _ _ Hne. apply length_zero_iff_nil in Hz. contradiction. }
  destruct (fileWrite (wr b) (buf b) d) as [[n err] d1].
  destruct (if Nat.ltb n (length (buf b)) && isNil err
            then Some ErrShortWrite else err) as [e|].
  - intros Hf. injection Hf as <- <- <-. simpl. discriminate.
  - intros Hf. injection Hf as <- <- <-. reflexivity.
Qed.

Lemma writeLoop_done (fuel : nat) (b : Writer) (p : bytes) (nn : nat) (d : Disk) :
  writeMore b p = false -> writeLoop fuel b p nn d = (b, p, nn, d).
Proof. intros Hc. destruct fuel; simpl; [reflexivity | rewrite Hc; reflexivity]. Qed.

Lemma writeLoop_step (fuel : nat) (b : Writer) (p : bytes) (nn : nat) (d : Disk) :
  writeLoop (S fuel) b p nn d =
  if writeMore b p then
    if Nat.eqb (length (buf b)) 0 then
      let '(n, err, d') := fileWrite (wr b) p d in
      writeLoop fuel {| wr := wr b; buf := buf b; werr := err |}
                (skipn n p) (nn + n) d'
    else
      let n := Nat.min (Available b) (length p) in
      let filled := {| wr := wr b; buf := buf b ++ firstn n p; werr := werr b |} in
      let '(_, b', d') := Flush filled d in
      writeLoop fuel b' (skipn n p) (nn + n) d'
  else (b, p, nn, d).
Proof. reflexivity. Qed.

(** The loop keeps what was written, as long as the writer is without
    error at its end. *)
Lemma writeLoop_spec (fuel : nat) :
  forall (b : Writer) (p : bytes) (nn : nat) (d : Disk)
         (b1 : Writer) (p1 : bytes) (nn1 : nat) (d1 : Disk),
    writeLoop fuel b p nn d = (b1, p1, nn1, d1) ->
    wr b1 = wr b /\
    keepsFiles d d1 /\
    (werr b1 = None ->
     werr b = None /\ contentOf b1 d1 ++ p1 = contentOf b d ++ p).
Proof.
  induction fuel as [|fuel IH]; intros b p nn d b1 p1 nn1 d1 Hrun.
  { simpl in Hrun. injection Hrun as <- <- <- <-.
    split; [reflexivity|]. split; [apply keepsFiles_refl|].
    intros He. split; [exact He | reflexivity]. }
  cbn [writeLoop] in Hrun. destruct (writeMore b p) eqn:Hc.
  2:{ injection Hrun as <- <- <- <-.
      split; [reflexivity|]. split; [apply keepsFiles_refl|].
      intros He. split; [exact He | reflexivity]. }
  assert (werr b = None) as Hb.
  { unfold writeMore in Hc. apply andb_true_iff in Hc. destruct Hc as [_ Hc].
    destruct (werr b); [discriminate | reflexivity]. }
  destruct (Nat.eqb_spec (length (buf b)) 0) as [Hz|Hnz].
  - destruct (fileWrite (wr b) p d) as [[n err] d'] eqn:Hw.
    apply fileWrite_spec in Hw. destruct Hw as (Hfile & _ & Hkeep).
    apply IH in Hrun. simpl in Hrun. destruct Hrun as (Hwr & Hkeep1 & Hcont).
    split; [exact Hwr|]. split; [exact (keepsFiles_trans _ _ _ Hkeep Hkeep1)|].
    intros He. destruct (Hcont He) as [_ Heq]. split; [exact Hb|].
    rewrite Heq. unfold contentOf. simpl. rewrite Hfile.
    apply length_zero_iff_nil in Hz. rewrite Hz, !app_nil_r, <- app_assoc.
    rewrite firstn_skipn. reflexivity.
  - set (n := Nat.min (Available b) (length p)) in *.
    destruct (Flush {| wr := wr b; buf := buf b ++ firstn n p; werr := werr b |} d)
      as [[res b'] d'] eqn:Hf.
    apply Flush_spec in Hf. simpl in Hf. destruct Hf as (Hwr' & Hkeep & _ & Hcont').
    apply IH in Hrun. destruct Hrun as (Hwr & Hkeep1 & Hcont).
    split; [congruence|]. split; [exact (keepsFiles_trans _ _ _ Hkeep Hkeep1)|].
    intros He. destruct (Hcont He) as [He' Heq]. split; [exact Hb|].
    destruct (Hcont' He') as [_ Heq']. rewrite Heq, Heq'.
    unfold contentOf. simpl. rewrite <- !app_assoc, firstn_skipn. reflexivity.
Qed.

(** Two turns of the loop are enough. *)
Lemma writeLoop_exit (fuel : nat) (b : Writer) (p : bytes) (nn : nat) (d : Disk)
    (b1 : Writer) (p1 : bytes) (nn1 : nat) (d1 : Disk) :
  2 <= fuel ->
  writeLoop fuel b p nn d = (b1, p1, nn1, d1) ->
  writeMore b1 p1 = false.
Proof.
  assert (forall f b p nn d b1 p1 nn1 d1,
            length (buf b) = 0 -> writeMore b p = true ->
            writeLoop (S f) b p nn d = (b1, p1, nn1, d1) ->
            writeMore b1 p1 = false) as Hdirect.
  { intros f b0 p0 nn0 d0 b2 p2 nn2 d2 Hz Hc Hrun. rewrite writeLoop_step in Hrun.
    rewrite Hc, Hz in Hrun. cbn [Nat.eqb] in Hrun.
    destruct (fileWrite (wr b0) p0 d0) as [[n err] d'] eqn:Hw.
    apply fileWrite_spec in Hw. destruct Hw as (_ & Hall & _).
    assert (writeMore {| wr := wr b0; buf := buf b0; werr := err |} (skipn n p0)
            = false) as Hstop.
    { unfold writeMore. simpl. destruct err as [e|]; [apply andb_false_r|].
      rewrite (Hall eq_refl), skipn_all. simpl. reflexivity. }
    rewrite (writeLoop_done _ _ _ _ _ Hstop) in Hrun.
    injection Hrun as <- <- <- <-. exact Hstop. }
  intros Hfuel Hrun.
  destruct fuel as [|[|fuel]]; [lia | lia |].
  destruct (writeMore b p) eqn:Hc.
  2:{ rewrite (writeLoop_done _ _ _ _ _ Hc) in Hrun.
      injection Hrun as <- <- <- <-. exact Hc. }
  destruct (Nat.eqb_spec (length (buf b)) 0) as [Hz|Hnz].
  { exact (Hdirect _ _ _ _ _ _ _ _ _ Hz Hc Hrun). }
  rewrite writeLoop_step in Hrun. rewrite Hc in Hrun.
  destruct (Nat.eqb_spec (length (buf b)) 0) as [Hz|_]; [contradiction|].
  cbv zeta in Hrun.
  set (n := Nat.min (Available b) (length p)) in *.
  set (filled := {| wr := wr b; buf := buf b ++ firstn n p; werr := werr b |}) in *.
  destruct (Flush filled d) as [[res b'] d'] eqn:Hf.
  destruct (writeMore b' (skipn n p)) eqn:Hc'.
  2:{ rewrite (writeLoop_done _ _ _ _ _ Hc') in Hrun.
      injection Hrun as <- <- <- <-. exact Hc'. }
  assert (length (buf b') = 0) as Hz'.
  { assert (werr b' = None) as He'.
    { unfold writeMore in Hc'. apply andb_true_iff in Hc'. destruct Hc' as [_ Hc'].
      destruct (werr b'); [discriminate | reflexivity]. }
    rewrite (Flush_clean _ _ _ _ _ Hf He'); [reflexivity|].
    unfold filled. simpl. intros Hnil. apply (f_equal (@length _)) in Hnil.
    rewrite length_app in Hnil. simpl in Hnil. lia. }
  exact (Hdirect _ _ _ _ _ _ _ _ _ Hz' Hc' Hrun).
Qed.

(** A write that reports no error took all of [p]. *)
Lemma Write_ok (b b' : Writer) (p : bytes) (d d' : Disk) (nw : nat) :
  Write b p d = (nw, None, b', d') ->
  wr b' = wr b /\
  keepsFiles d d' /\
  werr b' = None /\
  contentOf b' d' = contentOf b d ++ p.
Proof.
  unfold Write.
  destruct (writeLoop (2 + length p) b p 0 d) as [[[b1 p1] nn] d1] eqn:Hloop.
  assert (2 <= 2 + length p) as Hfuel by lia.
  pose proof (writeLoop_exit _ _ _ _ _ _ _ _ _ Hfuel Hloop) as Hexit.
  apply writeLoop_spec in Hloop. destruct Hloop as (Hwr & Hkeep & Hcont).
  destruct (werr b1) as [e|] eqn:He; [discriminate|].
  intros Hw. injection Hw as _ <- <-. simpl.
  split; [exact Hwr|]. split; [exact Hkeep|]. split; [reflexivity|].
  destruct (Hcont eq_refl) as [_ Heq]. rewrite <- Heq.
  unfold writeMore in Hexit. rewrite He, andb_true_r in Hexit.
  apply Nat.ltb_ge in Hexit.
  rewrite Nat.min_r by exact Hexit. rewrite firstn_all.
  unfold contentOf. simpl. rewrite app_assoc. reflexivity.
Qed.

End WriterFacts.

Section ReaderFacts.

Context {R : Type} `{!ReadCloser R}.

Lemma NewStoringReader_ok (Join : string -> string -> string) (s : Storage)
    (filename : string) (rd : R) (d0 d1 : Disk) (t0 : storingReader R) :
  NewStoringReader Join s filename rd d0 = (inr t0, d1) ->
  reader t0 = rd /\ writtenThrough (Join (directory s) filename) t0 d1 [].
Proof.
  unfold NewStoringReader, osCreate.
  destruct (decide (Join (directory s) filename ∈ denied d0)); [discriminate|].
  intros Hn. injection Hn as <- <-. split; [reflexivity|].
  unfold writtenThrough, contentOf, fileOf. simpl.
  rewrite lookup_insert_eq. repeat split. eexists; reflexivity.
Qed.

(** A successful [Read] hands the caller bytes that the writer has
    accepted. *)
Lemma Read_ok (path : string) (n : nat) (t t' : storingReader R) (d d' : Disk)
    (p acc : bytes) :
  storingReader_Read n t d = ((p, None), t', d') ->
  writtenThrough path t d acc ->
  writtenThrough path t' d' (acc ++ p).
Proof.
  unfold storingReader_Read, teeRead. intros Hread (Hwr & Herr & Hcont & Hfile).
  destruct (Read n (reader t)) as [[p0 err] rd'].
  destruct (Nat.ltb_spec 0 (length p0)) as [Hpos|Hzero].
  - destruct (Write (writer t) p0 d) as [[[nw we] w'] d1] eqn:Hw.
    destruct we as [e|]; [discriminate|].
    injection Hread as Hp Herr0 Ht Hd. subst p err t' d'.
    apply Write_ok in Hw. destruct Hw as (Hwr' & Hkeep & Herr' & Hcont').
    unfold writtenThrough. simpl.
    split; [congruence|]. split; [exact Herr'|].
    split; [rewrite Hcont', Hcont; reflexivity|]. apply Hkeep. exact Hfile.
  - injection Hread as Hp Herr0 Ht Hd. subst p err t' d'.
    assert (p0 = []) as -> by (apply length_zero_iff_nil; lia).
    rewrite app_nil_r. unfold writtenThrough. simpl. repeat split; assumption.
Qed.

Lemma readMany_ok (path : string) (ns : list nat) :
  forall (t t' : storingReader R) (d d' : Disk)
         (results : list (bytes * option error)) (acc : bytes),
    readMany ns t d = (results, t', d') ->
    allSuccessful results ->
    writtenThrough path t d acc ->
    writtenThrough path t' d' (acc ++ delivered results).
Proof.
  induction ns as [|n rest IH]; intros t t' d d' results acc Hrun Hall Hinv.
  - simpl in Hrun. injection Hrun as <- <- <-.
    unfold delivered. simpl. rewrite app_nil_r. exact Hinv.
  - cbn [readMany] in Hrun.
    destruct (storingReader_Read n t d) as [[res t1] d1] eqn:Hread.
    destruct (readMany rest t1 d1) as [[results' t2] d2] eqn:Hrest.
    injection Hrun as <- <- <-.
    inversion Hall as [|x l Hres Hall']; subst.
    destruct res as [p err]. simpl in Hres. subst err.
    pose proof (Read_ok path _ _ _ _ _ _ _ Hread Hinv) as Hinv1.
    pose proof (IH _ _ _ _ _ _ Hrest Hall' Hinv1) as Hinv2.
    unfold delivered in *. simpl. rewrite app_assoc. exact Hinv2.
Qed.

(** A [Close] that returns nil has flushed the writer. *)
Lemma Close_ok (path : string) (t t' : storingReader R) (d d' : Disk) (acc : bytes) :
  storingReader_Close t d = (None, t', d') ->
  writtenThrough path t d acc ->
  files d' !! path = Some acc /\
  buf (writer t') = [] /\
  reader t' = snd (Close (reader t)).
Proof.
  unfold storingReader_Close. intros Hclose (Hwr & Herr & Hcont & Hfile).
  destruct (Close (reader t)) as [[e|] rd']; [discriminate|].
  destruct (Flush (writer t) d) as [[ferr w'] d1] eqn:Hf.
  injection Hclose as -> <- <-. simpl.
  apply Flush_spec in Hf. destruct Hf as (Hwr' & Hkeep & Hres & Hcont').
  destruct (Hres eq_refl) as [Herr' Hbuf].
  destruct (Hcont' Herr') as [_ Heq].
  split; [|split; [exact Hbuf | reflexivity]].
  destruct (Hkeep path Hfile) as [x Hx].
  rewrite Hx. f_equal.
  unfold contentOf in Heq. rewrite Hbuf, app_nil_r, Hwr', Hwr in Heq.
  unfold fileOf in Heq at 1. rewrite Hx in Heq. simpl in Heq.
  rewrite Heq. unfold contentOf in Hcont. rewrite Hwr in Hcont. exact Hcont.
Qed.

(** When the inner reader fails to close, [Close] returns its error and
    touches neither the writer nor the disk. *)
Lemma Close_reader_error (t : storingReader R) (d : Disk) (e : error) (rd' : R) :
  Close (reader t) = (Some e, rd') ->
  storingReader_Close t d = (Some e, {| reader := rd'; writer := writer t |}, d).
Proof. unfold storingReader_Close. intros ->. reflexivity. Qed.

(** C7 (amended).  For every sequence of successful [Read] calls on the
    reader that [NewStoringReader filename r] returns, the bytes
    delivered to the caller have all been written to the writer of the
    file at the storage directory joined with the file name: the file's
    contents followed by the writer's buffer are the delivered bytes in
    order, and after a [Close] that returns nil the file holds exactly
    the delivered bytes and nothing is left in the buffer. *)
Theorem C7_reads_are_written_through
    (Join : string -> string -> string) (s : Storage) (filename : string)
    (rd : R) (d0 d1 : Disk) (t0 : storingReader R) (ns : list nat) :
  NewStoringReader Join s filename rd d0 = (inr t0, d1) ->
  let path := Join (directory s) filename in
  let '(results, t, d) := readMany ns t0 d1 in
  allSuccessful results ->
  fileOf path d ++ buf (writer t) = delivered results /\
  (forall t' d',
     storingReader_Close t d = (None, t', d') ->
     files d' !! path = Some (delivered results) /\ buf (writer t') = []).
Proof.
  intros Hnew path.
  destruct (NewStoringReader_ok _ _ _ _ _ _ _ Hnew) as [_ Hinv0].
  fold path in Hinv0.
  destruct (readMany ns t0 d1) as [[results t] d] eqn:Hrun.
  intros Hall.
  pose proof (readMany_ok path _ _ _ _ _ _ _ Hrun Hall Hinv0) as Hinv.
  simpl in Hinv. split.
  - destruct Hinv as (Hwr & _ & Hcont & _). unfold contentOf in Hcont.
    rewrite Hwr in Hcont. exact Hcont.
  - intros t' d' Hclose.
    destruct (Close_ok path _ _ _ _ _ Hclose Hinv) as (Hfile & Hbuf & _).
    split; assumption.
Qed.

End ReaderFacts.

(** C8.  The spec says that closing flushes the writer and that every
    byte returned by [Read] is persisted once [Close] returns, whether
    the inner reader's [Close] succeeds or fails.  The code does not do
    that on this input: the stream delivers "abc" and
    then fails to close.  [Read] returns the three bytes; [Close] closes
    the stream once and returns its error without flushing, so the file
    is empty and the bytes are still in the writer's buffer. *)
Theorem C8_Close_skips_flush_on_reader_error :
  let '(t0, d0) := opened (feed abc (Some connectionReset)) in
  let '(res, t1, d1) := storingReader_Read 3 t0 d0 in
  let '(err, t2, d2) := storingReader_Close t1 d1 in
  res = (abc, None) /\
  err = Some connectionReset /\
  closes (reader t2) = 1 /\
  files d2 !! "/srv/a.rpm" = Some [] /\
  buf (writer t2) = abc.
Proof. vm_compute. repeat split. Qed.

End StoringReaderFacts.

(** ** The storing reader: every outcome *)

Module StoringReaderExtras.
Import StoringReader StoringReaderFacts.

Section WriterContent.

Lemma sameElsewhere_refl (name : string) (d : Disk) : sameElsewhere name d d.
Proof. split; [reflexivity | intros other _; reflexivity]. Qed.

Lemma sameElsewhere_trans (name : string) (d1 d2 d3 : Disk) :
  sameElsewhere name d1 d2 -> sameElsewhere name d2 d3 -> sameElsewhere name d1 d3.
Proof.
  intros [Hd12 Hf12] [Hd23 Hf23]. split; [congruence|].
  intros other Hne. rewrite (Hf23 other Hne). apply Hf12, Hne.
Qed.

Lemma fileWrite_elsewhere (name : string) (p : bytes) (d : Disk) :
  sameElsewhere name d (snd (fileWrite name p d)).
Proof.
  unfold fileWrite. simpl. split; [reflexivity|].
  intros other Hne. simpl. apply lookup_insert_ne. congruence.
Qed.

Lemma fileWrite_count (name : string) (p : bytes) (d : Disk) :
  fst (fst (fileWrite name p d)) <= length p.
Proof. unfold fileWrite. simpl. lia. Qed.

(** A flush loses nothing, whether it fails or not: what it could not
    write stays in the buffer. *)
Lemma Flush_content (b b' : Writer) (d d' : Disk) (res : option error) :
  Flush b d = (res, b', d') ->
  wr b' = wr b /\
  contentOf b' d' = contentOf b d /\
  werr b' = res /\
  sameElsewhere (wr b) d d'.
Proof.
  unfold Flush. destruct (werr b) as [e|] eqn:He.
  { intros Hf. injection Hf as <- <- <-.
    repeat split; try reflexivity; try (intros other _; reflexivity).
    exact He. }
  destruct (Nat.eqb_spec (length (buf b)) 0) as [Hz|Hnz].
  { intros Hf. injection Hf as <- <- <-.
    repeat split; try reflexivity; try (intros other _; reflexivity).
    exact He. }
  pose proof (fileWrite_elsewhere (wr b) (buf b) d) as Hels.
  destruct (fileWrite (wr b) (buf b) d) as [[n err] d1] eqn:Hw.
  simpl in Hels.
  apply fileWrite_spec in Hw. destruct Hw as (Hfile & Hall & _).
  destruct (Nat.ltb_spec n (length (buf b))) as [Hshort|Hfull];
    destruct err as [e|]; simpl; intros Hf; injection Hf as <- <- <-; simpl.
  - repeat split; try apply Hels. unfold contentOf. simpl.
    rewrite Hfile, <- app_assoc, firstn_skipn. reflexivity.
  - repeat split; try apply Hels. unfold contentOf. simpl.
    rewrite Hfile, <- app_assoc, firstn_skipn. reflexivity.
  - repeat split; try apply Hels. unfold contentOf. simpl.
    rewrite Hfile, <- app_assoc, firstn_skipn. reflexivity.
  - repeat split; try apply Hels. unfold contentOf. simpl.
    rewrite Hfile, app_nil_r, firstn_all2 by exact Hfull. reflexivity.
Qed.

(** The loop of [Write] loses nothing either: the bytes of [p] it took
    are in the file or in the buffer, the others are left in [p]. *)
Lemma writeLoop_content (fuel : nat) :
  forall (b : Writer) (p : bytes) (nn : nat) (d : Disk)
         (b1 : Writer) (p1 : bytes) (nn1 : nat) (d1 : Disk),
    writeLoop fuel b p nn d = (b1, p1, nn1, d1) ->
    wr b1 = wr b /\
    contentOf b1 d1 ++ p1 = contentOf b d ++ p /\
    sameElsewhere (wr b) d d1 /\
    exists k, nn1 = nn + k /\ p1 = skipn k p /\ k <= length p.
Proof.
  induction fuel as [|fuel IH]; intros b p nn d b1 p1 nn1 d1 Hrun.
  { simpl in Hrun. injection Hrun as <- <- <- <-.
    split; [reflexivity|]. split; [reflexivity|].
    split; [apply sameElsewhere_refl|].
    exists 0. repeat split; [lia | lia]. }
  rewrite writeLoop_step in Hrun. destruct (writeMore b p) eqn:Hc.
  2:{ injection Hrun as <- <- <- <-.
      split; [reflexivity|]. split; [reflexivity|].
      split; [apply sameElsewhere_refl|].
      exists 0. repeat split; [lia | lia]. }
  destruct (Nat.eqb_spec (length (buf b)) 0) as [Hz|Hnz].
  - pose proof (fileWrite_elsewhere (wr b) p d) as Hels.
    pose proof (fileWrite_count (wr b) p d) as Hcount.
    destruct (fileWrite (wr b) p d) as [[n err] d'] eqn:Hw.
    simpl in Hels, Hcount.
    apply fileWrite_spec in Hw. destruct Hw as (Hfile & _ & _).
    apply IH in Hrun. simpl in Hrun.
    destruct Hrun as (Hwr & Hcont & Hels1 & k & Hnn & Hp1 & Hk).
    split; [exact Hwr|].
    split.
    { rewrite Hcont. unfold contentOf. simpl. rewrite Hfile.
      apply length_zero_iff_nil in Hz. rewrite Hz, !app_nil_r, <- app_assoc.
      rewrite firstn_skipn. reflexivity. }
    split; [exact (sameElsewhere_trans _ _ _ _ Hels Hels1)|].
    exists (n + k). rewrite length_skipn in Hk.
    split; [lia|]. split; [|lia].
    rewrite Hp1, skipn_skipn. f_equal. lia.
  - cbv zeta in Hrun.
    set (n := Nat.min (Available b) (length p)) in *.
    destruct (Flush {| wr := wr b; buf := buf b ++ firstn n p; werr := werr b |} d)
      as [[res b'] d'] eqn:Hf.
    apply Flush_content in Hf. simpl in Hf.
    destruct Hf as (Hwr' & Hcont' & _ & Hels).
    apply IH in Hrun.
    destruct Hrun as (Hwr & Hcont & Hels1 & k & Hnn & Hp1 & Hk).
    split; [congruence|].
    split.
    { rewrite Hcont, Hcont'. unfold contentOf. simpl.
      rewrite <- !app_assoc, firstn_skipn. reflexivity. }
    split.
    { apply (sameElsewhere_trans _ _ _ _ Hels). rewrite <- Hwr'. exact Hels1. }
    exists (n + k). rewrite length_skipn in Hk.
    assert (n <= length p) by (unfold n; lia).
    split; [lia|]. split; [|lia].
    rewrite Hp1, skipn_skipn. f_equal. lia.
Qed.

(** [Write] reports the number of bytes it took, and those bytes are in
    the file or in the buffer, error or not.  The error it returns is the
    one it leaves in the writer. *)
Lemma Write_content (b b' : Writer) (p : bytes) (d d' : Disk)
    (nw : nat) (err : option error) :
  Write b p d = (nw, err, b', d') ->
  wr b' = wr b /\
  contentOf b' d' = contentOf b d ++ firstn nw p /\
  (err = None -> nw = length p) /\
  werr b' = err /\
  sameElsewhere (wr b) d d'.
Proof.
  unfold Write.
  destruct (writeLoop (2 + length p) b p 0 d) as [[[b1 p1] nn] d1] eqn:Hloop.
  assert (2 <= 2 + length p) as Hfuel by lia.
  pose proof (writeLoop_exit _ _ _ _ _ _ _ _ _ Hfuel Hloop) as Hexit.
  apply writeLoop_content in Hloop.
  destruct Hloop as (Hwr & Hcont & Hels & k & Hnn & Hp1 & Hk).
  simpl in Hnn. subst nn.
  destruct (werr b1) as [e|] eqn:He.
  - intros Hw. injection Hw as <- <- <- <-.
    split; [exact Hwr|]. split.
    { apply (app_inv_tail (skipn k p)). rewrite <- app_assoc, firstn_skipn.
      rewrite <- Hp1. exact Hcont. }
    split; [discriminate|]. split; [exact He | exact Hels].
  - intros Hw. injection Hw as <- <- <- <-. simpl.
    unfold writeMore in Hexit. rewrite He, andb_true_r in Hexit.
    apply Nat.ltb_ge in Hexit.
    rewrite Nat.min_r by exact Hexit. rewrite firstn_all.
    assert (k + length p1 = length p) as Hlen.
    { rewrite Hp1, length_skipn. lia. }
    split; [exact Hwr|]. split.
    { rewrite Hlen, firstn_all, <- Hcont. unfold contentOf. simpl.
      rewrite app_assoc. reflexivity. }
    split; [intros _; exact Hlen|]. split; [reflexivity | exact Hels].
Qed.

(** A write that fits in the buffer only fills the buffer. *)
Lemma Write_fits (b : Writer) (p : bytes) (d : Disk) :
  werr b = None ->
  length p <= Available b ->
  Write b p d
  = (length p, None, {| wr := wr b; buf := buf b ++ p; werr := None |}, d).
Proof.
  intros He Hfit. unfold Write.
  assert (writeMore b p = false) as Hc.
  { unfold writeMore. apply andb_false_iff. left. apply Nat.ltb_ge. exact Hfit. }
  rewrite (writeLoop_done _ _ _ _ _ Hc), He.
  rewrite Nat.min_r by exact Hfit. rewrite firstn_all. reflexivity.
Qed.

(** A writer with an error takes nothing. *)
Lemma Write_stuck (b : Writer) (p : bytes) (d : Disk) (e : error) :
  werr b = Some e -> Write b p d = (0, Some e, b, d).
Proof.
  intros He. unfold Write.
  assert (writeMore b p = false) as Hc.
  { unfold writeMore. rewrite He. apply andb_false_r. }
  rewrite (writeLoop_done _ _ _ _ _ Hc), He. reflexivity.
Qed.

End WriterContent.

Section ReaderContent.

Context {R : Type} `{!ReadCloser R}.

Lemma Read_content (n : nat) (t t' : storingReader R) (d d' : Disk)
    (p : bytes) (err : option error) :
  storingReader_Read n t d = ((p, err), t', d') ->
  wr (writer t') = wr (writer t) /\
  contentOf (writer t') d' = contentOf (writer t) d ++ p /\
  sameElsewhere (wr (writer t)) d d'.
Proof.
  unfold storingReader_Read, teeRead. intros Hread.
  destruct (Read n (reader t)) as [[p0 err0] rd'].
  destruct (Nat.ltb_spec 0 (length p0)) as [Hpos|Hzero].
  - destruct (Write (writer t) p0 d) as [[[nw we] w'] d1] eqn:Hw.
    apply Write_content in Hw. destruct Hw as (Hwr & Hcont & Hall & _ & Hels).
    destruct we as [e|]; injection Hread as <- <- <- <-; simpl.
    + split; [exact Hwr|]. split; [exact Hcont | exact Hels].
    + rewrite (Hall eq_refl), firstn_all in Hcont.
      split; [exact Hwr|]. split; [exact Hcont | exact Hels].
  - injection Hread as <- <- <- <-. simpl.
    assert (p0 = []) as -> by (apply length_zero_iff_nil; lia).
    rewrite app_nil_r. split; [reflexivity|].
    split; [reflexivity | apply sameElsewhere_refl].
Qed.

Lemma readMany_content (ns : list nat) :
  forall (t t' : storingReader R) (d d' : Disk)
         (results : list (bytes * option error)),
    readMany ns t d = (results, t', d') ->
    wr (writer t') = wr (writer t) /\
    contentOf (writer t') d' = contentOf (writer t) d ++ delivered results /\
    sameElsewhere (wr (writer t)) d d'.
Proof.
  induction ns as [|n rest IH]; intros t t' d d' results Hrun.
  - simpl in Hrun. injection Hrun as <- <- <-.
    unfold delivered. simpl. rewrite app_nil_r.
    split; [reflexivity|]. split; [reflexivity | apply sameElsewhere_refl].
  - cbn [readMany] in Hrun.
    destruct (storingReader_Read n t d) as [[[p err] t1] d1] eqn:Hread.
    destruct (readMany rest t1 d1) as [[results' t2] d2] eqn:Hrest.
    injection Hrun as <- <- <-.
    apply Read_content in Hread. destruct Hread as (Hwr1 & Hc1 & He1).
    apply IH in Hrest. destruct Hrest as (Hwr2 & Hc2 & He2).
    split; [congruence|]. split.
    + rewrite Hc2, Hc1. unfold delivered. simpl. rewrite app_assoc. reflexivity.
    + apply (sameElsewhere_trans _ _ _ _ He1). rewrite <- Hwr1. exact He2.
Qed.

Lemma Close_content (t t' : storingReader R) (d d' : Disk) (err : option error) :
  storingReader_Close t d = (err, t', d') ->
  wr (writer t') = wr (writer t) /\
  contentOf (writer t') d' = contentOf (writer t) d /\
  sameElsewhere (wr (writer t)) d d'.
Proof.
  unfold storingReader_Close. intros Hclose.
  destruct (Close (reader t)) as [[e|] rd'].
  - injection Hclose as <- <- <-. simpl.
    split; [reflexivity|]. split; [reflexivity | apply sameElsewhere_refl].
  - destruct (Flush (writer t) d) as [[ferr w'] d1] eqn:Hf.
    injection Hclose as <- <- <-. simpl.
    apply Flush_content in Hf. destruct Hf as (Hwr & Hcont & _ & Hels).
    split; [exact Hwr|]. split; [exact Hcont | exact Hels].
Qed.

Lemma NewStoringReader_elsewhere (Join : string -> string -> string)
    (s : Storage) (filename : string) (rd : R) (d0 d1 : Disk)
    (t0 : storingReader R) :
  NewStoringReader Join s filename rd d0 = (inr t0, d1) ->
  sameElsewhere (Join (directory s) filename) d0 d1.
Proof.
  unfold NewStoringReader, osCreate.
  destruct (decide (Join (directory s) filename ∈ denied d0)); [discriminate|].
  intros Hn. injection Hn as <- <-. split; [reflexivity|].
  intros other Hne. simpl. apply lookup_insert_ne. congruence.
Qed.

(** X10.  Whatever the [Read] calls on the reader that
    [NewStoringReader] returns give back, errors of the inner reader and
    write errors included, and whatever [Close] returns: the contents of
    the file followed by the bytes left in the writer's buffer are
    exactly the bytes delivered to the caller, in order, before [Close]
    and after it.  So the file never holds a byte that [Read] did not
    deliver, and [Read] never delivers a byte the writer did not take. *)
Theorem X10_file_and_buffer_are_the_delivered_bytes
    (Join : string -> string -> string) (s : Storage) (filename : string)
    (rd : R) (d0 d1 : Disk) (t0 : storingReader R) (ns : list nat) :
  NewStoringReader Join s filename rd d0 = (inr t0, d1) ->
  let path := Join (directory s) filename in
  let '(results, t, d) := readMany ns t0 d1 in
  let '(_, t', d') := storingReader_Close t d in
  fileOf path d ++ buf (writer t) = delivered results /\
  fileOf path d' ++ buf (writer t') = delivered results.
Proof.
  intros Hnew path.
  destruct (NewStoringReader_ok _ _ _ _ _ _ _ Hnew) as [_ (Hwr0 & _ & Hc0 & _)].
  fold path in Hwr0.
  destruct (readMany ns t0 d1) as [[results t] d] eqn:Hrun.
  apply readMany_content in Hrun. destruct Hrun as (Hwr & Hcont & _).
  destruct (storingReader_Close t d) as [[err t'] d'] eqn:Hclose.
  apply Close_content in Hclose. destruct Hclose as (Hwr' & Hcont' & _).
  rewrite Hc0 in Hcont. simpl in Hcont.
  rewrite Hcont in Hcont'. unfold contentOf in Hcont, Hcont'.
  rewrite Hwr', Hwr, Hwr0 in Hcont'. rewrite Hwr, Hwr0 in Hcont.
  split; assumption.
Qed.

(** Reads that succeed and fit in the buffer together do not touch the
    disk. *)
Lemma readMany_buffered (ns : list nat) :
  forall (t t' : storingReader R) (d d' : Disk)
         (results : list (bytes * option error)),
    readMany ns t d = (results, t', d') ->
    allSuccessful results ->
    werr (writer t) = None ->
    length (buf (writer t)) + length (delivered results) <= defaultBufSize ->
    d' = d /\
    buf (writer t') = buf (writer t) ++ delivered results /\
    werr (writer t') = None.
Proof.
  induction ns as [|n rest IH]; intros t t' d d' results Hrun Hall Herr Hfit.
  - simpl in Hrun. injection Hrun as <- <- <-.
    unfold delivered. simpl. rewrite app_nil_r. repeat split. exact Herr.
  - cbn [readMany] in Hrun.
    destruct (storingReader_Read n t d) as [[[p err] t1] d1] eqn:Hread.
    destruct (readMany rest t1 d1) as [[results' t2] d2] eqn:Hrest.
    injection Hrun as <- <- <-.
    inversion Hall as [|x l Hres Hall']; subst. simpl in Hres. subst err.
    unfold delivered in Hfit. simpl in Hfit. rewrite length_app in Hfit.
    fold (delivered results') in Hfit.
    assert (d1 = d /\ buf (writer t1) = buf (writer t) ++ p /\
            werr (writer t1) = None) as (-> & Hbuf1 & Herr1).
    { unfold storingReader_Read, teeRead in Hread.
      destruct (Read n (reader t)) as [[p0 err0] rd'].
      destruct (Nat.ltb_spec 0 (length p0)) as [Hpos|Hzero].
      - destruct (Write (writer t) p0 d) as [[[nw we] w'] dw] eqn:Hw.
        destruct we as [e|]; [discriminate|].
        injection Hread as -> _ <- <-.
        rewrite Write_fits in Hw;
          [|exact Herr | unfold Available; lia].
        injection Hw as _ <- <-. simpl. repeat split.
      - injection Hread as <- _ <- <-. simpl.
        assert (p0 = []) as -> by (apply length_zero_iff_nil; lia).
        rewrite app_nil_r. repeat split. exact Herr. }
    assert (length (buf (writer t1)) + length (delivered results')
            <= defaultBufSize) as Hfit1.
    { rewrite Hbuf1, length_app. lia. }
    destruct (IH _ _ _ _ _ Hrest Hall' Herr1 Hfit1) as (-> & Hbuf2 & Herr2).
    split; [reflexivity|]. split; [|exact Herr2].
    rewrite Hbuf2, Hbuf1. unfold delivered. simpl.
    rewrite app_assoc. reflexivity.
Qed.

(** X11.  As long as the [Read] calls succeed and deliver no more than
    4096 bytes in all (the default size of the bufio writer), nothing is
    written to the disk: the disk is as [NewStoringReader] left it, the
    file is empty, and the delivered bytes are all in the writer's
    buffer. *)
Theorem X11_small_downloads_stay_in_the_buffer
    (Join : string -> string -> string) (s : Storage) (filename : string)
    (rd : R) (d0 d1 : Disk) (t0 : storingReader R) (ns : list nat) :
  NewStoringReader Join s filename rd d0 = (inr t0, d1) ->
  let path := Join (directory s) filename in
  let '(results, t, d) := readMany ns t0 d1 in
  allSuccessful results ->
  length (delivered results) <= defaultBufSize ->
  d = d1 /\
  files d !! path = Some [] /\
  buf (writer t) = delivered results.
Proof.
  intros Hnew path.
  assert (files d1 !! path = Some [] /\ writer t0 = NewWriter path)
    as [Hfile Hw0].
  { unfold NewStoringReader, osCreate in Hnew. fold path in Hnew.
    destruct (decide (path ∈ denied d0)); [discriminate|].
    injection Hnew as <- <-. simpl. rewrite lookup_insert_eq. split; reflexivity. }
  destruct (readMany ns t0 d1) as [[results t] d] eqn:Hrun.
  intros Hall Hfit.
  destruct (readMany_buffered _ _ _ _ _ _ Hrun Hall) as (-> & Hbuf & _).
  - rewrite Hw0. reflexivity.
  - rewrite Hw0. simpl. exact Hfit.
  - rewrite Hw0 in Hbuf. simpl in Hbuf. repeat split; assumption.
Qed.

(** X12.  A download of at most 4096 bytes is lost when the inner
    reader fails to close: after successful [Read] calls that delivered
    at least one byte, [Close] returns the inner reader's error, the
    file is left empty, whatever it held before [NewStoringReader], and
    the delivered bytes are still in the buffer of the writer, which
    nothing flushes. *)
Theorem X12_small_download_lost_when_inner_Close_fails
    (Join : string -> string -> string) (s : Storage) (filename : string)
    (rd : R) (d0 d1 : Disk) (t0 : storingReader R) (ns : list nat) :
  NewStoringReader Join s filename rd d0 = (inr t0, d1) ->
  let path := Join (directory s) filename in
  let '(results, t, d) := readMany ns t0 d1 in
  allSuccessful results ->
  delivered results <> [] ->
  length (delivered results) <= defaultBufSize ->
  forall e, fst (Close (reader t)) = Some e ->
  let '(err, t', d') := storingReader_Close t d in
  err = Some e /\
  files d' !! path = Some [] /\
  files d' !! path <> Some (delivered results) /\
  buf (writer t') = delivered results.
Proof.
  intros Hnew path.
  assert (files d1 !! path = Some [] /\ writer t0 = NewWriter path)
    as [Hfile Hw0].
  { unfold NewStoringReader, osCreate in Hnew. fold path in Hnew.
    destruct (decide (path ∈ denied d0)); [discriminate|].
    injection Hnew as <- <-. simpl. rewrite lookup_insert_eq. split; reflexivity. }
  destruct (readMany ns t0 d1) as [[results t] d] eqn:Hrun.
  intros Hall Hne Hfit e Hclose.
  destruct (readMany_buffered _ _ _ _ _ _ Hrun Hall) as (-> & Hbuf & _).
  { rewrite Hw0. reflexivity. }
  { rewrite Hw0. simpl. exact Hfit. }
  rewrite Hw0 in Hbuf. simpl in Hbuf.
  destruct (Close (reader t)) as [cerr rd'] eqn:Hc. simpl in Hclose. subst cerr.
  rewrite (Close_reader_error _ _ _ _ Hc). simpl.
  split; [reflexivity|]. split; [exact Hfile|]. split; [|exact Hbuf].
  rewrite Hfile. intros Heq. injection Heq as Heq. apply Hne. symmetry. exact Heq.
Qed.

(** After a write error the storing reader takes nothing more. *)
Lemma readMany_stuck (e : error) (ns : list nat) :
  forall (t t' : storingReader R) (d d' : Disk)
         (results : list (bytes * option error)),
    werr (writer t) = Some e ->
    readMany ns t d = (results, t', d') ->
    delivered results = [] /\ d' = d /\ writer t' = writer t.
Proof.
  induction ns as [|n rest IH]; intros t t' d d' results Herr Hrun.
  - simpl in Hrun. injection Hrun as <- <- <-. repeat split.
  - cbn [readMany] in Hrun.
    destruct (storingReader_Read n t d) as [[[p err] t1] d1] eqn:Hread.
    destruct (readMany rest t1 d1) as [[results' t2] d2] eqn:Hrest.
    injection Hrun as <- <- <-.
    assert (p = [] /\ d1 = d /\ writer t1 = writer t) as (-> & -> & Hw1).
    { unfold storingReader_Read, teeRead in Hread.
      destruct (Read n (reader t)) as [[p0 err0] rd'].
      destruct (Nat.ltb_spec 0 (length p0)) as [Hpos|Hzero].
      - rewrite (Write_stuck _ _ _ _ Herr) in Hread.
        injection Hread as <- _ <- <-. repeat split.
      - injection Hread as <- _ <- <-.
        assert (p0 = []) as -> by (apply length_zero_iff_nil; lia).
        repeat split. }
    rewrite <- Hw1 in Herr.
    destruct (IH _ _ _ _ _ Herr Hrest) as (Hd & -> & Hw2).
    unfold delivered in *. simpl. repeat split; [exact Hd | congruence].
Qed.

(** X13.  A write error is final.  When a [Read] returns an error that
    the inner reader did not return, no later [Read] delivers a byte,
    the disk is not written to again, and a [Close] whose inner reader
    closes returns that same error. *)
Theorem X13_a_write_error_is_final
    (n : nat) (t : storingReader R) (d : Disk) (ns : list nat) :
  let '((_, err), t1, d1) := storingReader_Read n t d in
  forall e,
    err = Some e ->
    snd (fst (Read n (reader t))) = None ->
    let '(results, t2, d2) := readMany ns t1 d1 in
    delivered results = [] /\
    d2 = d1 /\
    (fst (Close (reader t2)) = None ->
     let '(cerr, _, d3) := storingReader_Close t2 d2 in
     cerr = Some e /\ d3 = d1).
Proof.
  destruct (storingReader_Read n t d) as [[[p err] t1] d1] eqn:Hread.
  intros e -> Hinner.
  assert (werr (writer t1) = Some e) as Herr.
  { unfold storingReader_Read, teeRead in Hread.
    destruct (Read n (reader t)) as [[p0 err0] rd']. simpl in Hinner. subst err0.
    destruct (Nat.ltb_spec 0 (length p0)) as [Hpos|Hzero].
    - destruct (Write (writer t) p0 d) as [[[nw we] w'] dw] eqn:Hw.
      apply Write_content in Hw. destruct Hw as (_ & _ & _ & Hwe & _).
      destruct we as [e'|]; [|discriminate].
      injection Hread as _ He <- _. simpl. congruence.
    - discriminate. }
  destruct (readMany ns t1 d1) as [[results t2] d2] eqn:Hrun.
  destruct (readMany_stuck e _ _ _ _ _ _ Herr Hrun) as (Hd & -> & Hw2).
  split; [exact Hd|]. split; [reflexivity|].
  intros Hclose. unfold storingReader_Close.
  destruct (Close (reader t2)) as [cerr rd']. simpl in Hclose. subst cerr.
  unfold Flush. rewrite Hw2, Herr. split; reflexivity.
Qed.

(** X14.  The storing reader writes to one file only: from before
    [NewStoringReader] to after [Close], through any [Read] calls, every
    file but the one at the storage directory joined with the file name
    is as it was. *)
Theorem X14_no_other_file_is_touched
    (Join : string -> string -> string) (s : Storage) (filename : string)
    (rd : R) (d0 d1 : Disk) (t0 : storingReader R) (ns : list nat) :
  NewStoringReader Join s filename rd d0 = (inr t0, d1) ->
  let '(_, t, d) := readMany ns t0 d1 in
  let '(_, _, d') := storingReader_Close t d in
  forall other,
    other <> Join (directory s) filename ->
    files d' !! other = files d0 !! other.
Proof.
  intros Hnew.
  pose proof (NewStoringReader_elsewhere _ _ _ _ _ _ _ Hnew) as He0.
  destruct (NewStoringReader_ok _ _ _ _ _ _ _ Hnew) as [_ (Hwr0 & _)].
  destruct (readMany ns t0 d1) as [[results t] d] eqn:Hrun.
  apply readMany_content in Hrun. destruct Hrun as (Hwr & _ & He1).
  destruct (storingReader_Close t d) as [[err t'] d'] eqn:Hclose.
  apply Close_content in Hclose. destruct Hclose as (_ & _ & He2).
  rewrite Hwr, Hwr0 in He2. rewrite Hwr0 in He1.
  pose proof (sameElsewhere_trans _ _ _ _ He0
                (sameElsewhere_trans _ _ _ _ He1 He2)) as [_ Hfiles].
  exact Hfiles.
Qed.

End ReaderContent.

End StoringReaderExtras.

(** ** The theorems at concrete inputs *)

Module Examples.
Import Syncer Scripted SyncerFacts.

(** The two scenarios of the spec (8): one package, not in the store and
    in the store with the manifest's checksum. *)
Example scenario_empty_store :
  fst (processMetadata (mirror ∅) (start (script [a_rpm] emptyStore noError)))
  = (([a_rpm], []), None).
Proof. vm_compute. reflexivity. Qed.

Example scenario_up_to_date :
  fst (processMetadata (mirror ∅)
         (start (script [a_rpm] (constantStore "AAA") noError)))
  = (([], [a_rpm]), None) /\
  getsOf (trace (snd (StoreRepo (mirror ∅)
                        (start (script [a_rpm] (constantStore "AAA") noError)))))
  = ["http://mirror/repodata/repomd.xml";
     "http://mirror/repodata/primary.xml.gz";
     "http://mirror/repodata/repomd.xml.asc";
     "http://mirror/repodata/repomd.xml.key"].
Proof. vm_compute. split; reflexivity. Qed.

Lemma C1_witness :
  In a_rpm (decodedPackages x86Only primaryPath mixedRun) /\
  passesArchFilter x86Only a_rpm = true /\
  checksumReply (classificationState x86Only primaryPath mixedRun) a_rpm
  = ("AAA", None) /\
  (let '((toDownload, toRecycle), _, _) := processPrimary x86Only primaryPath mixedRun in
   In a_rpm toRecycle /\ ~ In a_rpm toDownload).
Proof.
  assert (In a_rpm (decodedPackages x86Only primaryPath mixedRun)) as Hin
    by (vm_compute; left; reflexivity).
  assert (passesArchFilter x86Only a_rpm = true) as Hpass by (vm_compute; reflexivity).
  assert (checksumReply (classificationState x86Only primaryPath mixedRun) a_rpm
          = ("AAA", None)) as Hreply by (vm_compute; reflexivity).
  split; [exact Hin|]. split; [exact Hpass|]. split; [exact Hreply|].
  pose proof (C1_processPrimary_classification x86Only primaryPath mixedRun a_rpm
                Hin Hpass) as H1.
  destruct (processPrimary x86Only primaryPath mixedRun) as [[[dl rc] err] w'].
  rewrite Hreply in H1. destruct H1 as (_ & _ & _ & Hsame).
  apply Hsame; reflexivity.
Defined.

(** C3 as the spec states it does not hold.  A record of type "md5" is recycled
    when the store answers the query for the zero-value algorithm with
    the record's checksum, and it is neither downloaded nor recycled when
    the store rejects the query with an error other than
    [ErrFileNotFound]. *)
Lemma C3_counterexample :
  checksumTypeMap !! ChecksumKind (Checksum m_rpm) = None /\
  passesArchFilter (mirror ∅) m_rpm = true /\
  fst (fst (processPrimary (mirror ∅) primaryPath
              (start (script [m_rpm] (constantStore "MMM") noError))))
  = ([], [m_rpm]) /\
  fst (fst (processPrimary (mirror ∅) primaryPath
              (start (script [m_rpm]
                        (failingStore (OtherError "unsupported checksum algorithm"))
                        noError))))
  = ([], []).
Proof. vm_compute. repeat split. Qed.

Lemma C3_witness :
  let w := start (script [m_rpm] (failingStore (OtherError "unsupported")) noError) in
  ChecksumKind (Checksum m_rpm) <> "sha" /\
  ChecksumKind (Checksum m_rpm) <> "sha1" /\
  ChecksumKind (Checksum m_rpm) <> "sha256" /\
  In m_rpm (decodedPackages (mirror ∅) primaryPath w) /\
  passesArchFilter (mirror ∅) m_rpm = true /\
  ~ In m_rpm (snd (fst (fst (processPrimary (mirror ∅) primaryPath w)))).
Proof.
  intros w.
  assert (ChecksumKind (Checksum m_rpm) <> "sha") as H1 by (vm_compute; discriminate).
  assert (ChecksumKind (Checksum m_rpm) <> "sha1") as H2 by (vm_compute; discriminate).
  assert (ChecksumKind (Checksum m_rpm) <> "sha256") as H3 by (vm_compute; discriminate).
  assert (In m_rpm (decodedPackages (mirror ∅) primaryPath w)) as Hin
    by (vm_compute; left; reflexivity).
  assert (passesArchFilter (mirror ∅) m_rpm = true) as Hpass by (vm_compute; reflexivity).
  repeat (split; [assumption|]).
  destruct (C3_unknown_checksum_type (mirror ∅) primaryPath w m_rpm)
    as (_ & _ & _ & Hother).
  destruct (Hother H1 H2 H3) as [_ Hclass].
  specialize (Hclass Hin Hpass).
  destruct (processPrimary (mirror ∅) primaryPath w) as [[[dl rc] err] w'].
  simpl in *. destruct Hclass as (_ & _ & Hnot). apply Hnot. discriminate.
Defined.

Lemma C4_witness :
  Arch c_rpm <> "noarch" /\
  archs x86Only <> ∅ /\
  archs x86Only !! Arch c_rpm <> Some true /\
  passesArchFilter x86Only c_rpm = false /\
  passesArchFilter x86Only b_rpm = true /\
  passesArchFilter (mirror ∅) c_rpm = true.
Proof.
  assert (Arch c_rpm <> "noarch") as H1 by (vm_compute; discriminate).
  assert (archs x86Only <> ∅) as H2.
  { intros Hf. apply (f_equal (fun m => m !! "x86_64")) in Hf.
    vm_compute in Hf. discriminate. }
  assert (archs x86Only !! Arch c_rpm <> Some true) as H3 by (vm_compute; discriminate).
  destruct (C4_architecture_filter (W := Script) x86Only) as (_ & Hnoarch & _ & Hout).
  destruct (C4_architecture_filter (W := Script) (mirror ∅)) as (Hall & _).
  repeat (split; [assumption|]).
  split; [exact (proj1 (Hout c_rpm H1 H2 H3))|].
  split; [apply Hnoarch; reflexivity|].
  apply Hall. reflexivity.
Defined.

(** C5 as the spec states it does not hold.  The fetch of repomd.xml.asc fails
    with a transport error, not with a 404 response; the text of the
    error ends in "404", the error is swallowed and the run goes on to
    commit.  And the status error of a 404 response whose text does not
    end in "404" is fatal. *)
Lemma C5_counterexample :
  fst (StoreRepo (mirror ∅)
         (start (script [] emptyStore
                   (getsExcept [(ascURL, OtherError "read tcp 10.0.0.7:41404")]))))
  = None /\
  fst (StoreRepo (mirror ∅)
         (start (script [] emptyStore
                   (getsExcept [(ascURL, HttpError 404 "404 Not Found")]))))
  = Some (HttpError 404 "404 Not Found").
Proof. vm_compute. split; reflexivity. Qed.

Lemma C10_witness :
  let path := repomdPath +:+ ".asc" in
  let e := OtherError "read tcp 10.0.0.7:41404" in
  downloadStore (mirror ∅) path resetRun
  = (Some e, snd (downloadStore (mirror ∅) path resetRun)) /\
  (fst (signatureStage (mirror ∅) path resetRun) = None <->
   exists p, Error e = p +:+ "404").
Proof.
  intros path e.
  assert (downloadStore (mirror ∅) path resetRun
          = (Some e, snd (downloadStore (mirror ∅) path resetRun))) as Hd
    by (vm_compute; reflexivity).
  split; [exact Hd|].
  exact (proj1 (C10_tolerance_by_message (mirror ∅) path resetRun _ e Hd)).
Defined.

Lemma C5_witness :
  httpGet (Url (mirror ∅) +:+ "/" +:+ repomdPath) (ext noIndexRun)
  = (inl indexGone, ext noIndexRun) /\
  StoreRepo (mirror ∅) noIndexRun =
  (Some indexGone,
   mkWorld (ext noIndexRun)
     (trace noIndexRun
      ++ [EvLog ("Downloading " +:+ repomdPath +:+ "...");
          EvGet (Url (mirror ∅) +:+ "/" +:+ repomdPath) (Some indexGone)])).
Proof.
  assert (httpGet (Url (mirror ∅) +:+ "/" +:+ repomdPath) (ext noIndexRun)
          = (inl indexGone, ext noIndexRun)) as Hget by (vm_compute; reflexivity).
  split; [exact Hget|].
  exact (proj1 (C5_signature_files (mirror ∅) noIndexRun) _ _ Hget).
Defined.

Lemma C6_witness :
  let '(res, w') := StoreRepo x86Only mixedRun in
  exists T0 Td Tr Tc,
    trace w' = trace mixedRun ++ T0 ++ Td ++ Tr ++ Tc /\
    recyclesOf Td = [] /\ getsOf Tr = [] /\ commitsOf Tc <= 1.
Proof.
  pose proof (C6_StoreRepo_stages x86Only mixedRun) as H6.
  destruct (processMetadata x86Only mixedRun) as [[[dl rc] err0] w1].
  destruct (StoreRepo x86Only mixedRun) as [res w'].
  destruct H6 as (T0 & Td & Tr & Tc & _ & Ht & _ & (_ & HrD & _) & (HgR & _)
                  & (_ & _ & HcC) & _).
  exists T0, Td, Tr, Tc. repeat split; assumption.
Defined.

(** C9 as the spec states it does not hold.  The manifest lists a.rpm
    twice and the store holds neither package: every record is
    classified on its own, and a.rpm is twice in the list to download. *)
Lemma C9_counterexample :
  decodedPackages (mirror ∅) primaryPath repeatedRun = [a_rpm; b_rpm; a_rpm] /\
  fst (fst (processPrimary (mirror ∅) primaryPath repeatedRun))
  = ([a_rpm; b_rpm; a_rpm], []) /\
  ~ List.NoDup [a_rpm; b_rpm; a_rpm].
Proof.
  split; [vm_compute; reflexivity|]. split; [vm_compute; reflexivity|].
  intros Hnd. inversion Hnd as [|x l Hnotin _]; subst.
  apply Hnotin. right. left. reflexivity.
Qed.

Lemma C9_witness :
  List.NoDup (decodedPackages x86Only primaryPath mixedRun) /\
  (let '((toDownload, toRecycle), _, _) := processPrimary x86Only primaryPath mixedRun in
   List.NoDup toDownload /\ List.NoDup toRecycle).
Proof.
  assert (List.NoDup (decodedPackages x86Only primaryPath mixedRun)) as Hnd.
  { vm_compute. repeat constructor; simpl; intros Hin;
      repeat (destruct Hin as [Hin|Hin]; [discriminate|]); exact Hin. }
  split; [exact Hnd|].
  pose proof (C9_processPrimary_partition x86Only primaryPath mixedRun) as H9.
  destruct (processPrimary x86Only primaryPath mixedRun) as [[[dl rc] err] w'].
  destruct H9 as (_ & _ & _ & _ & Hno & _). exact (Hno Hnd).
Defined.

End Examples.

Module IdempotenceExamples.
Import Syncer Scripted ContentStore Idempotence.

(** C2 as the spec states it does not hold.  The remote serves bytes for a.rpm
    that do not have the manifest's checksum "AAA": the first run
    succeeds, and the second run classifies the record as download again.
    A record with an algorithm outside the table is downloaded by the
    first run and skipped, not recycled, by the second.  Two records at
    one location, one matching the stored file and one not: the first
    run downloads the file and then recycles the old one over it, and the
    second run downloads again. *)
Lemma C2_counterexample :
  twice [a_rpm] (fresh (served [Byte.x01; Byte.x02]))
  = (None, (([a_rpm], []), None),
     ["http://mirror/repodata/repomd.xml";
      "http://mirror/repodata/primary.xml.gz";
      "http://mirror/repodata/repomd.xml.asc";
      "http://mirror/repodata/repomd.xml.key";
      "http://mirror/pkgs/a-1.0.rpm"]) /\
  twice [a_md5] (fresh (served [Byte.x01; Byte.x02]))
  = (None, (([], []), None),
     ["http://mirror/repodata/repomd.xml";
      "http://mirror/repodata/primary.xml.gz";
      "http://mirror/repodata/repomd.xml.asc";
      "http://mirror/repodata/repomd.xml.key"]) /\
  twice [a_sha1; a_good] (stale (served [Byte.x01; Byte.x02]))
  = (None, (([a_good], [a_sha1]), None),
     ["http://mirror/repodata/repomd.xml";
      "http://mirror/repodata/primary.xml.gz";
      "http://mirror/repodata/repomd.xml.asc";
      "http://mirror/repodata/repomd.xml.key";
      "http://mirror/pkgs/a-1.0.rpm"]).
Proof. vm_compute. repeat split. Qed.

Lemma C2_witness :
  @StoreRepo _ _ (@storage goodCodec) (@transport goodCodec) (mirror ∅) goodStart
  = (None, afterFirstRun) /\
  @locationsUnique goodCodec (mirror ∅) (ext goodStart) /\
  @manifestConsistent goodCodec (mirror ∅) (ext goodStart) /\
  fst (@processMetadata _ _ (@storage goodCodec) (@transport goodCodec)
         (mirror ∅) afterFirstRun)
  = (([], [a_good]), None).
Proof.
  assert (@StoreRepo _ _ (@storage goodCodec) (@transport goodCodec) (mirror ∅) goodStart
          = (None, afterFirstRun)) as Hrun by (vm_compute; reflexivity).
  assert (@manifestOf goodCodec (mirror ∅) (ext goodStart) = [a_good]) as HM
    by (vm_compute; reflexivity).
  assert (@locationsUnique goodCodec (mirror ∅) (ext goodStart)) as Huniq.
  { unfold locationsUnique. rewrite HM. vm_compute.
    constructor; [intros [] | constructor]. }
  assert (@manifestConsistent goodCodec (mirror ∅) (ext goodStart)) as Hcons.
  { unfold manifestConsistent. rewrite HM. intros pack [<-|[]] _.
    split; [vm_compute; discriminate|].
    intros b Hb. vm_compute in Hb. injection Hb as <-. vm_compute. reflexivity. }
  split; [exact Hrun|]. split; [exact Huniq|]. split; [exact Hcons|].
  pose proof (@C2_second_run_recycles goodCodec (mirror ∅) goodStart afterFirstRun
                Hrun Huniq Hcons) as H2.
  destruct (@processMetadata _ _ (@storage goodCodec) (@transport goodCodec)
              (mirror ∅) afterFirstRun) as [[[dl rc] err] w2].
  destruct (@StoreRepo _ _ (@storage goodCodec) (@transport goodCodec)
              (mirror ∅) afterFirstRun) as [res w3].
  destruct H2 as (_ & -> & -> & -> & _). rewrite HM. reflexivity.
Defined.

End IdempotenceExamples.

Module StoringReaderExamples.
Import StoringReader StoringReaderFacts.

(** C7 as the spec states it does not hold.  The device has room for two bytes.
    The stream delivers "abc" in one successful [Read]; the inner reader
    closes without error, the flush fails for lack of room, [Close]
    returns that error and the file holds "ab". *)
Lemma C7_counterexample :
  let '(t0, d0) := openedOn 2 (feed abc None) in
  let '(res, t1, d1) := storingReader_Read 3 t0 d0 in
  let '(err, t2, d2) := storingReader_Close t1 d1 in
  res = (abc, None) /\
  closes (reader t2) = 1 /\
  err = Some (noSpace "/srv/a.rpm") /\
  files d2 !! "/srv/a.rpm" = Some [Byte.x61; Byte.x62] /\
  files d2 !! "/srv/a.rpm" <> Some (delivered [res]).
Proof. vm_compute. repeat split. discriminate. Qed.

Lemma C7_witness :
  let f := feed abc None in
  let run := readMany [1; 5] (fst (opened f)) (snd (opened f)) in
  NewStoringReader slashJoin (NewStorage "/srv") "a.rpm" f (emptyDisk 100)
  = (inr (fst (opened f)), snd (opened f)) /\
  allSuccessful (fst (fst run)) /\
  delivered (fst (fst run)) = abc /\
  fileOf "/srv/a.rpm" (snd run) ++ buf (writer (snd (fst run))) = abc.
Proof.
  intros f run.
  assert (NewStoringReader slashJoin (NewStorage "/srv") "a.rpm" f (emptyDisk 100)
          = (inr (fst (opened f)), snd (opened f))) as Hnew
    by (vm_compute; reflexivity).
  assert (allSuccessful (fst (fst run))) as Hall
    by (vm_compute; repeat constructor).
  assert (delivered (fst (fst run)) = abc) as Hd by (vm_compute; reflexivity).
  split; [exact Hnew|]. split; [exact Hall|]. split; [exact Hd|].
  pose proof (C7_reads_are_written_through slashJoin (NewStorage "/srv") "a.rpm" f
                (emptyDisk 100) (snd (opened f)) (fst (opened f)) [1; 5] Hnew) as H7.
  cbv zeta in H7. fold run in H7.
  destruct run as [[results t] d]. simpl in *.
  rewrite <- Hd. exact (proj1 (H7 Hall)).
Defined.

End StoringReaderExamples.

(** ** The loops of the Syncer on concrete repositories *)
Module SyncerExtrasExamples.
Import Syncer Scripted SyncerExtras.

Lemma X1_witness :
  snd (fst (processPrimary (NewSyncer "http://mirror" ∅) primaryPath brokenStoreRun))
  = None.
Proof.
  pose proof (X1_checksum_errors_are_not_fatal
                (NewSyncer "http://mirror" ∅) primaryPath brokenStoreRun) as H1.
  destruct (processPrimary (NewSyncer "http://mirror" ∅) primaryPath brokenStoreRun)
    as [[lists err] w'].
  simpl. rewrite H1. vm_compute. reflexivity.
Defined.

Lemma X2_witness :
  exists T,
    trace (snd (processPrimary x86Only primaryPath mixedRun)) = T /\
    queriesOf T =
    [ ("pkgs/a-1.0.rpm", SHA256); ("pkgs/b-1.0.rpm", SHA1);
      ("pkgs/m-1.0.rpm", Unknown) ].
Proof.
  destruct (X2_one_query_per_accepted_record x86Only primaryPath mixedRun)
    as (T & Ht & Hq).
  exists T. split; [exact Ht|]. rewrite Hq. vm_compute. reflexivity.
Defined.

Lemma X3_witness :
  let '((toDownload, toRecycle), _, _) :=
    processPrimary (NewSyncer "http://mirror" ∅) primaryPath freshRun in
  (forall pack,
     In pack [a_rpm; b_rpm] ->
     In pack toDownload \/ In pack toRecycle) /\
  length toDownload + length toRecycle = 2.
Proof.
  assert (forall pack e,
     In pack (decodedPackages (NewSyncer "http://mirror" ∅) primaryPath freshRun) ->
     passesArchFilter (NewSyncer "http://mirror" ∅) pack = true ->
     snd (checksumReply
            (classificationState (NewSyncer "http://mirror" ∅) primaryPath freshRun)
            pack) = Some e ->
     e = ErrFileNotFound) as Hhealthy.
  { intros pack e _ _ He. vm_compute in He. congruence. }
  pose proof (X3_no_record_dropped_without_error
                (NewSyncer "http://mirror" ∅) primaryPath freshRun Hhealthy) as H3.
  destruct (processPrimary (NewSyncer "http://mirror" ∅) primaryPath freshRun)
    as [[[dl rc] err] w'].
  destruct H3 as [Hin Hlen]. split; [|exact Hlen].
  intros pack Hp. apply Hin; [exact Hp|].
  destruct Hp as [<-|[<-|[]]]; reflexivity.
Defined.


Lemma X5_witness :
  let '(lists, _, w') :=
    processData (NewSyncer "http://mirror" ∅) [filelistsEntry; filelistsEntry]
      ([a_rpm], []) freshRun in
  lists = ([a_rpm], []) /\
  exists T, trace w' = trace freshRun ++ T /\ queriesOf T = [].
Proof.
  apply (X5_index_without_primary (NewSyncer "http://mirror" ∅)
           [filelistsEntry; filelistsEntry]).
  intros d [<-|[<-|[]]]; reflexivity.
Defined.

Lemma X6_witness :
  fst (fst (processData (NewSyncer "http://mirror" ∅)
              [primaryEntry; filelistsEntry; primaryEntry; filelistsEntry]
              ([], []) freshRun))
  = ([a_rpm; b_rpm], []).
Proof.
  assert (forall d', In d' [filelistsEntry] -> isPrimary d' = false) as Hnone.
  { intros d' [<-|[]]. reflexivity. }
  pose proof (X6_last_primary_entry_decides (NewSyncer "http://mirror" ∅)
                [primaryEntry; filelistsEntry] [filelistsEntry] primaryEntry
                ([], []) freshRun eq_refl Hnone) as H6.
  vm_compute in H6. vm_compute. exact (H6 eq_refl).
Defined.

Lemma X7_witness :
  let '(res, w') := StoreRepo x86Only mixedRun in
  res = None /\
  commitsOf (trace w') <= 1 /\
  In (EvCommit None) (trace w').
Proof.
  pose proof (X7_success_means_committed x86Only mixedRun) as H7.
  assert (fst (StoreRepo x86Only mixedRun) = None) as Hres
    by (vm_compute; reflexivity).
  destruct (StoreRepo x86Only mixedRun) as [res w'].
  simpl in Hres. destruct H7 as (T & Ht & Hc & _ & Hin).
  change (trace w' = T) in Ht. rewrite Ht.
  split; [exact Hres|]. split; [exact Hc | exact (Hin Hres)].
Defined.

Lemma X8_witness :
  let '(err, w') :=
    downloadPackages (NewSyncer "http://mirror" ∅) [a_rpm; b_rpm] freshRun in
  err = None /\
  mappersOf (trace w') = [ ("pkgs/a-1.0.rpm", "AAA"); ("pkgs/b-1.0.rpm", "BBB") ].
Proof.
  pose proof (X8_downloads_carry_the_manifest_checksum
                (NewSyncer "http://mirror" ∅) [a_rpm; b_rpm] freshRun) as H8.
  assert (fst (downloadPackages (NewSyncer "http://mirror" ∅) [a_rpm; b_rpm]
                 freshRun) = None) as Herr
    by (vm_compute; reflexivity).
  destruct (downloadPackages (NewSyncer "http://mirror" ∅) [a_rpm; b_rpm] freshRun)
    as [err w'].
  simpl in Herr. split; [exact Herr|].
  destruct H8 as (T & n & Ht & _ & Hall).
  change (trace w' = T) in Ht. rewrite Ht. exact (Hall Herr).
Defined.

Lemma X9_witness :
  let '(res, w') :=
    StoreRepo (NewSyncer "http://mirror" {[ "x86_64" := true ]}) mixedRun in
  res = None /\
  getsOf (trace w') =
  [ "http://mirror/repodata/repomd.xml";
    "http://mirror/repodata/primary.xml.gz";
    "http://mirror/repodata/repomd.xml.asc";
    "http://mirror/repodata/repomd.xml.key";
    "http://mirror/pkgs/b-1.0.rpm";
    "http://mirror/pkgs/m-1.0.rpm" ] /\
  recyclesOf (trace w') = [ "pkgs/a-1.0.rpm" ].
Proof.
  pose proof (X9_what_a_successful_sync_fetches
                (NewSyncer "http://mirror" {[ "x86_64" := true ]}) mixedRun) as H9.
  vm_compute in H9. destruct (H9 eq_refl) as (T & Ht & Hg & Hr).
  subst T. vm_compute. split; [reflexivity|]. split; [exact Hg | exact Hr].
Defined.

End SyncerExtrasExamples.

(** ** The storing reader on concrete streams and disks *)
Module StoringReaderExtrasExamples.
Import StoringReader StoringReaderFacts StoringReaderExtras.

(** The device has room for 100 bytes and the stream holds 5000.  The
    first [Read] gets 4500 bytes, of which 100 reach the file; the second
    delivers nothing. *)
Lemma X10_witness :
  let f := feed (blob 5000) None in
  let start := openedOver (emptyDisk 100) f in
  let '(results, t, d) := readMany [4500; 10] (fst start) (snd start) in
  let '(err, t', d') := storingReader_Close t d in
  map snd results = [Some (noSpace "/srv/a.rpm"); Some (noSpace "/srv/a.rpm")] /\
  err = Some (noSpace "/srv/a.rpm") /\
  delivered results = blob 100 /\
  fileOf "/srv/a.rpm" d' ++ buf (writer t') = delivered results.
Proof.
  intros f start.
  assert (NewStoringReader slashJoin (NewStorage "/srv") "a.rpm" f (emptyDisk 100)
          = (inr (fst start), snd start)) as Hnew
    by (vm_compute; reflexivity).
  pose proof (X10_file_and_buffer_are_the_delivered_bytes slashJoin
                (NewStorage "/srv") "a.rpm" f (emptyDisk 100) (snd start)
                (fst start) [4500; 10] Hnew) as H10.
  cbv zeta in H10.
  assert (map snd (fst (fst (readMany [4500; 10] (fst start) (snd start))))
          = [Some (noSpace "/srv/a.rpm"); Some (noSpace "/srv/a.rpm")]) as Herrs
    by (vm_compute; reflexivity).
  assert (delivered (fst (fst (readMany [4500; 10] (fst start) (snd start))))
          = blob 100) as Hd
    by (vm_compute; reflexivity).
  assert (fst (fst (storingReader_Close
                      (snd (fst (readMany [4500; 10] (fst start) (snd start))))
                      (snd (readMany [4500; 10] (fst start) (snd start)))))
          = Some (noSpace "/srv/a.rpm")) as Herr
    by (vm_compute; reflexivity).
  destruct (readMany [4500; 10] (fst start) (snd start)) as [[results t] d].
  simpl in Herrs, Hd, Herr.
  destruct (storingReader_Close t d) as [[err t'] d'].
  simpl in Herr.
  split; [exact Herrs|]. split; [exact Herr|]. split; [exact Hd|].
  exact (proj2 H10).
Defined.

Lemma X11_witness :
  let f := feed abc None in
  let start := openedOver (usedDisk 100) f in
  let '(results, t, d) := readMany [1; 5] (fst start) (snd start) in
  delivered results = abc /\
  d = snd start /\
  files d !! "/srv/a.rpm" = Some [] /\
  buf (writer t) = delivered results.
Proof.
  intros f start.
  assert (NewStoringReader slashJoin (NewStorage "/srv") "a.rpm" f (usedDisk 100)
          = (inr (fst start), snd start)) as Hnew
    by (vm_compute; reflexivity).
  pose proof (X11_small_downloads_stay_in_the_buffer slashJoin
                (NewStorage "/srv") "a.rpm" f (usedDisk 100) (snd start)
                (fst start) [1; 5] Hnew) as H11.
  cbv zeta in H11.
  assert (allSuccessful (fst (fst (readMany [1; 5] (fst start) (snd start)))))
    as Hall by (vm_compute; repeat constructor).
  assert (delivered (fst (fst (readMany [1; 5] (fst start) (snd start)))) = abc)
    as Hd by (vm_compute; reflexivity).
  destruct (readMany [1; 5] (fst start) (snd start)) as [[results t] d].
  simpl in Hall, Hd.
  split; [exact Hd|]. apply H11; [exact Hall|].
  rewrite Hd. unfold defaultBufSize. simpl. lia.
Defined.

(** The stream delivers "abc" and fails to close; /srv/a.rpm held "abc"
    before and is empty afterwards. *)
Lemma X12_witness :
  let f := feed abc (Some connectionReset) in
  let start := openedOver (usedDisk 100) f in
  let '(results, t, d) := readMany [2; 2] (fst start) (snd start) in
  let '(err, t', d') := storingReader_Close t d in
  delivered results = abc /\
  err = Some connectionReset /\
  files d' !! "/srv/a.rpm" = Some [] /\
  files d' !! "/srv/a.rpm" <> Some (delivered results) /\
  buf (writer t') = delivered results.
Proof.
  intros f start.
  assert (NewStoringReader slashJoin (NewStorage "/srv") "a.rpm" f (usedDisk 100)
          = (inr (fst start), snd start)) as Hnew
    by (vm_compute; reflexivity).
  pose proof (X12_small_download_lost_when_inner_Close_fails slashJoin
                (NewStorage "/srv") "a.rpm" f (usedDisk 100) (snd start)
                (fst start) [2; 2] Hnew) as H12.
  cbv zeta in H12.
  assert (allSuccessful (fst (fst (readMany [2; 2] (fst start) (snd start)))))
    as Hall by (vm_compute; repeat constructor).
  assert (delivered (fst (fst (readMany [2; 2] (fst start) (snd start)))) = abc)
    as Hd by (vm_compute; reflexivity).
  assert (fst (Close (reader (snd (fst (readMany [2; 2] (fst start) (snd start))))))
          = Some connectionReset) as Hclose
    by (vm_compute; reflexivity).
  destruct (readMany [2; 2] (fst start) (snd start)) as [[results t] d].
  simpl in Hall, Hd, Hclose.
  assert (delivered results <> []) as Hne by (rewrite Hd; discriminate).
  assert (length (delivered results) <= defaultBufSize) as Hfit
    by (rewrite Hd; unfold defaultBufSize; simpl; lia).
  specialize (H12 Hall Hne Hfit connectionReset Hclose).
  destruct (storingReader_Close t d) as [[err t'] d'].
  split; [exact Hd | exact H12].
Defined.

(** The device has room for 100 bytes.  The first [Read] fails on the
    write; the next two deliver nothing and [Close] returns the error of
    the first. *)
Lemma X13_witness :
  let f := feed (blob 5000) None in
  let start := openedOver (emptyDisk 100) f in
  let '(res, t1, d1) := storingReader_Read 4500 (fst start) (snd start) in
  let '(results, t2, d2) := readMany [10; 10] t1 d1 in
  let '(cerr, _, d3) := storingReader_Close t2 d2 in
  res = (blob 100, Some (noSpace "/srv/a.rpm")) /\
  delivered results = [] /\
  d2 = d1 /\
  cerr = Some (noSpace "/srv/a.rpm") /\
  d3 = d1.
Proof.
  intros f start.
  pose proof (X13_a_write_error_is_final 4500 (fst start) (snd start) [10; 10])
    as H13.
  assert (fst (storingReader_Read 4500 (fst start) (snd start))
          = ((blob 100, Some (noSpace "/srv/a.rpm")),
             snd (fst (storingReader_Read 4500 (fst start) (snd start)))))
    as Hres by (vm_compute; reflexivity).
  assert (snd (fst (Read 4500 (reader (fst start)))) = None) as Hinner
    by (vm_compute; reflexivity).
  assert (fst (Close (reader (snd (fst
            (readMany [10; 10]
               (snd (fst (storingReader_Read 4500 (fst start) (snd start))))
               (snd (storingReader_Read 4500 (fst start) (snd start))))))))
          = None) as Hclose
    by (vm_compute; reflexivity).
  destruct (storingReader_Read 4500 (fst start) (snd start)) as [[[p err] t1] d1].
  cbn [fst snd] in Hres, Hclose. injection Hres as -> ->.
  specialize (H13 _ eq_refl Hinner).
  destruct (readMany [10; 10] t1 d1) as [[results t2] d2].
  cbn [fst snd] in Hclose.
  destruct H13 as (Hd & Hd2 & Hc). specialize (Hc Hclose).
  destruct (storingReader_Close t2 d2) as [[cerr t3] d3].
  destruct Hc as [Hcerr Hd3].
  repeat split; assumption.
Defined.

(** /srv/b.rpm is not touched by a download of /srv/a.rpm. *)
Lemma X14_witness :
  let f := feed abc None in
  let start := openedOver (usedDisk 2) f in
  let '(_, t, d) := readMany [2; 2] (fst start) (snd start) in
  let '(_, _, d') := storingReader_Close t d in
  files d' !! "/srv/b.rpm" = Some abc.
Proof.
  intros f start.
  assert (NewStoringReader slashJoin (NewStorage "/srv") "a.rpm" f (usedDisk 2)
          = (inr (fst start), snd start)) as Hnew
    by (vm_compute; reflexivity).
  pose proof (X14_no_other_file_is_touched slashJoin
                (NewStorage "/srv") "a.rpm" f (usedDisk 2) (snd start)
                (fst start) [2; 2] Hnew) as H14.
  destruct (readMany [2; 2] (fst start) (snd start)) as [[results t] d].
  destruct (storingReader_Close t d) as [[err t'] d'].
  rewrite (H14 "/srv/b.rpm"); [vm_compute; reflexivity|].
  vm_compute. discriminate.
Defined.

End StoringReaderExtrasExamples.
